(** * NGC License Server: a shallow embedding of [app.py]

    The Flask application [app.py] keeps two SQLite relations, [licenses]
    and [validation_logs], and serves five JSON endpoints over them.  This
    development embeds the handlers as functions over an explicit world
    (the committed database, the wall clock, the random source and the
    process environment) and proves the properties of the license lifecycle
    that the specification states.

    Layout:
    - [Text]      the [str] methods the handlers call ([strip], [upper]);
    - [Calendar]  the part of Python's [datetime] the handlers call;
    - [Store]     the two relations and the SQL statements run on them;
    - [Handlers]  the world, the handler monad and the five endpoints;
    - the vocabulary of the statements and sample data;
    - the branches of each handler, calendar facts, and the properties
      C1 to C10;
    - further properties of the endpoints, marked X. *)

From stdpp Require Import gmap strings list pretty.
From Stdlib Require Import ZArith Ascii String Lia.

Open Scope Z_scope.

(* ===================================================================== *)
(** ** Text: the [str] methods used on request fields *)
(* ===================================================================== *)

Module Text.

(** Request text is taken as ASCII.  [str.isspace] is true of the ASCII
    characters 9-13 and 28-32. *)
Definition is_space (c : ascii) : bool :=
  let n := nat_of_ascii c in
  (((9 <=? n) && (n <=? 13)) || ((28 <=? n) && (n <=? 32)))%nat.

Fixpoint lstrip (s : string) : string :=
  match s with
  | EmptyString => EmptyString
  | String c s' => if is_space c then lstrip s' else s
  end.

Fixpoint rstrip (s : string) : string :=
  match s with
  | EmptyString => EmptyString
  | String c s' =>
      match rstrip s' with
      | EmptyString => if is_space c then EmptyString else String c EmptyString
      | r => String c r
      end
  end.

(** [s.strip()] *)
Definition strip (s : string) : string := rstrip (lstrip s).

Definition upper_char (c : ascii) : ascii :=
  let n := nat_of_ascii c in
  if ((97 <=? n) && (n <=? 122))%nat then ascii_of_nat (n - 32) else c.

(** [s.upper()] *)
Fixpoint upper (s : string) : string :=
  match s with
  | EmptyString => EmptyString
  | String c s' => String (upper_char c) (upper s')
  end.

(** Python truthiness of a [str]: [not s] holds of the empty string only. *)
Definition truthy (s : string) : bool :=
  match s with EmptyString => false | _ => true end.

(** [str(n)] for an [int], as interpolated by an f-string. *)
Definition str_of_int (n : Z) : string := pretty n.
Global Arguments str_of_int : simpl never.

End Text.

(* ===================================================================== *)
(** ** Calendar: the part of [datetime] that the handlers use *)
(* ===================================================================== *)

Module Calendar.

(** A naive [datetime] object: the seven fields Python keeps. *)
Record datetime : Type := mkdt {
  year : Z; month : Z; day : Z;
  hour : Z; minute : Z; second : Z; microsecond : Z
}.

Record timedelta : Type := mktd {
  td_days : Z; td_seconds : Z; td_microseconds : Z
}.

Definition MAXORDINAL : Z := 3652059.
Definition DI400Y : Z := 146097.
Definition DI100Y : Z := 36524.
Definition DI4Y : Z := 1461.
Definition US_PER_DAY : Z := 86400000000.

Definition is_leap (y : Z) : bool :=
  (y mod 4 =? 0) && (negb (y mod 100 =? 0) || (y mod 400 =? 0)).

Definition days_before_year (y : Z) : Z :=
  let y := y - 1 in y * 365 + y / 4 - y / 100 + y / 400.

Definition DAYS_IN_MONTH (m : Z) : Z :=
  match m with
  | 1 => 31 | 2 => 28 | 3 => 31 | 4 => 30 | 5 => 31 | 6 => 30
  | 7 => 31 | 8 => 31 | 9 => 30 | 10 => 31 | 11 => 30 | 12 => 31
  | _ => 0
  end.

Definition DAYS_BEFORE_MONTH (m : Z) : Z :=
  match m with
  | 1 => 0 | 2 => 31 | 3 => 59 | 4 => 90 | 5 => 120 | 6 => 151
  | 7 => 181 | 8 => 212 | 9 => 243 | 10 => 273 | 11 => 304 | 12 => 334
  | _ => 0
  end.

Definition days_in_month (y m : Z) : Z :=
  if (m =? 2) && is_leap y then 29 else DAYS_IN_MONTH m.

Definition days_before_month (y m : Z) : Z :=
  DAYS_BEFORE_MONTH m + (if (2 <? m) && is_leap y then 1 else 0).

(** [date.toordinal]: 1 is 0001-01-01. *)
Definition ymd2ord (y m d : Z) : Z :=
  days_before_year y + days_before_month y m + d.

Definition toordinal (t : datetime) : Z := ymd2ord (year t) (month t) (day t).

(** [date.fromordinal], Python's [_ord2ymd]. *)
Definition ord2ymd (n : Z) : Z * Z * Z :=
  let n := n - 1 in
  let n400 := n / DI400Y in let n := n mod DI400Y in
  let y := n400 * 400 + 1 in
  let n100 := n / DI100Y in let n := n mod DI100Y in
  let n4 := n / DI4Y in let n := n mod DI4Y in
  let n1 := n / 365 in let n := n mod 365 in
  let y := y + n100 * 100 + n4 * 4 + n1 in
  if (n1 =? 4) || (n100 =? 4) then (y - 1, 12, 31)
  else
    let leapyear := (n1 =? 3) && (negb (n4 =? 24) || (n100 =? 3)) in
    let m := Z.shiftr (n + 50) 5 in
    let preceding :=
      DAYS_BEFORE_MONTH m + (if (2 <? m) && leapyear then 1 else 0) in
    if n <? preceding then
      let m := m - 1 in
      let preceding :=
        preceding - (DAYS_IN_MONTH m + (if (m =? 2) && leapyear then 1 else 0)) in
      (y, m, n - preceding + 1)
    else (y, m, n - preceding + 1).

(** What the [datetime] constructor accepts. *)
Definition valid_date (y m d : Z) : bool :=
  (1 <=? y) && (y <=? 9999) && (1 <=? m) && (m <=? 12) &&
  (1 <=? d) && (d <=? days_in_month y m).

Definition valid_time (h mi s us : Z) : bool :=
  (0 <=? h) && (h <? 24) && (0 <=? mi) && (mi <? 60) &&
  (0 <=? s) && (s <? 60) && (0 <=? us) && (us <? 1000000).

Definition valid_datetime (t : datetime) : bool :=
  valid_date (year t) (month t) (day t) &&
  valid_time (hour t) (minute t) (second t) (microsecond t).

(** Midnight of a calendar day, as [strptime] with a date-only format
    builds it. *)
Definition midnight (y m d : Z) : datetime := mkdt y m d 0 0 0 0.

(** Seconds since midnight. *)
Definition seconds_of_day (t : datetime) : Z :=
  second t + minute t * 60 + hour t * 3600.

(** Microseconds since the start of day 0, the scale on which two
    datetimes are subtracted. *)
Definition to_microseconds (t : datetime) : Z :=
  (toordinal t * 86400 + seconds_of_day t) * 1000000 + microsecond t.

(** [a < b] on naive datetimes: Python compares the seven fields
    lexicographically. *)
Definition datetime_lt (a b : datetime) : bool :=
  let lex (x y : Z) (rest : bool) : bool := (x <? y) || ((x =? y) && rest) in
  lex (year a) (year b)
   (lex (month a) (month b)
     (lex (day a) (day b)
       (lex (hour a) (hour b)
         (lex (minute a) (minute b)
           (lex (second a) (second b)
             (microsecond a <? microsecond b)))))).

(** The [timedelta] constructor on integer arguments: carries are
    propagated so that [0 <= seconds < 86400] and
    [0 <= microseconds < 10^6]. *)
Definition normalize_td (d s us : Z) : timedelta :=
  let s := s + us / 1000000 in
  let us := us mod 1000000 in
  let d := d + s / 86400 in
  let s := s mod 86400 in
  mktd d s us.

(** [timedelta(days=n)]; [None] is the [OverflowError] raised when the
    magnitude of [n] exceeds 999999999. *)
Definition timedelta_days (n : Z) : option timedelta :=
  if Z.abs n <=? 999999999 then Some (normalize_td n 0 0) else None.

(** [a - b] on datetimes.  Between two datetime objects the difference is
    below 3652059 days, so the magnitude check of the constructor cannot
    fail. *)
Definition datetime_sub (a b : datetime) : timedelta :=
  normalize_td (toordinal a - toordinal b)
               (seconds_of_day a - seconds_of_day b)
               (microsecond a - microsecond b).

(** [t + delta]; [None] is [OverflowError] (the sum leaves the years
    1..9999). *)
Definition datetime_add (t : datetime) (delta : timedelta) : option datetime :=
  let sum := normalize_td (toordinal t + td_days delta)
                          (seconds_of_day t + td_seconds delta)
                          (microsecond t + td_microseconds delta) in
  let h := td_seconds sum / 3600 in
  let rem := td_seconds sum mod 3600 in
  let mi := rem / 60 in
  let s := rem mod 60 in
  if (0 <? td_days sum) && (td_days sum <=? MAXORDINAL) then
    let '(y, m, d) := ord2ymd (td_days sum) in
    Some (mkdt y m d h mi s (td_microseconds sum))
  else None.

(** Decimal rendering of a field, zero padded. *)
Definition digit_char (n : Z) : ascii :=
  ascii_of_nat (48 + Z.to_nat (n mod 10)).

Definition pad2 (n : Z) : string :=
  String (digit_char (n / 10)) (String (digit_char n) EmptyString).

Definition pad4 (n : Z) : string :=
  String (digit_char (n / 1000)) (String (digit_char (n / 100)) (pad2 n)).

Definition pad6 (n : Z) : string :=
  String (digit_char (n / 100000)) (String (digit_char (n / 10000)) (pad4 n)).

(** [%Y] of the C library's [strftime], which CPython calls: the year in
    decimal with no padding, so a year below 1000 has fewer than four
    digits ([934], not [0934]).  The year of a [datetime] lies within
    1..9999. *)
Definition year_text (y : Z) : string :=
  if y <? 10 then String (digit_char y) EmptyString
  else if y <? 100 then pad2 y
  else if y <? 1000 then String (digit_char (y / 100)) (pad2 y)
  else pad4 y.

(** [t.strftime('%Y-%m-%d')]. *)
Definition strftime_Ymd (t : datetime) : string :=
  year_text (year t) +:+ "-" +:+ pad2 (month t) +:+ "-" +:+ pad2 (day t).

(** The text [YYYY-MM-DD] of a calendar day, the year on four digits: the
    form that [isoformat] and SQLite's [date] write. *)
Definition iso_date (y m d : Z) : string :=
  pad4 y +:+ "-" +:+ pad2 m +:+ "-" +:+ pad2 d.

(** [t.isoformat()], which pads the year to four digits whatever the
    platform; the fraction is printed only when it is not zero. *)
Definition isoformat (t : datetime) : string :=
  iso_date (year t) (month t) (day t)
    +:+ "T" +:+ pad2 (hour t) +:+ ":" +:+ pad2 (minute t)
    +:+ ":" +:+ pad2 (second t)
    +:+ (if microsecond t =? 0 then "" else "." +:+ pad6 (microsecond t)).

Definition digit_val (c : ascii) : option Z :=
  let n := nat_of_ascii c in
  if ((48 <=? n) && (n <=? 57))%nat then Some (Z.of_nat n - 48) else None.

(** [%Y] is the pattern [\d\d\d\d]. *)
Definition parse_year (a b c d : ascii) : option Z :=
  match digit_val a, digit_val b, digit_val c, digit_val d with
  | Some a, Some b, Some c, Some d => Some (a * 1000 + b * 100 + c * 10 + d)
  | _, _, _, _ => None
  end.

(** [%m] is the pattern [1[0-2]|0[1-9]|[1-9]], alternatives tried in this
    order; the rest of the text is returned. *)
Definition parse_month (s : string) : option (Z * string) :=
  let one :=
    match s with
    | String a rest =>
        match digit_val a with
        | Some a => if 1 <=? a then Some (a, rest) else None
        | None => None
        end
    | _ => None
    end in
  match s with
  | String a (String b rest) =>
      match digit_val a, digit_val b with
      | Some 1, Some b => if b <=? 2 then Some (10 + b, rest) else one
      | Some 0, Some b => if 1 <=? b then Some (b, rest) else one
      | _, _ => one
      end
  | _ => one
  end.

(** [%d] is the pattern [3[0-1]|[1-2]\d|0[1-9]|[1-9]| [1-9]]. *)
Definition parse_day (s : string) : option (Z * string) :=
  let one :=
    match s with
    | String a rest =>
        match digit_val a with
        | Some a => if 1 <=? a then Some (a, rest) else None
        | None =>
            if Ascii.eqb a " " then
              match rest with
              | String b rest' =>
                  match digit_val b with
                  | Some b => if 1 <=? b then Some (b, rest') else None
                  | None => None
                  end
              | _ => None
              end
            else None
        end
    | _ => None
    end in
  match s with
  | String a (String b rest) =>
      match digit_val a, digit_val b with
      | Some 3, Some b => if b <=? 1 then Some (30 + b, rest) else one
      | Some 0, Some b => if 1 <=? b then Some (b, rest) else one
      | Some 1, Some b => Some (10 + b, rest)
      | Some 2, Some b => Some (20 + b, rest)
      | _, _ => one
      end
  | _ => one
  end.

(** [datetime.strptime(s, '%Y-%m-%d')]; [None] is [ValueError] (no match,
    unconverted text left over, or a day that the month does not have). *)
Definition strptime_Ymd (s : string) : option datetime :=
  match s with
  | String y1 (String y2 (String y3 (String y4 (String sep1 rest)))) =>
      match parse_year y1 y2 y3 y4 with
      | Some y =>
          if Ascii.eqb sep1 "-" then
            match parse_month rest with
            | Some (m, String sep2 rest') =>
                if Ascii.eqb sep2 "-" then
                  match parse_day rest' with
                  | Some (d, EmptyString) =>
                      if valid_date y m d then Some (midnight y m d) else None
                  | _ => None
                  end
                else None
            | _ => None
            end
          else None
      | None => None
      end
  | _ => None
  end.

Global Arguments datetime_sub : simpl never.
Global Arguments datetime_add : simpl never.
Global Arguments datetime_lt : simpl never.
Global Arguments strftime_Ymd : simpl never.
Global Arguments strptime_Ymd : simpl never.
Global Arguments isoformat : simpl never.
Global Arguments to_microseconds : simpl never.

End Calendar.

Import Text Calendar.

(* ===================================================================== *)
(** ** Store: the two relations and the statements run on them *)
(* ===================================================================== *)

Module Store.

(** A row of [licenses]; the primary key [license_key] is the key of the
    map that holds the rows. *)
Record license : Type := mklicense {
  email : string;
  product : string;
  created_date : string;
  expiry_date : string;
  status : string;
  activations : Z;
  max_activations : Z;
  last_validated : option string;
  account_number : option string
}.

(** A row of [validation_logs]. *)
Record log_entry : Type := mklog {
  log_id : Z;
  license_key : string;
  timestamp : string;
  ip_address : option string;
  log_account_number : option string;
  result : string
}.

(** The database file: both relations and the AUTOINCREMENT counter of
    [validation_logs]. *)
Record database : Type := mkdb {
  licenses : gmap string license;
  validation_logs : list log_entry;
  log_seq : Z
}.

(** [init_db] on a fresh file: both tables exist and are empty. *)
Definition init_db : database := mkdb ∅ [] 0.

Definition set_licenses (f : gmap string license → gmap string license)
    (d : database) : database :=
  mkdb (f (licenses d)) (validation_logs d) (log_seq d).

(** [SELECT ... FROM licenses WHERE license_key = ?] followed by
    [fetchone()]. *)
Definition select_license (d : database) (k : string) : option license :=
  licenses d !! k.

(** [INSERT INTO validation_logs (license_key, timestamp, ip_address,
    result) VALUES (?, ?, ?, ?)]: the row is appended under the next id and
    its [account_number] column is left NULL. *)
Definition insert_log (d : database) (k ts : string) (ip : option string)
    (res : string) : database :=
  mkdb (licenses d)
       (validation_logs d ++ [mklog (log_seq d + 1) k ts ip None res])
       (log_seq d + 1).

Definition with_last_validated (ts : string) (l : license) : license :=
  mklicense (email l) (product l) (created_date l) (expiry_date l) (status l)
            (activations l) (max_activations l) (Some ts) (account_number l).

Definition with_activations (n : Z) (l : license) : license :=
  mklicense (email l) (product l) (created_date l) (expiry_date l) (status l)
            n (max_activations l) (last_validated l) (account_number l).

(** [UPDATE licenses SET last_validated = ? WHERE license_key = ?] *)
Definition update_last_validated (d : database) (ts k : string) : database :=
  set_licenses (alter (with_last_validated ts) k) d.

(** [UPDATE licenses SET activations = activations + 1 WHERE license_key = ?] *)
Definition update_activations (d : database) (k : string) : database :=
  set_licenses (alter (fun l => with_activations (activations l + 1) l) k) d.

(** An [int] parameter is bound only when it fits SQLite's signed 64-bit
    INTEGER. *)
Definition fits_int64 (n : Z) : bool :=
  (- 2 ^ 63 <=? n) && (n <? 2 ^ 63).

(** Why an INSERT into [licenses] is refused. *)
Inductive insert_error : Type := DuplicateKey | IntTooLarge.

(** [INSERT INTO licenses (license_key, email, product, created_date,
    expiry_date, status, activations, max_activations) VALUES (...)]: the
    two columns not listed are NULL; the PRIMARY KEY refuses a second row
    under the same key. *)
Definition insert_license (d : database) (k e p created expiry st : string)
    (act maxact : Z) : insert_error + database :=
  if negb (fits_int64 act && fits_int64 maxact) then inl IntTooLarge
  else
    match licenses d !! k with
    | Some _ => inl DuplicateKey
    | None =>
        inr (set_licenses
               (insert k (mklicense e p created expiry st act maxact None None)) d)
    end.

(** [SELECT COUNT( * ) FROM licenses WHERE ...] *)
Definition count_licenses (P : license → bool) (d : database) : Z :=
  Z.of_nat (List.length (filter (fun kv => P kv.2 = true) (map_to_list (licenses d)))).

(** [SELECT COUNT( * ) FROM validation_logs WHERE ...] *)
Definition count_logs (P : log_entry → bool) (d : database) : Z :=
  Z.of_nat (List.length (filter (fun e => P e = true) (validation_logs d))).

End Store.

Import Store.

(* ===================================================================== *)
(** ** Handlers: the world, the handler monad and the endpoints *)
(* ===================================================================== *)

Module Handlers.

(** *** JSON responses *)

Inductive json : Type :=
  | JNull
  | JBool (b : bool)
  | JInt (n : Z)
  | JStr (s : string).

(** What a view function returns: [jsonify({...}), code]. *)
Record response : Type := mkresp {
  status_code : Z;
  body : list (string * json)
}.

Definition jsonify (fields : list (string * json)) (code : Z) : response :=
  mkresp code fields.

(** The value under a key of the response body. *)
Fixpoint assoc (k : string) (fields : list (string * json)) : option json :=
  match fields with
  | [] => None
  | (k', v) :: rest => if String.eqb k k' then Some v else assoc k rest
  end.

Definition field (k : string) (r : response) : option json := assoc k (body r).

Definition json_of_option (o : option string) : json :=
  match o with Some s => JStr s | None => JNull end.

(** *** The world a request runs in *)

(** [db] is the committed content of [licenses.db]; [clock] and
    [utc_clock] are the successive readings of the local wall clock
    ([datetime.now()]) and of SQLite's UTC clock ([date('now')]), [ticks]
    counting the readings made so far; [entropy] holds the successive
    16-bit draws of [secrets.token_hex(2)], [draws] counting them;
    [environ] is [os.environ]. *)
Record world : Type := mkworld {
  db : database;
  clock : nat → datetime;
  utc_clock : nat → datetime;
  ticks : nat;
  entropy : nat → Z;
  draws : nat;
  environ : gmap string string
}.

Definition set_db (d : database) (w : world) : world :=
  mkworld d (clock w) (utc_clock w) (ticks w) (entropy w) (draws w) (environ w).

Definition tick (w : world) : world :=
  mkworld (db w) (clock w) (utc_clock w) (S (ticks w)) (entropy w) (draws w)
          (environ w).

Definition draw (w : world) : world :=
  mkworld (db w) (clock w) (utc_clock w) (ticks w) (entropy w) (S (draws w))
          (environ w).

(** *** The handler monad: world passing with Python exceptions *)

Inductive exn : Type := ValueError | IntegrityError | OverflowError.

Definition M (A : Type) : Type := world → (exn + A) * world.

#[global] Instance M_ret : MRet M := fun A a w => (inr a, w).

#[global] Instance M_bind : MBind M := fun A B f m w =>
  match m w with
  | (inl e, w') => (inl e, w')
  | (inr a, w') => f a w'
  end.

Definition raise {A : Type} (e : exn) : M A := fun w => (inl e, w).

(** [try: body  except Exception as e: return handler] *)
Definition try_except (body : M response) (handler : exn → response)
    (w : world) : response * world :=
  match body w with
  | (inr r, w') => (r, w')
  | (inl e, w') => (handler e, w')
  end.

(** [datetime.now()] *)
Definition now : M datetime := fun w => (inr (clock w (ticks w)), tick w).

(** SQLite's [date('now')]: the UTC calendar day. *)
Definition sql_date_now : M string :=
  fun w =>
    let t := utc_clock w (ticks w) in
    (inr (iso_date (year t) (month t) (day t)), tick w).

(** [conn = sqlite3.connect(DATABASE)]: the connection starts from the
    committed content; statements run on the connection and reach the file
    at [conn.commit()].  A connection that is closed or dropped without a
    commit leaves the file as it was. *)
Definition connect : M database := fun w => (inr (db w), w).

Definition commit (conn : database) : M unit := fun w => (inr tt, set_db conn w).

Definition getenv (k dflt : string) : M string :=
  fun w => (inr (default dflt (environ w !! k)), w).

(** [datetime.strptime(s, '%Y-%m-%d')] *)
Definition strptime (s : string) : M datetime :=
  match strptime_Ymd s with
  | Some t => mret t
  | None => raise ValueError
  end.

(** *** Key generator *)

Definition hex_char (n : Z) : ascii :=
  match n mod 16 with
  | 0 => "0" | 1 => "1" | 2 => "2" | 3 => "3" | 4 => "4" | 5 => "5"
  | 6 => "6" | 7 => "7" | 8 => "8" | 9 => "9" | 10 => "a" | 11 => "b"
  | 12 => "c" | 13 => "d" | 14 => "e" | _ => "f"
  end%char.

(** The hexadecimal text of two bytes. *)
Definition hex2 (v : Z) : string :=
  let v := v mod 65536 in
  String (hex_char (v / 4096)) (String (hex_char (v / 256))
    (String (hex_char (v / 16)) (String (hex_char v) EmptyString))).

(** [secrets.token_hex(2)] *)
Definition token_hex2 : M string :=
  fun w => (inr (hex2 (entropy w (draws w))), draw w).

(** The loop [for i in range(n): parts.append(token_hex(2).upper())]. *)
Fixpoint draw_parts (n : nat) (parts : list string) : M (list string) :=
  match n with
  | O => mret parts
  | S n' =>
      part ← token_hex2;
      draw_parts n' (parts ++ [upper part])
  end.

Definition generate_license_key : M string :=
  parts ← draw_parts 4 [];
  mret ("NGC-" +:+ String.concat "-" parts).

(** *** POST /validate *)

Record validate_request : Type := mkvalidate {
  vr_license_key : option string;
  vr_account_number : option string;
  vr_remote_addr : option string
}.

Definition validate_body (req : validate_request) : M response :=
  let license_key := upper (strip (default "" (vr_license_key req))) in
  let account_number := default "" (vr_account_number req) in
  let ip_address := vr_remote_addr req in
  if negb (truthy license_key) then
    mret (jsonify [("valid", JBool false);
                   ("message", JStr "License key is required")] 400)
  else
    conn ← connect;
    match select_license conn license_key with
    | None =>
        ts ← now;
        let conn := insert_log conn license_key (isoformat ts) ip_address
                               "NOT_FOUND" in
        _ ← commit conn;
        mret (jsonify [("valid", JBool false);
                       ("message", JStr "License key not found")] 200)
    | Some row =>
        expiry ← strptime (expiry_date row);
        t ← now;
        if datetime_lt expiry t then
          ts ← now;
          let conn := insert_log conn license_key (isoformat ts) ip_address
                                 "EXPIRED" in
          _ ← commit conn;
          mret (jsonify [("valid", JBool false);
                         ("message", JStr "License has expired");
                         ("expires", JStr (expiry_date row))] 200)
        else if negb (String.eqb (status row) "active") then
          ts ← now;
          let conn := insert_log conn license_key (isoformat ts) ip_address
                                 "INACTIVE" in
          _ ← commit conn;
          mret (jsonify [("valid", JBool false);
                         ("message",
                          JStr ("License status: " +:+ status row))] 200)
        else
          (* if activations >= max_activations: pass *)
          let _ := if max_activations row <=? activations row then tt else tt in
          ts ← now;
          let conn := update_last_validated conn (isoformat ts) license_key in
          ts ← now;
          let conn := insert_log conn license_key (isoformat ts) ip_address
                                 "SUCCESS" in
          _ ← commit conn;
          t ← now;
          mret (jsonify [("valid", JBool true);
                         ("expires", JStr (expiry_date row));
                         ("status", JStr (status row));
                         ("product", JStr (product row));
                         ("message", JStr "License valid");
                         ("days_remaining",
                          JInt (td_days (datetime_sub expiry t)))] 200)
    end.

Definition validate_license (req : validate_request) (w : world)
    : response * world :=
  try_except (validate_body req)
    (fun _ => jsonify [("valid", JBool false);
                       ("message", JStr "Server error during validation")] 500)
    w.

(** *** POST /activate *)

Record activate_request : Type := mkactivate {
  ar_license_key : option string;
  ar_account_number : option string
}.

Definition activate_body (req : activate_request) : M response :=
  let license_key := upper (strip (default "" (ar_license_key req))) in
  let account_number := default "" (ar_account_number req) in
  if negb (truthy license_key) then
    mret (jsonify [("success", JBool false);
                   ("message", JStr "License key is required")] 400)
  else
    conn ← connect;
    match select_license conn license_key with
    | None =>
        mret (jsonify [("success", JBool false);
                       ("message", JStr "License not found")] 200)
    | Some row =>
        if negb (String.eqb (status row) "active") then
          mret (jsonify [("success", JBool false);
                         ("message", JStr ("License is " +:+ status row))] 200)
        else if max_activations row <=? activations row then
          mret (jsonify [("success", JBool false);
                         ("message",
                          JStr ("Maximum activations ("
                                +:+ str_of_int (max_activations row)
                                +:+ ") reached"))] 200)
        else
          let conn := update_activations conn license_key in
          _ ← commit conn;
          mret (jsonify [("success", JBool true);
                         ("message", JStr "License activated successfully");
                         ("activations_used", JInt (activations row + 1));
                         ("activations_remaining",
                          JInt (max_activations row - (activations row + 1)))]
                        200)
    end.

Definition activate_license (req : activate_request) (w : world)
    : response * world :=
  try_except (activate_body req)
    (fun _ => jsonify [("success", JBool false);
                       ("message", JStr "Server error during activation")] 500)
    w.

(** *** POST /generate *)

Record generate_request : Type := mkgenerate {
  gr_api_key : option string;          (* header X-API-Key *)
  gr_email : option string;
  gr_product : option string;
  gr_duration_days : option Z;
  gr_max_activations : option Z
}.

(** [api_key != ADMIN_API_KEY], where [api_key] is [None] when the header
    is absent. *)
Definition key_mismatch (api_key : option string) (admin_key : string) : bool :=
  match api_key with
  | Some k => negb (String.eqb k admin_key)
  | None => true
  end.

Definition or_raise {A : Type} (e : exn) (o : option A) : M A :=
  match o with Some a => mret a | None => raise e end.

(** [c.execute('INSERT INTO licenses ...')] *)
Definition execute_insert_license (conn : database)
    (k e p created expiry st : string) (act maxact : Z) : M database :=
  match insert_license conn k e p created expiry st act maxact with
  | inr conn' => mret conn'
  | inl DuplicateKey => raise IntegrityError
  | inl IntTooLarge => raise OverflowError
  end.

Definition generate_body (req : generate_request) : M response :=
  let api_key := gr_api_key req in
  ADMIN_API_KEY ← getenv "ADMIN_API_KEY" "change-me-in-production";
  if key_mismatch api_key ADMIN_API_KEY then
    mret (jsonify [("success", JBool false);
                   ("message", JStr "Unauthorized")] 401)
  else
    let email := strip (default "" (gr_email req)) in
    let product := default "NGC_EA" (gr_product req) in
    let duration_days := default 365 (gr_duration_days req) in
    let max_activations := default 1 (gr_max_activations req) in
    if negb (truthy email) then
      mret (jsonify [("success", JBool false);
                     ("message", JStr "Email is required")] 400)
    else
      license_key ← generate_license_key;
      t ← now;
      let created_date := strftime_Ymd t in
      t ← now;
      delta ← or_raise OverflowError (timedelta_days duration_days);
      expiry ← or_raise OverflowError (datetime_add t delta);
      let expiry_date := strftime_Ymd expiry in
      conn ← connect;
      conn ← execute_insert_license conn license_key email product
                created_date expiry_date "active" 0 max_activations;
      _ ← commit conn;
      mret (jsonify [("success", JBool true);
                     ("license_key", JStr license_key);
                     ("email", JStr email);
                     ("product", JStr product);
                     ("created", JStr created_date);
                     ("expires", JStr expiry_date);
                     ("max_activations", JInt max_activations)] 200).

Definition generate_license (req : generate_request) (w : world)
    : response * world :=
  try_except (generate_body req)
    (fun _ => jsonify [("success", JBool false);
                       ("message", JStr "Server error during generation")] 500)
    w.

(** *** GET /check/<license_key> *)

Definition check_body (license_key : string) : M response :=
  let license_key := upper (strip license_key) in
  conn ← connect;
  match select_license conn license_key with
  | None =>
      mret (jsonify [("found", JBool false);
                     ("message", JStr "License not found")] 200)
  | Some row =>
      expiry_dt ← strptime (expiry_date row);
      t ← now;
      let is_expired := datetime_lt expiry_dt t in
      t ← now;
      let days_remaining := td_days (datetime_sub expiry_dt t) in
      mret (jsonify [("found", JBool true);
                     ("license_key", JStr license_key);
                     ("email", JStr (email row));
                     ("product", JStr (product row));
                     ("created", JStr (created_date row));
                     ("expires", JStr (expiry_date row));
                     ("status",
                      JStr (if is_expired then "expired" else status row));
                     ("activations", JInt (activations row));
                     ("max_activations", JInt (max_activations row));
                     ("days_remaining", JInt (Z.max 0 days_remaining));
                     ("last_validated",
                      json_of_option (last_validated row))] 200)
  end.

Definition check_license (license_key : string) (w : world)
    : response * world :=
  try_except (check_body license_key)
    (fun _ => jsonify [("found", JBool false);
                       ("message", JStr "Error checking license")] 500)
    w.

(** *** GET /stats *)

Definition stats_body (api_key : option string) : M response :=
  ADMIN_API_KEY ← getenv "ADMIN_API_KEY" "change-me-in-production";
  if key_mismatch api_key ADMIN_API_KEY then
    mret (jsonify [("error", JStr "Unauthorized")] 401)
  else
    conn ← connect;
    let total_licenses := count_licenses (fun _ => true) conn in
    let active_licenses :=
      count_licenses (fun l => String.eqb (status l) "active") conn in
    day ← sql_date_now;
    let expired_licenses :=
      count_licenses (fun l => String.ltb (expiry_date l) day) conn in
    t ← now;
    let today := strftime_Ymd t in
    let validations_today :=
      count_logs (fun e => String.prefix today (timestamp e)) conn in
    mret (jsonify [("total_licenses", JInt total_licenses);
                   ("active_licenses", JInt active_licenses);
                   ("expired_licenses", JInt expired_licenses);
                   ("validations_today", JInt validations_today)] 200).

Definition get_stats (api_key : option string) (w : world)
    : response * world :=
  try_except (stats_body api_key)
    (fun _ => jsonify [("error", JStr "Server error")] 500)
    w.

(** A run of [/activate] calls, one after the other. *)
Fixpoint activate_all (reqs : list activate_request) (w : world) : world :=
  match reqs with
  | [] => w
  | r :: rest => activate_all rest (activate_license r w).2
  end.

End Handlers.

Import Handlers.

(* ===================================================================== *)
(** ** Vocabulary of the statements *)
(* ===================================================================== *)

(** The key a handler looks up: the presented text, trimmed and
    uppercased; an absent field counts as the empty text. *)
Definition normalized (raw : option string) : string :=
  upper (strip (default "" raw)).

(** The activation ceiling, over every row of [licenses]. *)
Definition ceiling_ok (d : database) : Prop :=
  ∀ k row, licenses d !! k = Some row → activations row ≤ max_activations row.

(** Every stored [expiry_date] is a calendar date in the form
    [YYYY-MM-DD], as [/generate] writes it. *)
Definition dates_ok (d : database) : Prop :=
  ∀ k row, licenses d !! k = Some row → is_Some (strptime_Ymd (expiry_date row)).

(** Whole days in a span of microseconds, rounded down and rounded up. *)
Definition floor_days (us : Z) : Z := us / US_PER_DAY.
Definition ceil_days (us : Z) : Z := - ((- us) / US_PER_DAY).

(** The placeholder that stands for the admin secret when the environment
    does not set [ADMIN_API_KEY]. *)
Definition PLACEHOLDER : string := "change-me-in-production".

(** The key that [generate_license_key] builds from four 16-bit draws. *)
Definition key_of_draws (v0 v1 v2 v3 : Z) : string :=
  "NGC-" +:+ upper (hex2 v0) +:+ "-" +:+ upper (hex2 v1) +:+ "-"
         +:+ upper (hex2 v2) +:+ "-" +:+ upper (hex2 v3).

(** The key that the next [/generate] call draws in world [w]. *)
Definition next_key (w : world) : string :=
  key_of_draws (entropy w (draws w)) (entropy w (S (draws w)))
               (entropy w (S (S (draws w)))) (entropy w (S (S (S (draws w))))).

(** The calendar day [n] days after [t], at the same time of day. *)
Definition plus_days (t : datetime) (n : Z) : datetime :=
  let '(y, m, d) := ord2ymd (toordinal t + n) in
  mkdt y m d (hour t) (minute t) (second t) (microsecond t).

(** Bounded search over an interval of integers. *)
Fixpoint all_from (f : Z → bool) (lo : Z) (n : nat) : bool :=
  match n with
  | O => true
  | S n' => f lo && all_from f (lo + 1) n'
  end.

(** What [/generate] answers when its body raises. *)
Definition server_error_generate : response :=
  jsonify [("success", JBool false);
           ("message", JStr "Server error during generation")] 500.

(** *** Vocabulary of the calendar facts *)

(** The month and day that [ord2ymd] derives from a zero-based day of the
    year. *)
Definition month_day (n : Z) (leapyear : bool) : Z * Z :=
  let m := Z.shiftr (n + 50) 5 in
  let preceding :=
    DAYS_BEFORE_MONTH m + (if (2 <? m) && leapyear then 1 else 0) in
  if n <? preceding then
    let m := m - 1 in
    let preceding :=
      preceding - (DAYS_IN_MONTH m + (if (m =? 2) && leapyear then 1 else 0)) in
    (m, n - preceding + 1)
  else (m, n - preceding + 1).

(** The zero-based day of the year of a date, the leap flag given. *)
Definition day_of_year (leapyear : bool) (m d : Z) : Z :=
  DAYS_BEFORE_MONTH m + (if (2 <? m) && leapyear then 1 else 0) + d - 1.

Definition month_length (leapyear : bool) (m : Z) : Z :=
  if (m =? 2) && leapyear then 29 else DAYS_IN_MONTH m.

Definition month_day_ok (leapyear : bool) (m : Z) : bool :=
  all_from (fun d =>
    negb (d <=? month_length leapyear m) ||
    let n := day_of_year leapyear m d in
    (0 <=? n) && (n <=? (if leapyear then 365 else 364)) &&
    ((364 <? n) ||
     match month_day n leapyear with
     | (m', d') => (m' =? m) && (d' =? d)
     end)) 1 31.

Definition parse_day_ok (d : Z) : bool :=
  match parse_day (pad2 d) with
  | Some (d', EmptyString) => d' =? d
  | _ => false
  end.

(** Day [n] of a year falls on a day that its month has. *)
Definition month_day_valid (leapyear : bool) (n : Z) : bool :=
  match month_day n leapyear with
  | (m, d) => (1 <=? m) && (m <=? 12) && (1 <=? d) && (d <=? month_length leapyear m)
  end.

(** A text made only of characters that satisfy [P]. *)
Fixpoint all_chars (P : ascii → bool) (s : string) : bool :=
  match s with
  | EmptyString => true
  | String c s' => P c && all_chars P s'
  end.

(** A character that [strip] and [upper] leave in place. *)
Definition stable_char (c : ascii) : bool :=
  negb (is_space c) && Ascii.eqb (upper_char c) c.

(** *** Runs of requests *)

(** A request to one of the five endpoints. *)
Inductive request : Type :=
  | Validate (req : validate_request)
  | Activate (req : activate_request)
  | Generate (req : generate_request)
  | Check (license_key : string)
  | Stats (api_key : option string).

Definition handle (r : request) (w : world) : response * world :=
  match r with
  | Validate req => validate_license req w
  | Activate req => activate_license req w
  | Generate req => generate_license req w
  | Check key => check_license key w
  | Stats api_key => get_stats api_key w
  end.

(** The world after the requests are served one after the other. *)
Fixpoint serve (rs : list request) (w : world) : world :=
  match rs with
  | [] => w
  | r :: rest => serve rest (handle r w).2
  end.

(** No [/generate] request of the run asks for a negative ceiling. *)
Definition ceilings_nonneg (rs : list request) : Prop :=
  ∀ req, In (Generate req) rs → 0 ≤ default 1 (gr_max_activations req).

(** *** Vocabulary of the further properties *)

(** An uppercase hexadecimal digit. *)
Definition is_upper_hex (c : ascii) : bool :=
  let n := nat_of_ascii c in
  (((48 <=? n) && (n <=? 57)) || ((65 <=? n) && (n <=? 70)))%nat.

(** Four uppercase hexadecimal digits at the head of a text; the rest of
    the text is returned. *)
Definition hex_group (s : string) : option string :=
  match s with
  | String a (String b (String c (String d rest))) =>
      if is_upper_hex a && is_upper_hex b && is_upper_hex c && is_upper_hex d
      then Some rest else None
  | _ => None
  end.

(** A group followed by a dash. *)
Definition hex_group_dash (s : string) : option string :=
  match hex_group s with
  | Some (String "-" rest) => Some rest
  | _ => None
  end.

(** The shape [NGC-XXXX-XXXX-XXXX-XXXX] that the comment of
    [generate_license_key] gives. *)
Definition key_format_ok (s : string) : bool :=
  match s with
  | String "N" (String "G" (String "C" (String "-" r0))) =>
      match hex_group_dash r0 with
      | Some r1 =>
          match hex_group_dash r1 with
          | Some r2 =>
              match hex_group_dash r2 with
              | Some r3 =>
                  match hex_group r3 with
                  | Some EmptyString => true
                  | _ => false
                  end
              | None => false
              end
          | None => false
          end
      | None => false
      end
  | _ => false
  end.

(** [b] is [a] as a later state of the same license: everything but the
    activation count and the validation stamp is the same, and the count
    has not gone down. *)
Definition same_license (a b : license) : Prop :=
  email b = email a ∧ product b = product a ∧
  created_date b = created_date a ∧ expiry_date b = expiry_date a ∧
  status b = status a ∧ max_activations b = max_activations a ∧
  account_number b = account_number a ∧
  activations a ≤ activations b.

(** The ids [first], [first + 1], ... of [n] consecutive log rows. *)
Fixpoint ids_from (first : Z) (n : nat) : list Z :=
  match n with
  | O => []
  | S n' => first :: ids_from (first + 1) n'
  end.

(** The configured admin secret. *)
Definition admin_secret (w : world) : string :=
  default PLACEHOLDER (environ w !! "ADMIN_API_KEY"%string).

(** The value of a hexadecimal digit. *)
Definition hex_val (c : ascii) : Z :=
  let n := Z.of_nat (nat_of_ascii c) in
  if (48 <=? n) && (n <=? 57) then n - 48
  else if (65 <=? n) && (n <=? 70) then n - 55
  else if (97 <=? n) && (n <=? 102) then n - 87
  else 0.

(** What [lstrip] returns does not start with white space. *)
Definition starts_clean (s : string) : bool :=
  match s with
  | EmptyString => true
  | String c _ => negb (is_space c)
  end.

(** The log of [d'] is the log of [d] followed by the rows [new], numbered
    from the next id on. *)
Definition log_extends (d d' : database) (new : list log_entry) : Prop :=
  validation_logs d' = validation_logs d ++ new ∧
  log_seq d' = log_seq d + Z.of_nat (List.length new) ∧
  log_id <$> new = ids_from (log_seq d + 1) (List.length new).

(** The number of [/validate] requests in a run. *)
Fixpoint validations (rs : list request) : nat :=
  match rs with
  | [] => 0
  | Validate _ :: rest => S (validations rest)
  | _ :: rest => validations rest
  end.

(** The months of a year follow one another: a month ends before a later
    one starts. *)
Definition month_order_ok (leapyear : bool) (m : Z) : bool :=
  all_from (fun m' =>
    negb (m <? m') ||
    (day_of_year leapyear m (month_length leapyear m) <? day_of_year leapyear m' 1))
    1 12 &&
  (day_of_year leapyear m (month_length leapyear m)
     <=? (if leapyear then 365 else 364)) &&
  (0 <=? day_of_year leapyear m 1).

(** [month_day] is the inverse of [day_of_year]. *)
Definition day_of_year_ok (leapyear : bool) (n : Z) : bool :=
  match month_day n leapyear with
  | (m, d) => day_of_year leapyear m d =? n
  end.

(** Exactly midnight. *)
Definition at_midnight (t : datetime) : bool :=
  (seconds_of_day t =? 0) && (microsecond t =? 0).

(** A row as [/generate] stores it and the other endpoints keep it. *)
Definition issued_row (k : string) (row : license) : Prop :=
  key_format_ok k = true ∧ status row = "active"%string ∧
  account_number row = None ∧ 0 ≤ activations row.

(** A log row as [/validate] writes it for an active license. *)
Definition plain_entry (e : log_entry) : Prop :=
  log_account_number e = None ∧ license_key e ≠ EmptyString ∧
  (result e = "NOT_FOUND"%string ∨ result e = "EXPIRED"%string ∨
   result e = "SUCCESS"%string).

(** *** Sample data for the concrete instances *)

Module Samples.

Definition KEY : string := "NGC-0000-0000-0000-0000".

Definition sample_license (st : string) (act maxact : Z) : license :=
  mklicense "trader@example.com" "NGC_EA" "2030-01-01" "2030-01-10" st
            act maxact None None.

(** A world holding one license under [KEY], with a clock that always
    reads [t], a random source that returns [rnd n] at draw [n] and an
    environment [env]. *)
Definition sample_world (l : license) (t : datetime) (rnd : nat → Z)
    (env : gmap string string) : world :=
  mkworld (mkdb {[ KEY := l ]} [] 0) (fun _ => t) (fun _ => t) 0%nat rnd 0%nat env.

Definition noon_jan8 : datetime := mkdt 2030 1 8 12 0 0 0.
Definition noon_jan20 : datetime := mkdt 2030 1 20 12 0 0 0.

Definition zeros : nat → Z := fun _ => 0.

(** A clock that starts at noon on 8 January 2030 and reads one second
    later at every reading. *)
Definition ticking : nat → datetime :=
  fun n => mkdt 2030 1 8 12 0 (Z.of_nat n) 0.

(** An empty database under the ticking clock. *)
Definition fresh_world : world :=
  mkworld init_db ticking ticking 0%nat (fun n => 43981 + Z.of_nat n) 0%nat ∅.

(** Draws that build a key other than [KEY]. *)
Definition fresh : nat → Z := fun n => 43981 + Z.of_nat n.

(** Four zero draws, then fresh values. *)
Definition zeros_then_fresh : nat → Z :=
  fun n => if (n <? 4)%nat then 0 else 43981 + Z.of_nat n.

Definition validate_key : validate_request :=
  mkvalidate (Some " ngc-0000-0000-0000-0000 ") (Some "12345678") (Some "10.0.0.7").

Definition activate_key : activate_request :=
  mkactivate (Some "ngc-0000-0000-0000-0000") (Some "12345678").

Definition generate_with (api_key : option string) (days : Z) : generate_request :=
  mkgenerate api_key (Some "buyer@example.com") None (Some days) None.

End Samples.

Import Samples.

(* ===================================================================== *)
(** ** Proof support *)
(* ===================================================================== *)

(** Unfolds a handler down to the world it returns. *)
Ltac run_handler :=
  unfold validate_license, activate_license, generate_license, check_license,
    get_stats, validate_body, activate_body, generate_body, check_body,
    stats_body, generate_license_key, try_except, strptime, or_raise,
    execute_insert_license, mbind, M_bind, mret, M_ret, raise, connect,
    commit, now, getenv, sql_date_now, select_license, normalized in *;
  simpl in *.

(** Splits on every branch the handler takes. *)
Ltac branches := repeat case_match; simplify_eq/=.

Lemma truthy_false (s : string) : truthy s = false ↔ s = EmptyString.
Proof. destruct s; simpl; split; intros; congruence. Qed.

Lemma truthy_true (s : string) : s ≠ EmptyString → truthy s = true.
Proof. by destruct s. Qed.

Lemma all_from_spec (f : Z → bool) (n : nat) : ∀ lo z,
  all_from f lo n = true → lo ≤ z < lo + Z.of_nat n → f z = true.
Proof.
  induction n as [|n IH]; intros lo z H Hz; [lia|].
  simpl in H. apply andb_true_iff in H as [H0 H1].
  destruct (Z.eq_dec z lo) as [->|Hne]; [done|].
  apply (IH (lo + 1)); [done | lia].
Qed.

(** *** Checks of the embedding on concrete inputs *)

Example strip_upper_ex : upper (strip "  ngc-00ff-1a2b  ") = "NGC-00FF-1A2B"%string.
Proof. reflexivity. Qed.

Example ord2ymd_ex : ord2ymd (ymd2ord 2024 2 29) = (2024, 2, 29).
Proof. reflexivity. Qed.

Example strptime_ex :
  strptime_Ymd (strftime_Ymd (mkdt 2025 3 9 13 5 0 7)) = Some (midnight 2025 3 9).
Proof. reflexivity. Qed.

Example strptime_bad : strptime_Ymd "2025-02-30" = None.
Proof. reflexivity. Qed.

Example isoformat_ex :
  isoformat (mkdt 2025 3 9 13 5 0 7) = "2025-03-09T13:05:00.000007"%string.
Proof. reflexivity. Qed.

(* ===================================================================== *)
(** ** The branches of [/activate] *)
(* ===================================================================== *)

Section ActivateBranches.

Variables (req : activate_request) (w : world).
Let k : string := normalized (ar_license_key req).

Lemma activate_missing_key :
  k = EmptyString →
  activate_license req w =
    (jsonify [("success", JBool false);
              ("message", JStr "License key is required")] 400, w).
Proof. subst k. intros Hk. run_handler. by rewrite Hk. Qed.

Lemma activate_not_found :
  k ≠ EmptyString → licenses (db w) !! k = None →
  activate_license req w =
    (jsonify [("success", JBool false);
              ("message", JStr "License not found")] 200, w).
Proof.
  subst k. intros Hk Hrow. apply truthy_true in Hk.
  run_handler. rewrite Hk; simpl. by rewrite Hrow.
Qed.

Lemma activate_inactive (row : license) :
  k ≠ EmptyString → licenses (db w) !! k = Some row →
  status row ≠ "active"%string →
  activate_license req w =
    (jsonify [("success", JBool false);
              ("message", JStr ("License is " +:+ status row))] 200, w).
Proof.
  subst k. intros Hk Hrow Hst. apply truthy_true in Hk.
  apply String.eqb_neq in Hst.
  run_handler. rewrite Hk; simpl. rewrite Hrow; simpl. by rewrite Hst.
Qed.

Lemma activate_at_ceiling (row : license) :
  k ≠ EmptyString → licenses (db w) !! k = Some row →
  status row = "active"%string →
  max_activations row ≤ activations row →
  activate_license req w =
    (jsonify [("success", JBool false);
              ("message",
               JStr ("Maximum activations ("
                     +:+ str_of_int (max_activations row)
                     +:+ ") reached"))] 200, w).
Proof.
  subst k. intros Hk Hrow Hst Hmax. apply truthy_true in Hk.
  apply String.eqb_eq in Hst. apply Z.leb_le in Hmax.
  run_handler. rewrite Hk; simpl. rewrite Hrow; simpl. rewrite Hst; simpl. by rewrite Hmax.
Qed.

Lemma activate_below_ceiling (row : license) :
  k ≠ EmptyString → licenses (db w) !! k = Some row →
  status row = "active"%string →
  activations row < max_activations row →
  activate_license req w =
    (jsonify [("success", JBool true);
              ("message", JStr "License activated successfully");
              ("activations_used", JInt (activations row + 1));
              ("activations_remaining",
               JInt (max_activations row - (activations row + 1)))] 200,
     set_db (update_activations (db w) k) w).
Proof.
  subst k. intros Hk Hrow Hst Hmax. apply truthy_true in Hk.
  apply String.eqb_eq in Hst. apply Z.leb_gt in Hmax.
  run_handler. rewrite Hk; simpl. rewrite Hrow; simpl. rewrite Hst; simpl. by rewrite Hmax.
Qed.

(** Whatever the branch, the call leaves the database as it was or bumps
    the counter of the requested row, the latter only from a count read
    strictly below the ceiling. *)
Lemma activate_db :
  db (activate_license req w).2 = db w ∨
  ∃ row, k ≠ EmptyString ∧ licenses (db w) !! k = Some row ∧
         status row = "active"%string ∧
         activations row < max_activations row ∧
         db (activate_license req w).2 = update_activations (db w) k.
Proof.
  destruct (decide (k = EmptyString)) as [Hk|Hk];
    [rewrite activate_missing_key by done; by left|].
  destruct (licenses (db w) !! k) as [row|] eqn:Hrow;
    [|rewrite activate_not_found by done; by left].
  destruct (decide (status row = "active"%string)) as [Hst|Hst];
    [|rewrite (activate_inactive row) by done; by left].
  destruct (Z.le_gt_cases (max_activations row) (activations row)) as [Hmax|Hmax];
    [rewrite (activate_at_ceiling row) by done; by left|].
  right. exists row. by rewrite (activate_below_ceiling row).
Qed.

End ActivateBranches.

(** A stored row survives an [/activate] call, unchanged or with its
    counter one higher; the counter moves only from below the ceiling. *)
Lemma activate_row req w k row :
  licenses (db w) !! k = Some row →
  licenses (db (activate_license req w).2) !! k = Some row ∨
  (activations row < max_activations row ∧
   licenses (db (activate_license req w).2) !! k
     = Some (with_activations (activations row + 1) row)).
Proof.
  intros Hk.
  destruct (activate_db req w) as [->|(row' & _ & Hrow' & _ & Hlt & ->)]; [by left|].
  simpl. rewrite lookup_alter. case_decide as Hkk; [|by left].
  subst k. rewrite Hrow' in *. simplify_eq/=. by right.
Qed.

Lemma activate_row_none req w k :
  licenses (db w) !! k = None →
  licenses (db (activate_license req w).2) !! k = None.
Proof.
  intros Hk.
  destruct (activate_db req w) as [->|(row' & _ & Hrow' & _ & Hlt & ->)]; [done|].
  simpl. rewrite lookup_alter. case_decide as Hkk; [|done].
  subst k. by rewrite Hrow' in Hk.
Qed.

Lemma activate_all_ceiling reqs : ∀ w,
  ceiling_ok (db w) → ceiling_ok (db (activate_all reqs w)).
Proof.
  induction reqs as [|r reqs IH]; intros w Hw; [done|].
  simpl. apply IH. intros k row' Hk.
  destruct (licenses (db w) !! k) as [row|] eqn:Hrow.
  - destruct (activate_row r w k row Hrow) as [H|[Hlt H]];
      rewrite H in Hk; simplify_eq/=; [by eapply Hw | lia].
  - by rewrite activate_row_none in Hk.
Qed.

(* ===================================================================== *)
(** ** The branches of [/validate] *)
(* ===================================================================== *)

Section ValidateBranches.

Variables (req : validate_request) (w : world).
Let k : string := normalized (vr_license_key req).
Let ip : option string := vr_remote_addr req.
(** The successive readings of the clock during the call. *)
Let t0 : datetime := clock w (ticks w).
Let t1 : datetime := clock w (S (ticks w)).
Let t2 : datetime := clock w (S (S (ticks w))).
Let t3 : datetime := clock w (S (S (S (ticks w)))).

Lemma validate_missing_key :
  k = EmptyString →
  validate_license req w =
    (jsonify [("valid", JBool false);
              ("message", JStr "License key is required")] 400, w).
Proof. subst k. intros Hk. run_handler. by rewrite Hk. Qed.

Lemma validate_not_found :
  k ≠ EmptyString → licenses (db w) !! k = None →
  validate_license req w =
    (jsonify [("valid", JBool false);
              ("message", JStr "License key not found")] 200,
     set_db (insert_log (db w) k (isoformat t0) ip "NOT_FOUND") (tick w)).
Proof.
  subst k. intros Hk Hrow. apply truthy_true in Hk.
  run_handler. rewrite Hk; simpl. by rewrite Hrow.
Qed.

Lemma validate_bad_date (row : license) :
  k ≠ EmptyString → licenses (db w) !! k = Some row →
  strptime_Ymd (expiry_date row) = None →
  validate_license req w =
    (jsonify [("valid", JBool false);
              ("message", JStr "Server error during validation")] 500, w).
Proof.
  subst k. intros Hk Hrow He. apply truthy_true in Hk.
  run_handler. rewrite Hk; simpl. rewrite Hrow; simpl. by rewrite He.
Qed.

Lemma validate_expired (row : license) (expiry : datetime) :
  k ≠ EmptyString → licenses (db w) !! k = Some row →
  strptime_Ymd (expiry_date row) = Some expiry →
  datetime_lt expiry t0 = true →
  validate_license req w =
    (jsonify [("valid", JBool false);
              ("message", JStr "License has expired");
              ("expires", JStr (expiry_date row))] 200,
     set_db (insert_log (db w) k (isoformat t1) ip "EXPIRED") (tick (tick w))).
Proof.
  subst k t0. intros Hk Hrow He Hlt. apply truthy_true in Hk.
  run_handler. rewrite Hk; simpl. rewrite Hrow; simpl. rewrite He; simpl.
  by rewrite Hlt.
Qed.

Lemma validate_inactive (row : license) (expiry : datetime) :
  k ≠ EmptyString → licenses (db w) !! k = Some row →
  strptime_Ymd (expiry_date row) = Some expiry →
  datetime_lt expiry t0 = false →
  status row ≠ "active"%string →
  validate_license req w =
    (jsonify [("valid", JBool false);
              ("message", JStr ("License status: " +:+ status row))] 200,
     set_db (insert_log (db w) k (isoformat t1) ip "INACTIVE") (tick (tick w))).
Proof.
  subst k t0. intros Hk Hrow He Hlt Hst. apply truthy_true in Hk.
  apply String.eqb_neq in Hst.
  run_handler. rewrite Hk; simpl. rewrite Hrow; simpl. rewrite He; simpl.
  rewrite Hlt; simpl. by rewrite Hst.
Qed.

Lemma validate_success (row : license) (expiry : datetime) :
  k ≠ EmptyString → licenses (db w) !! k = Some row →
  strptime_Ymd (expiry_date row) = Some expiry →
  datetime_lt expiry t0 = false →
  status row = "active"%string →
  validate_license req w =
    (jsonify [("valid", JBool true);
              ("expires", JStr (expiry_date row));
              ("status", JStr (status row));
              ("product", JStr (product row));
              ("message", JStr "License valid");
              ("days_remaining", JInt (td_days (datetime_sub expiry t3)))] 200,
     tick (set_db (insert_log (update_last_validated (db w) (isoformat t1) k)
                              k (isoformat t2) ip "SUCCESS")
                  (tick (tick (tick w))))).
Proof.
  subst k t0. intros Hk Hrow He Hlt Hst. apply truthy_true in Hk.
  apply String.eqb_eq in Hst.
  run_handler. rewrite Hk; simpl. rewrite Hrow; simpl. rewrite He; simpl.
  rewrite Hlt; simpl. by rewrite Hst.
Qed.

End ValidateBranches.

(* ===================================================================== *)
(** ** Validation *)
(* ===================================================================== *)

(** C2.  A license that the lookup finds, whose status is [active] and
    whose expiry date is not before the clock reading, validates with
    [valid: true] whatever its activation count is, at or above the
    ceiling included: the call only stamps [last_validated] on the row. *)
Theorem validate_ignores_ceiling (req : validate_request) (w : world)
    (row : license) (expiry : datetime) :
  normalized (vr_license_key req) ≠ EmptyString →
  licenses (db w) !! normalized (vr_license_key req) = Some row →
  status row = "active"%string →
  strptime_Ymd (expiry_date row) = Some expiry →
  datetime_lt expiry (clock w (ticks w)) = false →
  status_code (validate_license req w).1 = 200 ∧
  field "valid" (validate_license req w).1 = Some (JBool true) ∧
  ∃ ts, licenses (db (validate_license req w).2) !! normalized (vr_license_key req)
          = Some (with_last_validated ts row).
Proof.
  intros Hk Hrow Hst He Hlt.
  rewrite (validate_success req w row expiry) by done. simpl.
  repeat split. eexists. by rewrite lookup_alter_eq, Hrow.
Qed.

Lemma validate_ignores_ceiling_witness :
  let w := sample_world (sample_license "active" 5 1) noon_jan8 zeros ∅ in
  max_activations (sample_license "active" 5 1)
    ≤ activations (sample_license "active" 5 1) ∧
  field "valid" (validate_license validate_key w).1 = Some (JBool true).
Proof.
  intros w. split; [simpl; lia|].
  refine (proj1 (proj2 (validate_ignores_ceiling validate_key w
            (sample_license "active" 5 1) (midnight 2030 1 10) _ _ _ _ _)));
    vm_compute; congruence.
Defined.

(** The [days] of a difference of datetimes is the difference of their
    positions on the microsecond scale, in whole days, rounded down. *)
Lemma datetime_sub_days (a b : datetime) :
  td_days (datetime_sub a b)
    = floor_days (to_microseconds a - to_microseconds b).
Proof.
  unfold datetime_sub, normalize_td, floor_days, to_microseconds, US_PER_DAY.
  simpl.
  set (d := toordinal a - toordinal b).
  set (s := seconds_of_day a - seconds_of_day b).
  set (us := microsecond a - microsecond b).
  replace ((toordinal a * 86400 + seconds_of_day a) * 1000000 + microsecond a
           - ((toordinal b * 86400 + seconds_of_day b) * 1000000 + microsecond b))
    with ((d * 86400 + s) * 1000000 + us) by (subst d s us; lia).
  change 86400000000 with (1000000 * 86400).
  rewrite <- Z.div_div by lia.
  rewrite Z.div_add_l by lia.
  rewrite <- Z.add_assoc, Z.div_add_l by lia.
  reflexivity.
Qed.

(** C6, as the code has it.  On a successful validation the response
    carries [valid: true], the stored status, product and expiry date, and
    [days_remaining] is the span from the clock reading taken for the
    response to midnight of the expiry date, in whole days rounded down. *)
Theorem days_remaining_rounds_down (req : validate_request) (w : world)
    (row : license) (expiry : datetime) :
  normalized (vr_license_key req) ≠ EmptyString →
  licenses (db w) !! normalized (vr_license_key req) = Some row →
  status row = "active"%string →
  strptime_Ymd (expiry_date row) = Some expiry →
  datetime_lt expiry (clock w (ticks w)) = false →
  let r := (validate_license req w).1 in
  let t := clock w (S (S (S (ticks w)))) in
  field "valid" r = Some (JBool true) ∧
  field "status" r = Some (JStr (status row)) ∧
  field "product" r = Some (JStr (product row)) ∧
  field "expires" r = Some (JStr (expiry_date row)) ∧
  field "days_remaining" r
    = Some (JInt (floor_days (to_microseconds expiry - to_microseconds t))).
Proof.
  intros Hk Hrow Hst He Hlt r t. subst r t.
  rewrite (validate_success req w row expiry) by done.
  rewrite <- datetime_sub_days. repeat split.
Qed.

Lemma days_remaining_rounds_down_witness :
  let w := sample_world (sample_license "active" 0 1) noon_jan8 zeros ∅ in
  field "days_remaining" (validate_license validate_key w).1
    = Some (JInt (floor_days (to_microseconds (midnight 2030 1 10)
                              - to_microseconds noon_jan8))).
Proof.
  intros w.
  refine (proj2 (proj2 (proj2 (proj2 (days_remaining_rounds_down validate_key w
            (sample_license "active" 0 1) (midnight 2030 1 10) _ _ _ _ _)))));
    vm_compute; congruence.
Defined.

(** C6, as the specification words it, fails: a day and a half before the
    expiry date the response says 1 day remains, where rounding up gives 2. *)
Lemma days_remaining_not_rounded_up :
  let w := sample_world (sample_license "active" 0 1) noon_jan8 zeros ∅ in
  let r := (validate_license validate_key w).1 in
  let span := to_microseconds (midnight 2030 1 10) - to_microseconds noon_jan8 in
  strptime_Ymd (expiry_date (sample_license "active" 0 1))
    = Some (midnight 2030 1 10) ∧
  field "valid" r = Some (JBool true) ∧
  field "days_remaining" r = Some (JInt 1) ∧
  ceil_days span = 2 ∧
  field "days_remaining" r ≠ Some (JInt (ceil_days span)).
Proof. vm_compute. repeat split; congruence. Qed.

(* ===================================================================== *)
(** ** Status check *)
(* ===================================================================== *)

Section CheckBranches.

Variables (license_key : string) (w : world).
Let k : string := upper (strip license_key).
Let t0 : datetime := clock w (ticks w).
Let t1 : datetime := clock w (S (ticks w)).

Lemma check_not_found :
  licenses (db w) !! k = None →
  check_license license_key w =
    (jsonify [("found", JBool false);
              ("message", JStr "License not found")] 200, w).
Proof. subst k. intros Hrow. run_handler. by rewrite Hrow. Qed.

Lemma check_bad_date (row : license) :
  licenses (db w) !! k = Some row →
  strptime_Ymd (expiry_date row) = None →
  check_license license_key w =
    (jsonify [("found", JBool false);
              ("message", JStr "Error checking license")] 500, w).
Proof.
  subst k. intros Hrow He. run_handler. rewrite Hrow; simpl. by rewrite He.
Qed.

Lemma check_found (row : license) (expiry : datetime) :
  licenses (db w) !! k = Some row →
  strptime_Ymd (expiry_date row) = Some expiry →
  check_license license_key w =
    (jsonify [("found", JBool true);
              ("license_key", JStr k);
              ("email", JStr (email row));
              ("product", JStr (product row));
              ("created", JStr (created_date row));
              ("expires", JStr (expiry_date row));
              ("status",
               JStr (if datetime_lt expiry t0 then "expired" else status row));
              ("activations", JInt (activations row));
              ("max_activations", JInt (max_activations row));
              ("days_remaining", JInt (Z.max 0 (td_days (datetime_sub expiry t1))));
              ("last_validated", json_of_option (last_validated row))] 200,
     tick (tick w)).
Proof.
  subst k. intros Hrow He. run_handler. rewrite Hrow; simpl. by rewrite He.
Qed.

End CheckBranches.

Lemma check_db_frame (license_key : string) (w : world) :
  db (check_license license_key w).2 = db w.
Proof.
  destruct (licenses (db w) !! upper (strip license_key)) as [row|] eqn:Hrow;
    [|by rewrite check_not_found].
  destruct (strptime_Ymd (expiry_date row)) as [expiry|] eqn:He.
  - by rewrite (check_found license_key w row expiry).
  - by rewrite (check_bad_date license_key w row).
Qed.



(* ===================================================================== *)
(** ** The branches of [/generate] and [/stats] *)
(* ===================================================================== *)

Section GenerateBranches.

Variables (req : generate_request) (w : world).
Let admin_key : string := default PLACEHOLDER (environ w !! "ADMIN_API_KEY").
Let email : string := strip (default "" (gr_email req)).
Let product : string := default "NGC_EA" (gr_product req).
Let duration_days : Z := default 365 (gr_duration_days req).
Let max_activations : Z := default 1 (gr_max_activations req).
Let k : string := next_key w.
Let t0 : datetime := clock w (ticks w).
Let t1 : datetime := clock w (S (ticks w)).
(** The world once the key is drawn and the clock read twice. *)
Let w1 : world := tick (tick (draw (draw (draw (draw w))))).

Lemma generate_unauthorized :
  key_mismatch (gr_api_key req) admin_key = true →
  generate_license req w =
    (jsonify [("success", JBool false); ("message", JStr "Unauthorized")] 401, w).
Proof. subst admin_key. unfold PLACEHOLDER in *. intros Hkey. run_handler. by rewrite Hkey. Qed.

Lemma generate_no_email :
  key_mismatch (gr_api_key req) admin_key = false →
  email = EmptyString →
  generate_license req w =
    (jsonify [("success", JBool false);
              ("message", JStr "Email is required")] 400, w).
Proof.
  subst admin_key email. intros Hkey He. run_handler. unfold PLACEHOLDER in *.
  rewrite Hkey; simpl. by rewrite He.
Qed.

Lemma generate_bad_duration :
  key_mismatch (gr_api_key req) admin_key = false →
  email ≠ EmptyString →
  timedelta_days duration_days = None →
  generate_license req w = (server_error_generate, w1).
Proof.
  subst admin_key email duration_days. intros Hkey He Hd. apply truthy_true in He. unfold PLACEHOLDER in *.
  run_handler. rewrite Hkey; simpl. rewrite He; simpl. by rewrite Hd.
Qed.

Lemma generate_out_of_range (delta : timedelta) :
  key_mismatch (gr_api_key req) admin_key = false →
  email ≠ EmptyString →
  timedelta_days duration_days = Some delta →
  datetime_add t1 delta = None →
  generate_license req w = (server_error_generate, w1).
Proof.
  subst admin_key email duration_days t1. intros Hkey He Hd Ha. unfold PLACEHOLDER in *.
  apply truthy_true in He.
  run_handler. rewrite Hkey; simpl. rewrite He; simpl. rewrite Hd; simpl.
  by rewrite Ha.
Qed.

Lemma generate_int_too_large (delta : timedelta) (expiry : datetime) :
  key_mismatch (gr_api_key req) admin_key = false →
  email ≠ EmptyString →
  timedelta_days duration_days = Some delta →
  datetime_add t1 delta = Some expiry →
  fits_int64 max_activations = false →
  generate_license req w = (server_error_generate, w1).
Proof.
  subst admin_key email duration_days t1 max_activations. unfold PLACEHOLDER in *.
  intros Hkey He Hd Ha Hfit. apply truthy_true in He.
  run_handler. rewrite Hkey; simpl. rewrite He; simpl. rewrite Hd; simpl.
  rewrite Ha; simpl. unfold insert_license. by rewrite Hfit.
Qed.

Lemma generate_collision (delta : timedelta) (expiry : datetime) :
  key_mismatch (gr_api_key req) admin_key = false →
  email ≠ EmptyString →
  timedelta_days duration_days = Some delta →
  datetime_add t1 delta = Some expiry →
  fits_int64 max_activations = true →
  is_Some (licenses (db w) !! k) →
  generate_license req w = (server_error_generate, w1).
Proof.
  subst admin_key email duration_days t1 max_activations k. unfold PLACEHOLDER in *.
  intros Hkey He Hd Ha Hfit [row Hrow]. apply truthy_true in He.
  run_handler. rewrite Hkey; simpl. rewrite He; simpl. rewrite Hd; simpl.
  rewrite Ha; simpl. unfold insert_license. rewrite Hfit; simpl.
  unfold next_key, key_of_draws in Hrow. simpl in Hrow. by rewrite Hrow.
Qed.

Lemma generate_inserted (delta : timedelta) (expiry : datetime) :
  key_mismatch (gr_api_key req) admin_key = false →
  email ≠ EmptyString →
  timedelta_days duration_days = Some delta →
  datetime_add t1 delta = Some expiry →
  fits_int64 max_activations = true →
  licenses (db w) !! k = None →
  generate_license req w =
    (jsonify [("success", JBool true);
              ("license_key", JStr k);
              ("email", JStr email);
              ("product", JStr product);
              ("created", JStr (strftime_Ymd t0));
              ("expires", JStr (strftime_Ymd expiry));
              ("max_activations", JInt max_activations)] 200,
     set_db (set_licenses
               (insert k (mklicense email product (strftime_Ymd t0)
                                    (strftime_Ymd expiry) "active" 0
                                    max_activations None None))
               (db w)) w1).
Proof.
  subst admin_key email duration_days t1 max_activations k. unfold PLACEHOLDER in *.
  intros Hkey He Hd Ha Hfit Hrow. apply truthy_true in He.
  run_handler. rewrite Hkey; simpl. rewrite He; simpl. rewrite Hd; simpl.
  rewrite Ha; simpl. unfold insert_license. rewrite Hfit; simpl.
  unfold next_key, key_of_draws in Hrow. simpl in Hrow. by rewrite Hrow.
Qed.

End GenerateBranches.

(** Every [/generate] call either reports failure and leaves the database
    as it was, or inserts one row under the key it drew, which was free. *)
Lemma generate_cases (req : generate_request) (w : world) :
  let email := strip (default "" (gr_email req)) in
  let product := default "NGC_EA"%string (gr_product req) in
  let duration_days := default 365 (gr_duration_days req) in
  let max_activations := default 1 (gr_max_activations req) in
  let k := next_key w in
  let t0 := clock w (ticks w) in
  let t1 := clock w (S (ticks w)) in
  (field "success" (generate_license req w).1 = Some (JBool false) ∧
   db (generate_license req w).2 = db w) ∨
  (∃ delta expiry,
     timedelta_days duration_days = Some delta ∧
     datetime_add t1 delta = Some expiry ∧
     licenses (db w) !! k = None ∧
     generate_license req w =
       (jsonify [("success", JBool true);
                 ("license_key", JStr k);
                 ("email", JStr email);
                 ("product", JStr product);
                 ("created", JStr (strftime_Ymd t0));
                 ("expires", JStr (strftime_Ymd expiry));
                 ("max_activations", JInt max_activations)] 200,
        set_db (set_licenses
                  (insert k (mklicense email product (strftime_Ymd t0)
                                       (strftime_Ymd expiry) "active" 0
                                       max_activations None None))
                  (db w))
               (tick (tick (draw (draw (draw (draw w)))))))).
Proof.
  intros email product duration_days max_activations k t0 t1.
  destruct (key_mismatch (gr_api_key req)
              (default PLACEHOLDER (environ w !! "ADMIN_API_KEY"%string))) eqn:Hkey;
    [rewrite generate_unauthorized by done; by left|].
  destruct (decide (email = EmptyString)) as [He|He];
    [rewrite generate_no_email by done; by left|].
  destruct (timedelta_days duration_days) as [delta|] eqn:Hd;
    [|rewrite generate_bad_duration by done; by left].
  destruct (datetime_add t1 delta) as [expiry|] eqn:Ha;
    [|rewrite (generate_out_of_range req w delta) by done; by left].
  destruct (fits_int64 max_activations) eqn:Hfit;
    [|rewrite (generate_int_too_large req w delta expiry) by done; by left].
  destruct (licenses (db w) !! k) as [old|] eqn:Hold;
    [rewrite (generate_collision req w delta expiry) by (done || by eexists);
     by left|].
  right. exists delta, expiry.
  by rewrite (generate_inserted req w delta expiry).
Qed.

Lemma generate_logs_frame (req : generate_request) (w : world) :
  validation_logs (db (generate_license req w).2) = validation_logs (db w).
Proof.
  destruct (generate_cases req w) as [[_ ->]|(? & ? & _ & _ & _ & ->)]; done.
Qed.

Section StatsBranches.

Variables (api_key : option string) (w : world).
Let admin_key : string := default PLACEHOLDER (environ w !! "ADMIN_API_KEY").

Lemma stats_unauthorized :
  key_mismatch api_key admin_key = true →
  get_stats api_key w = (jsonify [("error", JStr "Unauthorized")] 401, w).
Proof. subst admin_key. unfold PLACEHOLDER in *. intros Hkey. run_handler. by rewrite Hkey. Qed.

Lemma stats_authorized :
  key_mismatch api_key admin_key = false →
  status_code (get_stats api_key w).1 = 200 ∧
  db (get_stats api_key w).2 = db w ∧
  field "total_licenses" (get_stats api_key w).1
    = Some (JInt (count_licenses (fun _ => true) (db w))).
Proof. subst admin_key. unfold PLACEHOLDER in *. intros Hkey. run_handler. by rewrite Hkey. Qed.

End StatsBranches.

(* ===================================================================== *)
(** ** Administrative operations *)
(* ===================================================================== *)

Lemma key_mismatch_false (api_key : option string) (admin_key : string) :
  key_mismatch api_key admin_key = false ↔ api_key = Some admin_key.
Proof.
  destruct api_key as [s|]; simpl; [|split; congruence].
  rewrite negb_false_iff, String.eqb_eq. split; congruence.
Qed.

(** C4, as the code has it.  With no [ADMIN_API_KEY] in the environment
    the admin secret is the placeholder itself.  A caller of [/generate]
    or [/stats] who presents anything else, or no [X-API-Key] at all, is
    answered 401 [Unauthorized] and the world is left untouched; a caller
    who presents the placeholder passes the gate. *)
Theorem default_secret_gate (req : generate_request) (w : world) :
  environ w !! "ADMIN_API_KEY"%string = None →
  (gr_api_key req ≠ Some PLACEHOLDER →
   get_stats (gr_api_key req) w
     = (jsonify [("error", JStr "Unauthorized")] 401, w) ∧
   generate_license req w
     = (jsonify [("success", JBool false);
                 ("message", JStr "Unauthorized")] 401, w)) ∧
  (gr_api_key req = Some PLACEHOLDER →
   status_code (get_stats (gr_api_key req) w).1 = 200 ∧
   status_code (generate_license req w).1 ≠ 401).
Proof.
  intros Henv.
  assert (Hgate : ∀ b, key_mismatch (gr_api_key req)
                         (default PLACEHOLDER (environ w !! "ADMIN_API_KEY"%string)) = b
                       ↔ key_mismatch (gr_api_key req) PLACEHOLDER = b)
    by (by rewrite Henv).
  split.
  - intros Hne.
    assert (Hmis : key_mismatch (gr_api_key req) PLACEHOLDER = true).
    { apply not_false_iff_true. intros E. by apply Hne, key_mismatch_false. }
    apply Hgate in Hmis.
    by rewrite stats_unauthorized, generate_unauthorized.
  - intros Heq. apply key_mismatch_false, Hgate in Heq.
    split; [by apply stats_authorized|].
    clear Hgate. revert Heq. unfold PLACEHOLDER. intros Heq.
    run_handler. rewrite Heq; simpl. branches; simpl; lia.
Qed.

Lemma default_secret_gate_witness :
  let w := sample_world (sample_license "active" 0 1) noon_jan8 fresh ∅ in
  get_stats (Some "letmein"%string) w
    = (jsonify [("error", JStr "Unauthorized")] 401, w) ∧
  generate_license (generate_with (Some "letmein"%string) 30) w
    = (jsonify [("success", JBool false);
                ("message", JStr "Unauthorized")] 401, w) ∧
  status_code (generate_license (generate_with (Some PLACEHOLDER) 30) w).1 ≠ 401.
Proof.
  intros w.
  destruct (default_secret_gate (generate_with (Some "letmein"%string) 30) w)
    as [Hno _]; [reflexivity|].
  destruct Hno as [Hs Hg]; [simpl; unfold PLACEHOLDER; congruence|].
  destruct (default_secret_gate (generate_with (Some PLACEHOLDER) 30) w)
    as [_ Hyes]; [reflexivity|].
  destruct Hyes as [_ Hg']; [reflexivity|].
  exact (conj Hs (conj Hg Hg')).
Defined.

(** C4, as the specification words it, fails: with the environment unset,
    the placeholder presented as [X-API-Key] opens both admin operations,
    which read and write the store. *)
Lemma placeholder_opens_admin :
  let w := sample_world (sample_license "active" 0 1) noon_jan8 fresh ∅ in
  let stats := get_stats (Some PLACEHOLDER) w in
  let gen := generate_license (generate_with (Some PLACEHOLDER) 30) w in
  environ w !! "ADMIN_API_KEY"%string = None ∧
  status_code stats.1 = 200 ∧
  field "total_licenses" stats.1 = Some (JInt 1) ∧
  status_code gen.1 = 200 ∧
  field "success" gen.1 = Some (JBool true) ∧
  field "license_key" gen.1 = Some (JStr "NGC-ABCD-ABCE-ABCF-ABD0") ∧
  licenses (db w) !! "NGC-ABCD-ABCE-ABCF-ABD0"%string = None ∧
  expiry_date <$> licenses (db gen.2) !! "NGC-ABCD-ABCE-ABCF-ABD0"%string
    = Some "2030-02-07"%string.
Proof. vm_compute. repeat split. Qed.

Lemma time_of_day_split (h mi s : Z) :
  0 ≤ h < 24 → 0 ≤ mi < 60 → 0 ≤ s < 60 →
  let S := s + mi * 60 + h * 3600 in
  S / 86400 = 0 ∧ S mod 86400 = S ∧ S / 3600 = h ∧
  (S mod 3600) / 60 = mi ∧ (S mod 3600) mod 60 = s.
Proof.
  intros Hh Hmi Hs S. subst S.
  assert (E1 : (s + mi * 60 + h * 3600) mod 3600 = s + mi * 60).
  { rewrite Z.mod_add by lia. apply Z.mod_small. lia. }
  rewrite E1.
  repeat split.
  - apply Z.div_small. lia.
  - apply Z.mod_small. lia.
  - rewrite Z.div_add by lia. rewrite Z.div_small by lia. lia.
  - rewrite Z.div_add by lia. rewrite Z.div_small by lia. lia.
  - rewrite Z.mod_add by lia. apply Z.mod_small. lia.
Qed.

(** Adding whole days to a datetime with a valid time of day moves the
    ordinal and keeps the time of day. *)
Lemma datetime_add_days (t : datetime) (n : Z) (delta : timedelta) :
  valid_time (hour t) (minute t) (second t) (microsecond t) = true →
  timedelta_days n = Some delta →
  datetime_add t delta =
    if (0 <? toordinal t + n) && (toordinal t + n <=? MAXORDINAL)
    then Some (plus_days t n) else None.
Proof.
  unfold valid_time, timedelta_days. intros Hv Hd.
  destruct (Z.abs n <=? 999999999); [|done]. injection Hd as <-.
  repeat (apply andb_true_iff in Hv as [Hv ?]).
  repeat match goal with
         | H : (_ <=? _) = true |- _ => apply Z.leb_le in H
         | H : (_ <? _) = true |- _ => apply Z.ltb_lt in H
         end.
  destruct (time_of_day_split (hour t) (minute t) (second t))
    as (E1 & E2 & E3 & E4 & E5); [lia..|].
  unfold datetime_add, plus_days, normalize_td, seconds_of_day.
  cbn -[Z.div Z.modulo ord2ymd toordinal Z.add Z.mul].
  change (0 + 0 / 1000000) with 0. change (0 mod 1000000) with 0.
  change (0 / 86400) with 0. change (0 mod 86400) with 0.
  rewrite !Z.add_0_r.
  rewrite (Z.div_small (microsecond t)), (Z.mod_small (microsecond t)) by lia.
  rewrite !Z.add_0_r, E1, E2, E3, E4, E5, !Z.add_0_r.
  destruct (ord2ymd (toordinal t + n)) as [[y m] d]. reflexivity.
Qed.

(** C5, as the code has it.  An authorized [/generate] call with a
    non-empty email draws one key, four 16-bit values, and never a second
    one.  If a license is already stored under that key the call fails
    with the server-error response and the database is unchanged.  If the
    call succeeds, the key was free and the new row has
    [created_date] = today, [expiry_date] = the day [duration_days] after
    today, [status] = [active] and [activations] = 0, the other rows being
    as before; and it does succeed when the key is free, the expiry date
    falls within the calendar and [max_activations] fits a 64-bit integer.
    No stored row is ever replaced or removed. *)
Theorem generate_inserts_or_fails (req : generate_request) (w : world) :
  let email := strip (default "" (gr_email req)) in
  let product := default "NGC_EA"%string (gr_product req) in
  let duration_days := default 365 (gr_duration_days req) in
  let max_activations := default 1 (gr_max_activations req) in
  let k := next_key w in
  let t0 := clock w (ticks w) in
  let t1 := clock w (S (ticks w)) in
  let row := mklicense email product (strftime_Ymd t0)
               (strftime_Ymd (plus_days t1 duration_days)) "active" 0
               max_activations None None in
  let r := (generate_license req w).1 in
  let w' := (generate_license req w).2 in
  gr_api_key req
    = Some (default PLACEHOLDER (environ w !! "ADMIN_API_KEY"%string)) →
  email ≠ EmptyString →
  valid_time (hour t1) (minute t1) (second t1) (microsecond t1) = true →
  draws w' = (draws w + 4)%nat ∧
  (∀ k' row', licenses (db w) !! k' = Some row' →
              licenses (db w') !! k' = Some row') ∧
  (is_Some (licenses (db w) !! k) →
   r = server_error_generate ∧ db w' = db w) ∧
  (field "success" r = Some (JBool true) →
   licenses (db w) !! k = None ∧
   field "license_key" r = Some (JStr k) ∧
   licenses (db w') = <[k := row]> (licenses (db w))) ∧
  (licenses (db w) !! k = None →
   Z.abs duration_days ≤ 999999999 →
   0 < toordinal t1 + duration_days ≤ MAXORDINAL →
   fits_int64 max_activations = true →
   field "success" r = Some (JBool true)).
Proof.
  intros email product duration_days max_activations k t0 t1 row r w'.
  intros Hkey He Hvalid. apply key_mismatch_false in Hkey.
  subst r w'.
  destruct (timedelta_days duration_days) as [delta|] eqn:Hd.
  2: { rewrite generate_bad_duration by done. simpl.
       repeat split; try done; try lia.
       intros _ Habs. unfold timedelta_days in Hd.
       apply Z.leb_le in Habs. by rewrite Habs in Hd. }
  pose proof (datetime_add_days t1 duration_days delta Hvalid Hd) as Hadd.
  assert (Habs : Z.abs duration_days ≤ 999999999).
  { unfold timedelta_days in Hd. destruct (Z.leb_spec (Z.abs duration_days) 999999999); [done|discriminate]. }
  destruct ((0 <? toordinal t1 + duration_days)
            && (toordinal t1 + duration_days <=? MAXORDINAL)) eqn:Hrange.
  2: { rewrite (generate_out_of_range req w delta) by done. simpl.
       apply andb_false_iff in Hrange as [Hr|Hr];
         [apply Z.ltb_ge in Hr | apply Z.leb_gt in Hr];
         repeat split; try done; lia. }
  destruct (fits_int64 max_activations) eqn:Hfit.
  2: { rewrite (generate_int_too_large req w delta (plus_days t1 duration_days))
         by done. simpl. repeat split; try done; lia. }
  destruct (licenses (db w) !! k) as [old|] eqn:Hold.
  - rewrite (generate_collision req w delta (plus_days t1 duration_days))
      by (done || by eexists). simpl.
    repeat split; try done; lia.
  - rewrite (generate_inserted req w delta (plus_days t1 duration_days)) by done.
    simpl. split; [lia|]. split.
    + intros k' row' Hk'. rewrite lookup_insert_ne; [done|].
      intros Heq. change (k = k') in Heq. subst k'. congruence.
    + split; [by intros [? ?]|]. done.
Qed.

Lemma generate_inserts_or_fails_witness :
  let w := sample_world (sample_license "active" 0 1) noon_jan8 fresh ∅ in
  let gen := generate_license (generate_with (Some PLACEHOLDER) 30) w in
  let old := generate_license (generate_with (Some PLACEHOLDER) (-400000)) w in
  field "success" gen.1 = Some (JBool true) ∧
  licenses (db gen.2) !! next_key w
    = Some (mklicense "buyer@example.com" "NGC_EA" "2030-01-08" "2030-02-07"
                      "active" 0 1 None None) ∧
  licenses (db gen.2) !! KEY = licenses (db w) !! KEY ∧
  field "success" old.1 = Some (JBool true) ∧
  licenses (db old.2) !! next_key w
    = Some (mklicense "buyer@example.com" "NGC_EA" "2030-01-08" "934-11-10"
                      "active" 0 1 None None).
Proof.
  intros w gen old.
  destruct (generate_inserts_or_fails (generate_with (Some PLACEHOLDER) 30) w)
    as (_ & Hkeep & _ & Hnew & Hok);
    [reflexivity | vm_compute; congruence | reflexivity |].
  assert (Hs : field "success" gen.1 = Some (JBool true)).
  { apply Hok; [reflexivity | vm_compute; congruence
               | vm_compute; split; [reflexivity | congruence] | reflexivity]. }
  destruct (Hnew Hs) as (_ & _ & Hdb).
  destruct (generate_inserts_or_fails
              (generate_with (Some PLACEHOLDER) (-400000)) w)
    as (_ & _ & _ & Hnew' & Hok');
    [reflexivity | vm_compute; congruence | reflexivity |].
  assert (Hs' : field "success" old.1 = Some (JBool true)).
  { apply Hok'; [reflexivity | vm_compute; congruence
                | vm_compute; split; [reflexivity | congruence] | reflexivity]. }
  destruct (Hnew' Hs') as (_ & _ & Hdb').
  split; [exact Hs|]. split; [|split; [|split; [exact Hs'|]]].
  - exact (eq_trans (f_equal (fun m => m !! next_key w) Hdb)
                    (lookup_insert_eq _ _ _)).
  - exact (Hkeep KEY (sample_license "active" 0 1) eq_refl).
  - exact (eq_trans (f_equal (fun m => m !! next_key w) Hdb')
                    (lookup_insert_eq _ _ _)).
Defined.

(** C5, as the specification words it, fails: when the drawn key is
    already taken the call does not draw again.  Here the first four
    draws rebuild the stored key and the next four would have built a free
    one; the call stops after four draws with the server-error response
    and inserts nothing. *)
Lemma collision_is_not_retried :
  let w := sample_world (sample_license "active" 0 1) noon_jan8 zeros_then_fresh ∅ in
  let gen := generate_license (generate_with (Some PLACEHOLDER) 30) w in
  next_key w = KEY ∧
  is_Some (licenses (db w) !! KEY) ∧
  status_code gen.1 = 500 ∧
  field "success" gen.1 = Some (JBool false) ∧
  field "message" gen.1 = Some (JStr "Server error during generation") ∧
  field "license_key" gen.1 = None ∧
  draws gen.2 = 4%nat ∧
  licenses (db w) !! next_key gen.2 = None ∧
  db gen.2 = db w.
Proof. vm_compute. repeat split. by eexists. Qed.

(* ===================================================================== *)
(** ** What the handlers leave alone *)
(* ===================================================================== *)

Lemma stats_logs_frame (api_key : option string) (w : world) :
  validation_logs (db (get_stats api_key w).2) = validation_logs (db w).
Proof. run_handler. branches; reflexivity. Qed.

(** C9.  [/activate] never writes to the validation log: on every branch
    of every call the [validation_logs] relation, and its id counter, are
    what they were before.  The same holds of [/check], [/generate] and
    [/stats]; [/validate] is the only handler that appends an entry. *)
Theorem activate_leaves_no_audit_trail (req : activate_request) (w : world) :
  validation_logs (db (activate_license req w).2) = validation_logs (db w) ∧
  log_seq (db (activate_license req w).2) = log_seq (db w) ∧
  (∀ key, validation_logs (db (check_license key w).2) = validation_logs (db w)) ∧
  (∀ greq, validation_logs (db (generate_license greq w).2)
           = validation_logs (db w)) ∧
  (∀ api_key, validation_logs (db (get_stats api_key w).2)
              = validation_logs (db w)).
Proof.
  split; [|split; [|split; [|split]]].
  - by destruct (activate_db req w) as [->|(? & _ & _ & _ & _ & ->)].
  - by destruct (activate_db req w) as [->|(? & _ & _ & _ & _ & ->)].
  - intros key. by rewrite check_db_frame.
  - intros greq. apply generate_logs_frame.
  - intros api_key. apply stats_logs_frame.
Qed.

Example activate_branches_log_nothing :
  let w := sample_world (sample_license "revoked" 0 1) noon_jan8 zeros ∅ in
  validation_logs (db (activate_license activate_key w).2) = [] ∧
  validation_logs (db (activate_license (mkactivate None None) w).2) = [] ∧
  validation_logs (db (activate_license (mkactivate (Some "nope") None) w).2) = [].
Proof. vm_compute. repeat split. Qed.

(** C10.  Two [/validate] calls, or two [/activate] calls, that differ
    only in [account_number] and start from the same world return the same
    response and end in the same world: the field is read and then used
    nowhere. *)
Theorem account_number_is_ignored (w : world) :
  (∀ r1 r2 : validate_request,
     vr_license_key r1 = vr_license_key r2 →
     vr_remote_addr r1 = vr_remote_addr r2 →
     validate_license r1 w = validate_license r2 w) ∧
  (∀ r1 r2 : activate_request,
     ar_license_key r1 = ar_license_key r2 →
     activate_license r1 w = activate_license r2 w).
Proof.
  split.
  - intros [k1 a1 ip1] [k2 a2 ip2]; simpl; intros -> ->. reflexivity.
  - intros [k1 a1] [k2 a2]; simpl; intros ->. reflexivity.
Qed.

Lemma account_number_is_ignored_witness :
  let w := sample_world (sample_license "active" 0 1) noon_jan8 zeros ∅ in
  validate_license (mkvalidate (Some KEY) (Some "111") (Some "10.0.0.7")) w
    = validate_license (mkvalidate (Some KEY) None (Some "10.0.0.7")) w ∧
  activate_license (mkactivate (Some KEY) (Some "111")) w
    = activate_license (mkactivate (Some KEY) (Some "222")) w.
Proof.
  intros w. split.
  - apply (proj1 (account_number_is_ignored w)); reflexivity.
  - apply (proj2 (account_number_is_ignored w)); reflexivity.
Defined.

(* ===================================================================== *)
(** ** Calendar facts *)
(* ===================================================================== *)

Lemma month_day_table :
  all_from (month_day_ok false) 1 12 && all_from (month_day_ok true) 1 12 = true.
Proof. vm_compute. reflexivity. Qed.

Lemma month_day_of_year (leapyear : bool) (m d : Z) :
  1 ≤ m ≤ 12 → 1 ≤ d ≤ month_length leapyear m →
  let n := day_of_year leapyear m d in
  0 ≤ n ≤ (if leapyear then 365 else 364) ∧
  (n ≤ 364 → month_day n leapyear = (m, d)).
Proof.
  intros Hm Hd n.
  assert (Hd31 : d ≤ 31).
  { unfold month_length in Hd.
    assert (DAYS_IN_MONTH m ≤ 31) by (unfold DAYS_IN_MONTH; repeat case_match; lia).
    destruct ((m =? 2) && leapyear); lia. }
  pose proof month_day_table as T. apply andb_true_iff in T as [Tf Tt].
  assert (H : month_day_ok leapyear m = true).
  { destruct leapyear; eapply all_from_spec; eauto; simpl; lia. }
  unfold month_day_ok in H.
  eapply (all_from_spec _ _ _ d) in H; [|simpl; lia].
  simpl in H. fold n in H.
  apply orb_true_iff in H as [H|H].
  { apply negb_true_iff, Z.leb_gt in H. lia. }
  apply andb_true_iff in H as [H Hmd]. apply andb_true_iff in H as [H0 H1].
  apply Z.leb_le in H0, H1. split; [lia|]. intros Hn.
  apply orb_true_iff in Hmd as [Hmd|Hmd]; [apply Z.ltb_lt in Hmd; lia|].
  destruct (month_day n leapyear) as [m' d'].
  apply andb_true_iff in Hmd as [E1 E2].
  apply Z.eqb_eq in E1, E2. by subst.
Qed.

Lemma year_parts (y : Z) :
  1 ≤ y →
  ∃ a b c e,
    0 ≤ a ∧ 0 ≤ b ≤ 3 ∧ 0 ≤ c ≤ 24 ∧ 0 ≤ e ≤ 3 ∧
    y = 400 * a + 100 * b + 4 * c + e + 1 ∧
    days_before_year y = 146097 * a + 36524 * b + 1461 * c + 365 * e ∧
    is_leap y = (e =? 3) && (negb (c =? 24) || (b =? 3)).
Proof.
  intros Hy.
  exists ((y - 1) / 400), ((y - 1) mod 400 / 100), ((y - 1) mod 100 / 4),
         ((y - 1) mod 4).
  unfold days_before_year, is_leap.
  repeat split; Z.div_mod_to_equations; lia.
Qed.

Lemma divmod_unique (x k q r : Z) :
  0 ≤ r < k → x = k * q + r → x / k = q ∧ x mod k = r.
Proof.
  intros Hr ->. split.
  - symmetry. apply (Z.div_unique _ _ q r); [lia | reflexivity].
  - symmetry. apply (Z.mod_unique _ _ q r); [lia | reflexivity].
Qed.

Lemma ord2ymd_month_day (n : Z) :
  ord2ymd n =
    let n0 := n - 1 in
    let n400 := n0 / DI400Y in let r1 := n0 mod DI400Y in
    let n100 := r1 / DI100Y in let r2 := r1 mod DI100Y in
    let n4 := r2 / DI4Y in let r3 := r2 mod DI4Y in
    let n1 := r3 / 365 in let r4 := r3 mod 365 in
    let y := n400 * 400 + 1 + n100 * 100 + n4 * 4 + n1 in
    if (n1 =? 4) || (n100 =? 4) then (y - 1, 12, 31)
    else
      let '(m, d) :=
        month_day r4 ((n1 =? 3) && (negb (n4 =? 24) || (n100 =? 3))) in
      (y, m, d).
Proof.
  unfold ord2ymd, month_day. cbv zeta.
  destruct (_ || _); [reflexivity|].
  destruct (_ <? _); reflexivity.
Qed.

(** The ordinal of day [doy] (zero-based, before the last day of a leap
    year) of the year [400a + 100b + 4c + e + 1]. *)
Lemma ord2ymd_parts (a b c e doy : Z) :
  0 ≤ b ≤ 3 → 0 ≤ c ≤ 24 → 0 ≤ e ≤ 3 → 0 ≤ doy ≤ 364 →
  ord2ymd (146097 * a + 36524 * b + 1461 * c + 365 * e + doy + 1) =
    let '(m, d) :=
      month_day doy ((e =? 3) && (negb (c =? 24) || (b =? 3))) in
    (400 * a + 100 * b + 4 * c + e + 1, m, d).
Proof.
  intros Hb Hc He Hdoy. rewrite ord2ymd_month_day. cbv zeta.
  unfold DI400Y, DI100Y, DI4Y.
  set (n0 := 146097 * a + 36524 * b + 1461 * c + 365 * e + doy + 1 - 1).
  destruct (divmod_unique n0 146097 a (36524 * b + 1461 * c + 365 * e + doy))
    as [E1 E1']; [lia | subst n0; lia |].
  rewrite E1, E1'.
  destruct (divmod_unique (36524 * b + 1461 * c + 365 * e + doy) 36524 b
              (1461 * c + 365 * e + doy)) as [E2 E2']; [lia | lia |].
  rewrite E2, E2'.
  destruct (divmod_unique (1461 * c + 365 * e + doy) 1461 c (365 * e + doy))
    as [E3 E3']; [lia | lia |].
  rewrite E3, E3'.
  destruct (divmod_unique (365 * e + doy) 365 e doy) as [E4 E4']; [lia | lia |].
  rewrite E4, E4'.
  destruct (Z.eqb_spec e 4); [lia|]. destruct (Z.eqb_spec b 4); [lia|]. simpl.
  destruct (month_day _ _) as [m d]. f_equal. f_equal. lia.
Qed.

(** The last day of a leap year. *)
Lemma ord2ymd_leap_last (a b c : Z) :
  0 ≤ b ≤ 3 → 0 ≤ c ≤ 24 → (c ≠ 24 ∨ b = 3) →
  ord2ymd (146097 * a + 36524 * b + 1461 * c + 365 * 3 + 365 + 1) =
    (400 * a + 100 * b + 4 * c + 3 + 1, 12, 31).
Proof.
  intros Hb Hc Hleap. rewrite ord2ymd_month_day. cbv zeta.
  unfold DI400Y, DI100Y, DI4Y.
  set (n0 := 146097 * a + 36524 * b + 1461 * c + 365 * 3 + 365 + 1 - 1).
  destruct (divmod_unique n0 146097 a (36524 * b + 1461 * c + 1460))
    as [E1 E1']; [lia | subst n0; lia |].
  rewrite E1, E1'.
  destruct (Z.eq_dec c 24) as [->|Hc24].
  - assert (b = 3) as -> by lia.
    change (36524 * 3 + 1461 * 24 + 1460) with 146096.
    vm_compute (146096 / 36524). vm_compute (146096 mod 36524).
    vm_compute (0 / 1461). vm_compute (0 mod 1461). vm_compute (0 / 365).
    simpl. f_equal. f_equal. lia.
  - destruct (divmod_unique (36524 * b + 1461 * c + 1460) 36524 b
                (1461 * c + 1460)) as [E2 E2']; [lia | lia |].
    rewrite E2, E2'.
    destruct (divmod_unique (1461 * c + 1460) 1461 c 1460)
      as [E3 E3']; [lia | lia |].
    rewrite E3, E3'.
    vm_compute (1460 / 365). simpl. f_equal. f_equal. lia.
Qed.

(** [fromordinal] undoes [toordinal] on every date of the calendar. *)
Lemma ord2ymd_ymd2ord (y m d : Z) :
  1 ≤ y → 1 ≤ m ≤ 12 → 1 ≤ d ≤ days_in_month y m →
  ord2ymd (ymd2ord y m d) = (y, m, d).
Proof.
  intros Hy Hm Hd.
  destruct (year_parts y Hy) as (a & b & c & e & Ha & Hb & Hc & He & Ey & Edby & Eleap).
  unfold ymd2ord, days_before_month. unfold days_in_month in Hd.
  rewrite Edby, Eleap in *.
  set (lp := (e =? 3) && (negb (c =? 24) || (b =? 3))) in *.
  destruct (month_day_of_year lp m d Hm Hd) as [Hn Hmd].
  unfold day_of_year in *.
  set (bm := DAYS_BEFORE_MONTH m + (if (2 <? m) && lp then 1 else 0)) in *.
  destruct (Z.le_gt_cases (bm + d - 1) 364) as [Hle|Hgt].
  - replace (146097 * a + 36524 * b + 1461 * c + 365 * e + bm + d)
      with (146097 * a + 36524 * b + 1461 * c + 365 * e + (bm + d - 1) + 1) by lia.
    rewrite ord2ymd_parts by lia. fold lp. rewrite (Hmd Hle).
    f_equal. f_equal. lia.
  - destruct lp eqn:Hlp; [|lia].
    subst lp. apply andb_true_iff in Hlp as [He3 Hcb].
    apply Z.eqb_eq in He3. subst e.
    assert (c ≠ 24 ∨ b = 3).
    { apply orb_true_iff in Hcb as [H|H];
        [apply negb_true_iff, Z.eqb_neq in H; by left
        | apply Z.eqb_eq in H; by right]. }
    replace (146097 * a + 36524 * b + 1461 * c + 365 * 3 + bm + d)
      with (146097 * a + 36524 * b + 1461 * c + 365 * 3 + 365 + 1) by lia.
    rewrite ord2ymd_leap_last by done.
    assert (Hlast : bm + d - 1 = 365) by lia.
    (* only 31 December is day 365 *)
    assert (m = 12 ∧ d = 31) as [-> ->].
    { subst bm. unfold month_length in Hd.
      assert (Hcases : m = 1 ∨ m = 2 ∨ m = 3 ∨ m = 4 ∨ m = 5 ∨ m = 6 ∨ m = 7 ∨
                       m = 8 ∨ m = 9 ∨ m = 10 ∨ m = 11 ∨ m = 12) by lia.
      destruct Hcases as [->|[->|[->|[->|[->|[->|[->|[->|[->|[->|[->| ->]]]]]]]]]]];
        simpl in *; lia. }
    f_equal. f_equal. lia.
Qed.

(** *** Printing and parsing a date *)

Lemma digit_val_char (n : Z) : digit_val (digit_char n) = Some (n mod 10).
Proof.
  unfold digit_char.
  assert (H : 0 ≤ n mod 10 < 10) by (apply Z.mod_pos_bound; lia).
  assert (Hc : n mod 10 = 0 ∨ n mod 10 = 1 ∨ n mod 10 = 2 ∨ n mod 10 = 3 ∨
               n mod 10 = 4 ∨ n mod 10 = 5 ∨ n mod 10 = 6 ∨ n mod 10 = 7 ∨
               n mod 10 = 8 ∨ n mod 10 = 9) by lia.
  destruct Hc as [->|[->|[->|[->|[->|[->|[->|[->|[->| ->]]]]]]]]]; reflexivity.
Qed.

Lemma parse_year_pad4 (y : Z) :
  0 ≤ y ≤ 9999 →
  parse_year (digit_char (y / 1000)) (digit_char (y / 100))
             (digit_char (y / 10)) (digit_char y) = Some y.
Proof.
  intros Hy. unfold parse_year. rewrite !digit_val_char. f_equal.
  Z.div_mod_to_equations. lia.
Qed.

Lemma parse_month_pad2 (m : Z) (rest : string) :
  1 ≤ m ≤ 12 → parse_month (pad2 m +:+ rest) = Some (m, rest).
Proof.
  intros Hm.
  assert (Hc : m = 1 ∨ m = 2 ∨ m = 3 ∨ m = 4 ∨ m = 5 ∨ m = 6 ∨ m = 7 ∨
               m = 8 ∨ m = 9 ∨ m = 10 ∨ m = 11 ∨ m = 12) by lia.
  destruct Hc as [->|[->|[->|[->|[->|[->|[->|[->|[->|[->|[->| ->]]]]]]]]]]];
    reflexivity.
Qed.

Lemma parse_day_table : all_from parse_day_ok 1 31 = true.
Proof. vm_compute. reflexivity. Qed.

Lemma parse_day_pad2 (d : Z) :
  1 ≤ d ≤ 31 → parse_day (pad2 d) = Some (d, EmptyString).
Proof.
  intros Hd. pose proof (all_from_spec _ _ _ d parse_day_table) as H.
  unfold parse_day_ok in H.
  destruct (parse_day (pad2 d)) as [[d' [|? ?]]|];
    try (by (discriminate H; simpl; lia)).
  f_equal. f_equal. apply Z.eqb_eq, H. simpl. lia.
Qed.

Lemma days_in_month_le (y m : Z) : days_in_month y m ≤ 31.
Proof.
  unfold days_in_month, DAYS_IN_MONTH.
  destruct (_ && _); [lia|]. repeat case_match; lia.
Qed.

(** The text [YYYY-MM-DD] of a day of the calendar is read by [strptime]
    as midnight of that day. *)
Lemma strptime_iso_date (y m d : Z) :
  valid_date y m d = true →
  strptime_Ymd (iso_date y m d) = Some (midnight y m d).
Proof.
  intros Hv. pose proof Hv as Hv'. unfold valid_date in Hv'.
  repeat (apply andb_true_iff in Hv' as [Hv' ?]).
  repeat match goal with
         | H : (_ <=? _) = true |- _ => apply Z.leb_le in H
         end.
  pose proof (days_in_month_le y m).
  unfold iso_date, strptime_Ymd, pad4.
  change (pad2 y) with
    (String (digit_char (y / 10)) (String (digit_char y) EmptyString)).
  cbv beta iota fix delta [String.append].
  rewrite parse_year_pad4 by lia.
  change (Ascii.eqb "-" "-") with true. cbv iota.
  change (parse_month _) with
    (parse_month (pad2 m +:+ String "-" (pad2 d))).
  rewrite parse_month_pad2 by lia.
  change (Ascii.eqb "-" "-") with true. cbv iota.
  change (parse_day _) with (parse_day (pad2 d)).
  rewrite parse_day_pad2 by lia.
  by rewrite Hv.
Qed.

(** From the year 1000 on [strftime] prints the year on four digits. *)
Lemma strftime_iso_date (t : datetime) :
  1000 ≤ year t → strftime_Ymd t = iso_date (year t) (month t) (day t).
Proof.
  intros Hy. unfold strftime_Ymd, iso_date, year_text.
  destruct (Z.ltb_spec (year t) 10); [lia|].
  destruct (Z.ltb_spec (year t) 100); [lia|].
  destruct (Z.ltb_spec (year t) 1000); [lia|]. reflexivity.
Qed.

(** A date of a year of four digits printed by [strftime('%Y-%m-%d')] is
    read back by [strptime] as midnight of that day. *)
Lemma strptime_strftime (t : datetime) :
  valid_date (year t) (month t) (day t) = true → 1000 ≤ year t →
  strptime_Ymd (strftime_Ymd t) = Some (midnight (year t) (month t) (day t)).
Proof.
  intros Hv Hy. rewrite strftime_iso_date by done. by apply strptime_iso_date.
Qed.

(** A date of a year below 1000 is printed with fewer than four digits in
    the year, and [strptime], whose [%Y] wants four, does not read it
    back. *)
Lemma strptime_short_year (t : datetime) :
  year t < 1000 → strptime_Ymd (strftime_Ymd t) = None.
Proof.
  intros Hy. unfold strftime_Ymd, year_text.
  destruct (Z.ltb_spec (year t) 10);
    [|destruct (Z.ltb_spec (year t) 100);
      [|destruct (Z.ltb_spec (year t) 1000); [|lia]]];
    unfold pad2, strptime_Ymd, parse_year;
    cbv beta iota fix delta [String.append];
    rewrite ?digit_val_char; reflexivity.
Qed.

(** The printed date has ten characters exactly when the year has four
    digits. *)
Lemma strftime_length (t : datetime) :
  String.length (strftime_Ymd t) = 10%nat ↔ 1000 ≤ year t.
Proof.
  unfold strftime_Ymd, year_text.
  destruct (Z.ltb_spec (year t) 10);
    [|destruct (Z.ltb_spec (year t) 100);
      [|destruct (Z.ltb_spec (year t) 1000)]];
    unfold pad4, pad2;
    cbv beta iota fix delta [String.append String.length];
    split; intros; try lia; try done.
Qed.

(** *** Every ordinal is a date *)

Lemma month_day_valid_table :
  all_from (month_day_valid false) 0 365 && all_from (month_day_valid true) 0 365
    = true.
Proof. vm_compute. reflexivity. Qed.

Lemma is_leap_parts (a b c e : Z) :
  0 ≤ b ≤ 3 → 0 ≤ c ≤ 24 → 0 ≤ e ≤ 3 →
  is_leap (400 * a + 100 * b + 4 * c + e + 1)
    = (e =? 3) && (negb (c =? 24) || (b =? 3)).
Proof. intros Hb Hc He. unfold is_leap. Z.div_mod_to_equations. lia. Qed.

Lemma valid_date_intro (y m d : Z) :
  1 ≤ y ≤ 9999 → 1 ≤ m ≤ 12 → 1 ≤ d ≤ days_in_month y m →
  valid_date y m d = true.
Proof.
  intros Hy Hm Hd. unfold valid_date.
  repeat (apply andb_true_iff; split); apply Z.leb_le; lia.
Qed.

(** Every ordinal of the calendar is the ordinal of a valid date. *)
Lemma ord2ymd_valid (n : Z) :
  1 ≤ n ≤ MAXORDINAL →
  let '(y, m, d) := ord2ymd n in valid_date y m d = true.
Proof.
  unfold MAXORDINAL. intros Hn. rewrite ord2ymd_month_day. cbv zeta.
  unfold DI400Y, DI100Y, DI4Y.
  set (n400 := (n - 1) / 146097). set (r1 := (n - 1) mod 146097).
  set (n100 := r1 / 36524). set (r2 := r1 mod 36524).
  set (n4 := r2 / 1461). set (r3 := r2 mod 1461).
  set (n1 := r3 / 365). set (r4 := r3 mod 365).
  assert (H400 : n - 1 = 146097 * n400 + r1 ∧ 0 ≤ r1 < 146097)
    by (subst n400 r1; split; [apply Z.div_mod | apply Z.mod_pos_bound]; lia).
  assert (H100 : r1 = 36524 * n100 + r2 ∧ 0 ≤ r2 < 36524)
    by (subst n100 r2; split; [apply Z.div_mod | apply Z.mod_pos_bound]; lia).
  assert (H4 : r2 = 1461 * n4 + r3 ∧ 0 ≤ r3 < 1461)
    by (subst n4 r3; split; [apply Z.div_mod | apply Z.mod_pos_bound]; lia).
  assert (H1 : r3 = 365 * n1 + r4 ∧ 0 ≤ r4 < 365)
    by (subst n1 r4; split; [apply Z.div_mod | apply Z.mod_pos_bound]; lia).
  clearbody n400 r1 n100 r2 n4 r3 n1 r4.
  destruct H400 as [E400 B400], H100 as [E100 B100], H4 as [E4 B4], H1 as [E1 B1].
  assert (0 ≤ n400 ≤ 24) by lia. assert (0 ≤ n100 ≤ 4) by lia.
  assert (0 ≤ n4 ≤ 24) by lia. assert (0 ≤ n1 ≤ 4) by lia.
  destruct ((n1 =? 4) || (n100 =? 4)) eqn:Hlast.
  - apply valid_date_intro; [|lia|change (days_in_month _ 12) with 31; lia].
    apply orb_true_iff in Hlast.
    destruct Hlast as [Hl|Hl]; apply Z.eqb_eq in Hl; lia.
  - apply orb_false_iff in Hlast as [Hn1 Hn100]. apply Z.eqb_neq in Hn1, Hn100.
    set (lp := (n1 =? 3) && (negb (n4 =? 24) || (n100 =? 3))).
    pose proof month_day_valid_table as T. apply andb_true_iff in T as [Tf Tt].
    assert (Hmd : month_day_valid lp r4 = true)
      by (destruct lp; eapply all_from_spec; eauto; simpl; lia).
    unfold month_day_valid in Hmd.
    destruct (month_day r4 lp) as [m d].
    repeat (apply andb_true_iff in Hmd as [Hmd ?]).
    repeat match goal with
           | H : (_ <=? _) = true |- _ => apply Z.leb_le in H
           end.
    replace (n400 * 400 + 1 + n100 * 100 + n4 * 4 + n1)
      with (400 * n400 + 100 * n100 + 4 * n4 + n1 + 1) by lia.
    apply valid_date_intro; [lia | lia |].
    unfold days_in_month. rewrite is_leap_parts by lia.
    fold lp. fold (month_length lp m). lia.
Qed.

Lemma datetime_add_valid (t : datetime) (delta : timedelta) (sum : datetime) :
  datetime_add t delta = Some sum →
  valid_date (year sum) (month sum) (day sum) = true.
Proof.
  unfold datetime_add. intros H.
  destruct (_ && _) eqn:Hrange; [|discriminate H].
  apply andb_true_iff in Hrange as [Hlo Hhi].
  apply Z.ltb_lt in Hlo. apply Z.leb_le in Hhi.
  match type of H with
  | context [ord2ymd ?n] => pose proof (ord2ymd_valid n) as Hv
  end.
  destruct (ord2ymd _) as [[y m] d]. injection H as <-. simpl. apply Hv. lia.
Qed.

(** *** Ordinals and the order of datetimes *)

Lemma days_before_year_parts (a b c e : Z) :
  0 ≤ b ≤ 3 → 0 ≤ c ≤ 24 → 0 ≤ e ≤ 3 →
  days_before_year (400 * a + 100 * b + 4 * c + e + 1)
    = 146097 * a + 36524 * b + 1461 * c + 365 * e.
Proof.
  intros Hb Hc He. unfold days_before_year. Z.div_mod_to_equations. lia.
Qed.

Lemma day_of_year_table :
  all_from (day_of_year_ok false) 0 365 && all_from (day_of_year_ok true) 0 365
    = true.
Proof. vm_compute. reflexivity. Qed.

(** [toordinal] undoes [fromordinal] on every ordinal of the calendar. *)
Lemma ymd2ord_ord2ymd (n : Z) :
  1 ≤ n ≤ MAXORDINAL →
  let '(y, m, d) := ord2ymd n in ymd2ord y m d = n.
Proof.
  unfold MAXORDINAL. intros Hn. rewrite ord2ymd_month_day. cbv zeta.
  unfold DI400Y, DI100Y, DI4Y.
  set (n400 := (n - 1) / 146097). set (r1 := (n - 1) mod 146097).
  set (n100 := r1 / 36524). set (r2 := r1 mod 36524).
  set (n4 := r2 / 1461). set (r3 := r2 mod 1461).
  set (n1 := r3 / 365). set (r4 := r3 mod 365).
  assert (H400 : n - 1 = 146097 * n400 + r1 ∧ 0 ≤ r1 < 146097)
    by (subst n400 r1; split; [apply Z.div_mod | apply Z.mod_pos_bound]; lia).
  assert (H100 : r1 = 36524 * n100 + r2 ∧ 0 ≤ r2 < 36524)
    by (subst n100 r2; split; [apply Z.div_mod | apply Z.mod_pos_bound]; lia).
  assert (H4 : r2 = 1461 * n4 + r3 ∧ 0 ≤ r3 < 1461)
    by (subst n4 r3; split; [apply Z.div_mod | apply Z.mod_pos_bound]; lia).
  assert (H1 : r3 = 365 * n1 + r4 ∧ 0 ≤ r4 < 365)
    by (subst n1 r4; split; [apply Z.div_mod | apply Z.mod_pos_bound]; lia).
  clearbody n400 r1 n100 r2 n4 r3 n1 r4.
  destruct H400 as [E400 B400], H100 as [E100 B100], H4 as [E4 B4], H1 as [E1 B1].
  assert (0 ≤ n100 ≤ 4) by lia. assert (0 ≤ n4 ≤ 24) by lia.
  assert (0 ≤ n1 ≤ 4) by lia.
  destruct ((n1 =? 4) || (n100 =? 4)) eqn:Hlast.
  - unfold ymd2ord, days_before_month.
    change (DAYS_BEFORE_MONTH 12) with 334. change (2 <? 12) with true.
    cbn [andb].
    apply orb_true_iff in Hlast. destruct Hlast as [Hl|Hl]; apply Z.eqb_eq in Hl.
    + (* the fourth year of a four-year cycle *)
      assert (r4 = 0) by lia. assert (n100 ≤ 3) by lia. assert (n4 ≤ 23) by lia.
      replace (n400 * 400 + 1 + n100 * 100 + n4 * 4 + n1 - 1)
        with (400 * n400 + 100 * n100 + 4 * n4 + 3 + 1) by lia.
      rewrite is_leap_parts, days_before_year_parts by lia.
      destruct (Z.eqb_spec 3 3); [|done].
      destruct (Z.eqb_spec n4 24); [lia|]. cbn [negb orb andb]. lia.
    + (* the last year of a 400-year cycle *)
      assert (r2 = 0 ∧ n4 = 0 ∧ n1 = 0 ∧ r4 = 0) as (? & ? & ? & ?) by lia.
      replace (n400 * 400 + 1 + n100 * 100 + n4 * 4 + n1 - 1)
        with (400 * n400 + 100 * 3 + 4 * 24 + 3 + 1) by lia.
      rewrite is_leap_parts, days_before_year_parts by lia.
      cbn. lia.
  - apply orb_false_iff in Hlast as [Hn1 Hn100]. apply Z.eqb_neq in Hn1, Hn100.
    set (lp := (n1 =? 3) && (negb (n4 =? 24) || (n100 =? 3))).
    pose proof day_of_year_table as T. apply andb_true_iff in T as [Tf Tt].
    assert (Hmd : day_of_year_ok lp r4 = true)
      by (destruct lp; eapply all_from_spec; eauto; simpl; lia).
    unfold day_of_year_ok in Hmd.
    destruct (month_day r4 lp) as [m d]. apply Z.eqb_eq in Hmd.
    unfold ymd2ord, days_before_month.
    replace (n400 * 400 + 1 + n100 * 100 + n4 * 4 + n1)
      with (400 * n400 + 100 * n100 + 4 * n4 + n1 + 1) by lia.
    rewrite is_leap_parts, days_before_year_parts by lia. fold lp.
    unfold day_of_year in Hmd. lia.
Qed.

Lemma year_length (y : Z) :
  days_before_year (y + 1)
    = days_before_year y + 365 + (if is_leap y then 1 else 0).
Proof.
  unfold days_before_year, is_leap.
  replace (y + 1 - 1) with (y - 1 + 1) by lia.
  destruct (Z.eqb_spec (y mod 4) 0), (Z.eqb_spec (y mod 100) 0),
    (Z.eqb_spec (y mod 400) 0); cbn [negb orb andb];
    Z.div_mod_to_equations; lia.
Qed.

Lemma days_before_year_mono (y1 y2 : Z) :
  y1 ≤ y2 → days_before_year y1 ≤ days_before_year y2.
Proof. unfold days_before_year. intros H. Z.div_mod_to_equations. lia. Qed.

Lemma month_order_table :
  all_from (month_order_ok false) 1 12 && all_from (month_order_ok true) 1 12
    = true.
Proof. vm_compute. reflexivity. Qed.

Lemma month_order (leapyear : bool) (m m' : Z) :
  1 ≤ m ≤ 12 → 1 ≤ m' ≤ 12 →
  0 ≤ day_of_year leapyear m 1 ∧
  day_of_year leapyear m (month_length leapyear m)
    ≤ (if leapyear then 365 else 364) ∧
  (m < m' →
   day_of_year leapyear m (month_length leapyear m) < day_of_year leapyear m' 1).
Proof.
  intros Hm Hm'.
  pose proof month_order_table as T. apply andb_true_iff in T as [Tf Tt].
  assert (H : month_order_ok leapyear m = true)
    by (destruct leapyear; eapply all_from_spec; eauto; simpl; lia).
  unfold month_order_ok in H.
  apply andb_true_iff in H as [H H0]. apply andb_true_iff in H as [H H1].
  apply Z.leb_le in H0, H1. split; [done|]. split; [done|].
  intros Hlt. eapply (all_from_spec _ _ _ m') in H; [|simpl; lia].
  simpl in H. apply orb_true_iff in H as [H|H].
  - apply negb_true_iff, Z.ltb_ge in H. lia.
  - by apply Z.ltb_lt in H.
Qed.

(** An earlier date has a smaller ordinal. *)
Lemma ymd2ord_lt (y m d y' m' d' : Z) :
  1 ≤ m ≤ 12 → 1 ≤ d ≤ days_in_month y m →
  1 ≤ m' ≤ 12 → 1 ≤ d' ≤ days_in_month y' m' →
  y < y' ∨ (y = y' ∧ (m < m' ∨ (m = m' ∧ d < d'))) →
  ymd2ord y m d < ymd2ord y' m' d'.
Proof.
  intros Hm Hd Hm' Hd' Hlt.
  unfold ymd2ord, days_before_month. unfold days_in_month in Hd, Hd'.
  fold (month_length (is_leap y) m) in Hd.
  fold (month_length (is_leap y') m') in Hd'.
  destruct (month_order (is_leap y) m m' Hm Hm') as (A0 & A1 & A2).
  destruct (month_order (is_leap y') m' m Hm' Hm) as (B0 & B1 & B2).
  unfold day_of_year in *.
  set (bm := DAYS_BEFORE_MONTH m + (if (2 <? m) && is_leap y then 1 else 0)) in *.
  set (bm' := DAYS_BEFORE_MONTH m' + (if (2 <? m') && is_leap y' then 1 else 0)) in *.
  destruct Hlt as [Hy|[-> Hmd]].
  - pose proof (year_length y).
    pose proof (days_before_year_mono (y + 1) y' ltac:(lia)).
    destruct (is_leap y); lia.
  - destruct Hmd as [Hmm|[-> Hdd]].
    + specialize (A2 Hmm).
      set (bmx := DAYS_BEFORE_MONTH m' + (if (2 <? m') && is_leap y' then 1 else 0)) in *.
      lia.
    + lia.
Qed.

Lemma lex_level (x y : Z) (r : bool) (P : Prop) :
  (x < y → P) → (y < x → ¬ P) → (x = y → (r = true ↔ P)) →
  (x <? y) || ((x =? y) && r) = true ↔ P.
Proof.
  intros Hlt Hgt Heq.
  destruct (Z.ltb_spec x y) as [Hxy|Hxy]; cbn [orb].
  - split; [intros _; auto | done].
  - destruct (Z.eqb_spec x y) as [E|N]; cbn [andb]; [by apply Heq|].
    split; [done|]. intros HP. exfalso. apply Hgt; [lia|done].
Qed.

(** Python's order on datetimes is the order of their positions on the
    microsecond scale. *)
Lemma datetime_lt_spec (a b : datetime) :
  valid_datetime a = true → valid_datetime b = true →
  datetime_lt a b = true ↔ to_microseconds a < to_microseconds b.
Proof.
  unfold valid_datetime, valid_date, valid_time. intros Ha Hb.
  repeat (apply andb_true_iff in Ha as [Ha ?]).
  repeat (apply andb_true_iff in Hb as [Hb ?]).
  repeat match goal with
         | H : (_ <=? _) = true |- _ => apply Z.leb_le in H
         | H : (_ <? _) = true |- _ => apply Z.ltb_lt in H
         end.
  pose proof (ymd2ord_lt (year a) (month a) (day a) (year b) (month b) (day b)
                ltac:(lia) ltac:(lia) ltac:(lia) ltac:(lia)) as Hab.
  pose proof (ymd2ord_lt (year b) (month b) (day b) (year a) (month a) (day a)
                ltac:(lia) ltac:(lia) ltac:(lia) ltac:(lia)) as Hba.
  assert (Heq : year a = year b → month a = month b → day a = day b →
                toordinal a = toordinal b)
    by (unfold toordinal; intros -> -> ->; reflexivity).
  unfold to_microseconds, seconds_of_day, datetime_lt.
  fold (toordinal a) in *. fold (toordinal b) in *.
  generalize dependent (toordinal a). generalize dependent (toordinal b).
  intros ob oa Hab Hba Heq.
  apply lex_level; [intros; specialize (Hab ltac:(auto)); lia
                   |intros; specialize (Hba ltac:(auto)); lia|intros Ey].
  apply lex_level; [intros; specialize (Hab ltac:(auto)); lia
                   |intros; specialize (Hba ltac:(auto)); lia|intros Em].
  apply lex_level; [intros; specialize (Hab ltac:(auto)); lia
                   |intros; specialize (Hba ltac:(auto)); lia|intros Ed].
  specialize (Heq Ey Em Ed). subst oa. clear Hab Hba.
  apply lex_level; [lia | lia | intros Eh].
  apply lex_level; [lia | lia | intros Emi].
  apply lex_level; [lia | lia | intros Es].
  rewrite Z.ltb_lt. lia.
Qed.

(* ===================================================================== *)
(** ** Expiry *)
(* ===================================================================== *)

(** What [strptime] returns is midnight of a day of the calendar. *)
Lemma strptime_midnight (s : string) (t : datetime) :
  strptime_Ymd s = Some t →
  t = midnight (year t) (month t) (day t) ∧
  valid_date (year t) (month t) (day t) = true.
Proof.
  unfold strptime_Ymd. intros H. branches. by split.
Qed.

Lemma valid_midnight (y m d : Z) :
  valid_date y m d = true → valid_datetime (midnight y m d) = true.
Proof. intros H. unfold valid_datetime, midnight. simpl. by rewrite H. Qed.

Lemma strptime_valid (s : string) (t : datetime) :
  strptime_Ymd s = Some t →
  valid_datetime t = true ∧ seconds_of_day t = 0 ∧ microsecond t = 0.
Proof.
  intros H. destruct (strptime_midnight s t H) as [E Hv].
  split; [rewrite E; by apply valid_midnight|]. by rewrite E.
Qed.

Lemma time_of_day_bounds (t : datetime) :
  valid_datetime t = true →
  0 ≤ seconds_of_day t < 86400 ∧ 0 ≤ microsecond t < 1000000.
Proof.
  unfold valid_datetime, valid_time, seconds_of_day. intros H.
  apply andb_true_iff in H as [_ H].
  repeat (apply andb_true_iff in H as [H ?]).
  repeat match goal with
         | H : (_ <=? _) = true |- _ => apply Z.leb_le in H
         | H : (_ <? _) = true |- _ => apply Z.ltb_lt in H
         end.
  lia.
Qed.

(** Adding no days to a valid datetime gives it back. *)
Lemma plus_days_0 (t : datetime) :
  valid_date (year t) (month t) (day t) = true → plus_days t 0 = t.
Proof.
  unfold valid_date. intros Hv.
  repeat (apply andb_true_iff in Hv as [Hv ?]).
  repeat match goal with
         | H : (_ <=? _) = true |- _ => apply Z.leb_le in H
         end.
  unfold plus_days, toordinal. rewrite Z.add_0_r.
  rewrite ord2ymd_ymd2ord by lia. by destruct t.
Qed.

Lemma stable_hex (n : Z) : stable_char (upper_char (hex_char n)) = true.
Proof.
  unfold hex_char.
  assert (H : 0 ≤ n mod 16 < 16) by (apply Z.mod_pos_bound; lia).
  assert (Hc : n mod 16 = 0 ∨ n mod 16 = 1 ∨ n mod 16 = 2 ∨ n mod 16 = 3 ∨
               n mod 16 = 4 ∨ n mod 16 = 5 ∨ n mod 16 = 6 ∨ n mod 16 = 7 ∨
               n mod 16 = 8 ∨ n mod 16 = 9 ∨ n mod 16 = 10 ∨ n mod 16 = 11 ∨
               n mod 16 = 12 ∨ n mod 16 = 13 ∨ n mod 16 = 14 ∨ n mod 16 = 15)
    by lia.
  destruct Hc as [->|[->|[->|[->|[->|[->|[->|[->|[->|[->|[->|[->|[->|[->|[->| ->]]]]]]]]]]]]]]];
    reflexivity.
Qed.

Lemma stable_lstrip (s : string) : all_chars stable_char s = true → lstrip s = s.
Proof.
  destruct s as [|c s]; [done|]. simpl. unfold stable_char.
  intros H. apply andb_true_iff in H as [H _]. apply andb_true_iff in H as [H _].
  apply negb_true_iff in H. by rewrite H.
Qed.

Lemma stable_rstrip (s : string) : all_chars stable_char s = true → rstrip s = s.
Proof.
  induction s as [|c s IH]; [done|]. simpl. unfold stable_char at 1.
  intros H. apply andb_true_iff in H as [H Hs]. apply andb_true_iff in H as [H _].
  apply negb_true_iff in H. rewrite (IH Hs), H. by destruct s.
Qed.

Lemma stable_upper (s : string) : all_chars stable_char s = true → upper s = s.
Proof.
  induction s as [|c s IH]; [done|]. simpl. unfold stable_char at 1.
  intros H. apply andb_true_iff in H as [H Hs]. apply andb_true_iff in H as [_ H].
  apply Ascii.eqb_eq in H. by rewrite (IH Hs), H.
Qed.

(** A generated key is its own normal form. *)
Lemma normalized_generated (v0 v1 v2 v3 : Z) :
  normalized (Some (key_of_draws v0 v1 v2 v3)) = key_of_draws v0 v1 v2 v3.
Proof.
  assert (H : all_chars stable_char (key_of_draws v0 v1 v2 v3) = true).
  { unfold key_of_draws, hex2.
    cbv beta iota fix delta [String.append upper all_chars].
    rewrite !stable_hex. reflexivity. }
  unfold normalized, strip. simpl default.
  by rewrite (stable_lstrip _ H), (stable_rstrip _ H), (stable_upper _ H).
Qed.

Lemma key_of_draws_nonempty (v0 v1 v2 v3 : Z) :
  key_of_draws v0 v1 v2 v3 ≠ EmptyString.
Proof. unfold key_of_draws. cbv beta iota fix delta [String.append]. done. Qed.

(** C7.  [/validate] answers [License has expired], logging [EXPIRED],
    exactly when midnight of the stored expiry day is strictly before the
    clock reading, both taken as instants on the microsecond scale; at or
    before that midnight an active license validates.  So a license that
    [/generate] has just issued with [duration_days] = 0 is already
    expired when it is validated later the same day. *)
Theorem zero_day_license_expired (req : validate_request) (w : world) :
  let k := normalized (vr_license_key req) in
  let reading := clock w (ticks w) in
  let r := (validate_license req w).1 in
  (∀ row y m d,
     k ≠ EmptyString →
     licenses (db w) !! k = Some row →
     expiry_date row = iso_date y m d →
     valid_date y m d = true →
     valid_datetime reading = true →
     let expiry := mkdt y m d 0 0 0 0 in
     (to_microseconds expiry < to_microseconds reading ↔
      field "message" r = Some (JStr "License has expired")) ∧
     (to_microseconds expiry < to_microseconds reading →
      validate_license req w =
        (jsonify [("valid", JBool false);
                  ("message", JStr "License has expired");
                  ("expires", JStr (expiry_date row))] 200,
         set_db (insert_log (db w) k (isoformat (clock w (S (ticks w))))
                            (vr_remote_addr req) "EXPIRED")
                (tick (tick w)))) ∧
     (to_microseconds reading ≤ to_microseconds expiry →
      status row = "active"%string →
      field "valid" r = Some (JBool true))) ∧
  (∀ greq w0 key,
     let gen := generate_license greq w0 in
     let issued := clock w0 (S (ticks w0)) in
     let checked := clock w0 (S (S (ticks w0))) in
     gr_duration_days greq = Some 0 →
     field "success" gen.1 = Some (JBool true) →
     field "license_key" gen.1 = Some (JStr key) →
     vr_license_key req = Some key →
     valid_datetime issued = true → valid_datetime checked = true →
     1000 ≤ year issued →
     year checked = year issued → month checked = month issued →
     day checked = day issued →
     to_microseconds issued < to_microseconds checked →
     field "expires" gen.1
       = Some (JStr (iso_date (year issued) (month issued) (day issued))) ∧
     field "valid" (validate_license req gen.2).1 = Some (JBool false) ∧
     field "message" (validate_license req gen.2).1
       = Some (JStr "License has expired") ∧
     ∃ e, validation_logs (db (validate_license req gen.2).2)
            = validation_logs (db w0) ++ [e] ∧
          result e = "EXPIRED"%string).
Proof.
  intros k reading r. subst reading r. split.
  - intros row y m d Hk Hrow Htext Hvd Hvr expiry.
    assert (He : strptime_Ymd (expiry_date row) = Some expiry)
      by (rewrite Htext; by apply strptime_iso_date).
    pose proof (datetime_lt_spec expiry (clock w (ticks w))
                  (valid_midnight y m d Hvd) Hvr) as Hspec.
    destruct (datetime_lt expiry (clock w (ticks w))) eqn:Hlt.
    + rewrite (validate_expired req w row expiry Hk Hrow He Hlt).
      split; [split; [reflexivity|intros _; by apply Hspec]|].
      split; [reflexivity|]. intros Hle.
      assert (to_microseconds expiry < to_microseconds (clock w (ticks w)))
        by (by apply Hspec). lia.
    + assert (Hnot : ¬ to_microseconds expiry
                       < to_microseconds (clock w (ticks w))).
      { intros H. apply Hspec in H. discriminate H. }
      split; [|split; [intros H; by destruct Hnot|]].
      * split; [intros H; by destruct Hnot|].
        destruct (decide (status row = "active"%string)) as [Hst|Hst].
        -- rewrite (validate_success req w row expiry Hk Hrow He Hlt Hst).
           intros H. discriminate H.
        -- rewrite (validate_inactive req w row expiry) by done.
           unfold field; simpl.
           cbv beta iota fix delta [String.append]. intros H. discriminate H.
      * intros _ Hst.
        by rewrite (validate_success req w row expiry Hk Hrow He Hlt Hst).
  - intros greq w0 key gen issued checked Hzero Hok Hkey Hreq Hvi Hvc Hyear
           Hy Hm Hd Hlater.
    subst gen issued checked.
    destruct (generate_cases greq w0)
      as [[Hf _]|(delta & expiry & Hdelta & Hadd & Hfree & Hgen)];
      [rewrite Hf in Hok; discriminate Hok|].
    rewrite Hgen in Hkey |- *. clear Hgen Hok. cbn [fst snd] in *.
    rewrite Hzero in Hdelta. cbn [default] in Hdelta.
    pose proof Hvi as Hvi'. unfold valid_datetime in Hvi'.
    apply andb_true_iff in Hvi' as [Hvd Hvt].
    rewrite (datetime_add_days _ 0 delta Hvt Hdelta) in Hadd.
    rewrite (plus_days_0 _ Hvd) in Hadd.
    destruct (_ && _); [|discriminate Hadd]. injection Hadd as <-.
    assert (Ek : key = next_key w0) by (injection Hkey as <-; reflexivity).
    clear Hkey. subst key.
    assert (Hnorm : normalized (vr_license_key req) = next_key w0)
      by (rewrite Hreq; apply normalized_generated).
    pose proof (strftime_iso_date (clock w0 (S (ticks w0))) Hyear) as Htext.
    split; [unfold field; simpl; by rewrite Htext|].
    assert (Hlt : datetime_lt
                    (midnight (year (clock w0 (S (ticks w0))))
                              (month (clock w0 (S (ticks w0))))
                              (day (clock w0 (S (ticks w0)))))
                    (clock w0 (S (S (ticks w0)))) = true).
    { apply datetime_lt_spec; [by apply valid_midnight|exact Hvc|].
      destruct (time_of_day_bounds _ Hvi) as [Bs Bus].
      unfold to_microseconds in Hlater |- *.
      change (toordinal (midnight _ _ _))
        with (toordinal (clock w0 (S (ticks w0)))).
      change (seconds_of_day (midnight _ _ _)) with 0.
      change (microsecond (midnight _ _ _)) with 0. lia. }
    match goal with
    | |- context [validate_license req ?w1] =>
        rewrite (validate_expired req w1
                   (mklicense (strip (default "" (gr_email greq)))
                      (default "NGC_EA"%string (gr_product greq))
                      (strftime_Ymd (clock w0 (ticks w0)))
                      (strftime_Ymd (clock w0 (S (ticks w0))))
                      "active" 0 (default 1 (gr_max_activations greq))
                      None None)
                   (midnight (year (clock w0 (S (ticks w0))))
                             (month (clock w0 (S (ticks w0))))
                             (day (clock w0 (S (ticks w0))))))
    end.
    + split; [reflexivity|]. split; [reflexivity|].
      eexists. split; reflexivity.
    + rewrite Hnorm. apply key_of_draws_nonempty.
    + rewrite Hnorm. cbn [db set_db licenses set_licenses].
      apply lookup_insert_eq.
    + cbn [expiry_date]. by apply strptime_strftime.
    + exact Hlt.
Qed.

Lemma zero_day_license_expired_witness :
  let gen := generate_license (generate_with (Some PLACEHOLDER) 0) fresh_world in
  let req := mkvalidate (Some "NGC-ABCD-ABCE-ABCF-ABD0") None None in
  let after := sample_world (sample_license "active" 0 1) noon_jan20 zeros ∅ in
  let at_midnight :=
    sample_world (sample_license "active" 0 1) (mkdt 2030 1 10 0 0 0 0) zeros ∅ in
  field "expires" gen.1 = Some (JStr "2030-01-08") ∧
  field "valid" (validate_license req gen.2).1 = Some (JBool false) ∧
  field "message" (validate_license req gen.2).1
    = Some (JStr "License has expired") ∧
  field "message" (validate_license validate_key after).1
    = Some (JStr "License has expired") ∧
  field "valid" (validate_license validate_key at_midnight).1
    = Some (JBool true).
Proof.
  intros gen req after at_midnight.
  destruct (proj2 (zero_day_license_expired req fresh_world)
              (generate_with (Some PLACEHOLDER) 0) fresh_world
              "NGC-ABCD-ABCE-ABCF-ABD0")
    as (Hexp & Hvalid & Hmsg & _);
    [reflexivity | reflexivity | reflexivity | reflexivity | reflexivity
    | reflexivity | vm_compute; congruence | reflexivity | reflexivity
    | reflexivity | reflexivity |].
  split; [exact Hexp|]. split; [exact Hvalid|]. split; [exact Hmsg|].
  split.
  - destruct (proj1 (zero_day_license_expired validate_key after)
                (sample_license "active" 0 1) 2030 1 10)
      as (Hiff & _ & _);
      [vm_compute; congruence | reflexivity | reflexivity | reflexivity
      | reflexivity |].
    apply (proj1 Hiff). reflexivity.
  - destruct (proj1 (zero_day_license_expired validate_key at_midnight)
                (sample_license "active" 0 1) 2030 1 10)
      as (_ & _ & Hok);
      [vm_compute; congruence | reflexivity | reflexivity | reflexivity
      | reflexivity |].
    apply Hok; [vm_compute; congruence | reflexivity].
Defined.

Example same_instant_at_midnight_not_expired :
  let t := mkdt 2030 1 10 0 0 0 0 in
  let w := sample_world (sample_license "active" 0 1) t zeros ∅ in
  field "valid" (validate_license validate_key w).1 = Some (JBool true).
Proof. reflexivity. Qed.

(* ===================================================================== *)
(** ** The validation log *)
(* ===================================================================== *)

(** C3, as the code has it.  A [/validate] call whose normalized key is
    empty is answered 400 and leaves the world, the log included, as it
    was.  A call with another key appends exactly one entry to the
    validation log, under the normalized key, and the entry's result names
    the outcome returned ([NOT_FOUND], [EXPIRED], [INACTIVE] or
    [SUCCESS]), provided the key is not stored or the stored expiry date
    parses, as the text [YYYY-MM-DD] of a day of the calendar does.  When
    the key is stored and its expiry date does not parse, as a date that
    [strftime] has printed for a year below 1000 does not, the call is
    answered 500 and appends nothing: the world is as it was. *)
Theorem validate_logs_once (req : validate_request) (w : world) :
  let k := normalized (vr_license_key req) in
  let r := (validate_license req w).1 in
  let w' := (validate_license req w).2 in
  (k = EmptyString → status_code r = 400 ∧ w' = w) ∧
  (k ≠ EmptyString →
   (∀ row, licenses (db w) !! k = Some row →
           is_Some (strptime_Ymd (expiry_date row))) →
   ∃ e, validation_logs (db w') = validation_logs (db w) ++ [e] ∧
        license_key e = k ∧
        ((licenses (db w) !! k = None ∧ result e = "NOT_FOUND"%string ∧
          field "valid" r = Some (JBool false) ∧
          field "message" r = Some (JStr "License key not found")) ∨
         (is_Some (licenses (db w) !! k) ∧ result e = "EXPIRED"%string ∧
          field "valid" r = Some (JBool false) ∧
          field "message" r = Some (JStr "License has expired")) ∨
         (∃ row, licenses (db w) !! k = Some row ∧
                 result e = "INACTIVE"%string ∧
                 field "valid" r = Some (JBool false) ∧
                 field "message" r
                   = Some (JStr ("License status: " +:+ status row))) ∨
         (is_Some (licenses (db w) !! k) ∧ result e = "SUCCESS"%string ∧
          field "valid" r = Some (JBool true)))) ∧
  (k ≠ EmptyString →
   ∀ row, licenses (db w) !! k = Some row →
          strptime_Ymd (expiry_date row) = None →
          status_code r = 500 ∧ field "valid" r = Some (JBool false) ∧ w' = w) ∧
  (∀ y m d, valid_date y m d = true →
            strptime_Ymd (iso_date y m d) = Some (mkdt y m d 0 0 0 0)) ∧
  (∀ t, valid_datetime t = true → year t < 1000 →
        strptime_Ymd (strftime_Ymd t) = None).
Proof.
  intros k r w'. subst r w'.
  split; [|split; [|split; [|split; [exact strptime_iso_date
                                    |intros t _; apply strptime_short_year]]]].
  - intros Hk. by rewrite validate_missing_key.
  - intros Hk Hdate.
    destruct (licenses (db w) !! k) as [row|] eqn:Hrow.
    + destruct (Hdate row eq_refl) as [expiry He].
      destruct (datetime_lt expiry (clock w (ticks w))) eqn:Hlt.
      { rewrite (validate_expired req w row expiry) by done.
        eexists. simpl. split; [done|]. split; [done|]. right; left. eauto. }
      destruct (decide (status row = "active"%string)) as [Hst|Hst].
      { rewrite (validate_success req w row expiry) by done.
        eexists. simpl. split; [done|]. split; [done|]. do 3 right. eauto. }
      rewrite (validate_inactive req w row expiry) by done.
      eexists. simpl. split; [done|]. split; [done|]. do 2 right; left. eauto.
    + rewrite validate_not_found by done.
      eexists. simpl. split; [done|]. split; [done|]. left. eauto.
  - intros Hk row Hrow He. by rewrite (validate_bad_date req w row).
Qed.

Lemma validate_logs_once_witness :
  let w := sample_world (sample_license "active" 0 1) noon_jan8 zeros ∅ in
  (∃ e, validation_logs (db (validate_license validate_key w).2) = [e] ∧
        result e = "SUCCESS"%string) ∧
  (validate_license (mkvalidate (Some "   ") None None) w).2 = w.
Proof.
  intros w. split.
  - destruct (proj1 (proj2 (validate_logs_once validate_key w))) as (e & He & _ & _).
    + vm_compute. congruence.
    + intros row H. vm_compute in H. injection H as <-. vm_compute. eauto.
    + exists e. split; [exact He|].
      vm_compute in He. injection He as <-. reflexivity.
  - apply (proj1 (validate_logs_once (mkvalidate (Some "   ") None None) w)).
    reflexivity.
Defined.

(** C3, as the specification words it, fails on a store that the
    endpoints themselves have built.  [/generate] accepts a negative
    [duration_days]; 400000 days before 8 January 2030 falls in the year
    934, which [strftime] prints on three digits.  The license is issued
    and stored, and a [/validate] call for its key, which is not empty,
    is answered 500 and appends no entry to the log. *)
Lemma validate_may_log_nothing :
  let gen :=
    generate_license (generate_with (Some PLACEHOLDER) (-400000)) fresh_world in
  let req := mkvalidate (Some "NGC-ABCD-ABCE-ABCF-ABD0") None None in
  field "success" gen.1 = Some (JBool true) ∧
  field "license_key" gen.1 = Some (JStr "NGC-ABCD-ABCE-ABCF-ABD0") ∧
  field "expires" gen.1 = Some (JStr "934-11-10") ∧
  normalized (vr_license_key req) ≠ EmptyString ∧
  status_code (validate_license req gen.2).1 = 500 ∧
  validation_logs (db (validate_license req gen.2).2)
    = validation_logs (db gen.2) ∧
  validation_logs (db (validate_license req gen.2).2) = [].
Proof. vm_compute. repeat split. congruence. Qed.

(* ===================================================================== *)
(** ** The ceiling across all endpoints *)
(* ===================================================================== *)

Lemma ceiling_ok_handle (r : request) (w : world) :
  (∀ req, r = Generate req → 0 ≤ default 1 (gr_max_activations req)) →
  ceiling_ok (db w) → ceiling_ok (db (handle r w).2).
Proof.
  intros Hgen Hw. destruct r as [req|req|req|key|api_key]; simpl.
  - (* validate *)
    set (k := normalized (vr_license_key req)).
    destruct (decide (k = EmptyString)) as [Hk|Hk];
      [by rewrite validate_missing_key|].
    destruct (licenses (db w) !! k) as [row|] eqn:Hrow;
      [|by rewrite validate_not_found].
    destruct (strptime_Ymd (expiry_date row)) as [expiry|] eqn:He;
      [|by rewrite (validate_bad_date req w row)].
    destruct (datetime_lt expiry (clock w (ticks w))) eqn:Hlt;
      [by rewrite (validate_expired req w row expiry)|].
    destruct (decide (status row = "active"%string)) as [Hst|Hst];
      [|by rewrite (validate_inactive req w row expiry)].
    rewrite (validate_success req w row expiry) by done. simpl.
    intros k' row' H. simpl in H. rewrite lookup_alter in H.
    case_decide as Hkk; [|by eapply Hw].
    fold k in H. rewrite Hrow in H. simplify_eq/=. by eapply Hw.
  - (* activate *)
    by apply (activate_all_ceiling [req]).
  - (* generate *)
    destruct (generate_cases req w)
      as [[_ ->]|(delta & expiry & _ & _ & _ & ->)]; [done|].
    simpl. intros k row H. simpl in H.
    apply lookup_insert_Some in H as [[_ <-]|[_ H]]; [|by eapply Hw].
    simpl. by apply Hgen.
  - (* check *)
    by rewrite check_db_frame.
  - (* stats *)
    destruct (key_mismatch api_key
                (default PLACEHOLDER (environ w !! "ADMIN_API_KEY"%string))) eqn:Hkey.
    + by rewrite stats_unauthorized.
    + by rewrite (proj1 (proj2 (stats_authorized api_key w Hkey))).
Qed.

(** Licenses are issued with no activation, so the ceiling holds in every
    store built from the empty database by requests that never ask for a
    negative [max_activations]. *)
Lemma ceiling_ok_serve (rs : list request) : ∀ w,
  ceilings_nonneg rs → ceiling_ok (db w) → ceiling_ok (db (serve rs w)).
Proof.
  induction rs as [|r rs IH]; intros w Hrs Hw; [done|].
  simpl. apply IH.
  - intros req Hin. apply Hrs. by right.
  - apply ceiling_ok_handle; [|done]. intros req ->. apply Hrs. by left.
Qed.

(** The read and the update of [/activate] are two statements.  Run one
    after the other they keep the ceiling (C1); were the reads of two
    requests both to precede the two updates, each read would see a count
    below the ceiling and the two updates would carry the count past it. *)
Remark interleaved_reads_pass_ceiling :
  let d0 := mkdb {[ KEY := sample_license "active" 0 1 ]} [] 0 in
  let read := select_license d0 KEY in
  let d2 := update_activations (update_activations d0 KEY) KEY in
  (λ row, max_activations row <=? activations row) <$> read = Some false ∧
  activations <$> select_license d2 KEY = Some 2.
Proof. split; reflexivity. Qed.

(* ===================================================================== *)
(** ** The activation ceiling *)
(* ===================================================================== *)

(** C1, as the code has it.  Over any run of [/activate] calls the
    stored [activations] of every license stays at or below its
    [max_activations], provided it was so before the run, as it is in
    every store built from the empty database by requests that never ask
    for a negative ceiling.  A call moves a counter only by adding 1 to a
    count read strictly below the ceiling; a call on an active license
    whose count has reached the ceiling answers [success: false] with the
    message [Maximum activations (<max>) reached] and leaves the world as
    it was. *)
Theorem activate_respects_ceiling (reqs : list activate_request) (w : world) :
  ceiling_ok (db w) →
  ceiling_ok (db (activate_all reqs w)) ∧
  (∀ req w0 k row,
     licenses (db w0) !! k = Some row →
     licenses (db (activate_license req w0).2) !! k = Some row ∨
     (activations row < max_activations row ∧
      licenses (db (activate_license req w0).2) !! k
        = Some (with_activations (activations row + 1) row))) ∧
  (∀ req w0 row,
     normalized (ar_license_key req) ≠ EmptyString →
     licenses (db w0) !! normalized (ar_license_key req) = Some row →
     status row = "active"%string →
     (activations row < max_activations row →
      field "success" (activate_license req w0).1 = Some (JBool true) ∧
      licenses (db (activate_license req w0).2) !! normalized (ar_license_key req)
        = Some (with_activations (activations row + 1) row)) ∧
     (max_activations row ≤ activations row →
      activate_license req w0 =
        (jsonify [("success", JBool false);
                  ("message",
                   JStr ("Maximum activations ("
                         +:+ str_of_int (max_activations row)
                         +:+ ") reached"))] 200, w0))) ∧
  (∀ rs w0, db w0 = init_db → ceilings_nonneg rs →
            ceiling_ok (db (serve rs w0))).
Proof.
  intros Hw. split; [by apply activate_all_ceiling|]. split; [|split].
  3: { intros rs w0 Hinit Hrs. apply ceiling_ok_serve; [done|].
       rewrite Hinit. intros k row H. simpl in H. by rewrite lookup_empty in H. }
  - intros req w0 k row Hrow. by apply activate_row.
  - intros req w0 row Hk Hrow Hst. split; intros Hmax.
    + rewrite (activate_below_ceiling req w0 row) by done. simpl.
      split; [done|]. by rewrite lookup_alter_eq, Hrow.
    + by apply activate_at_ceiling.
Qed.

Lemma activate_respects_ceiling_witness :
  let w := sample_world (sample_license "active" 0 1) noon_jan8 zeros ∅ in
  ceiling_ok (db w) ∧
  ceiling_ok (db (activate_all [activate_key; activate_key; activate_key] w)).
Proof.
  intros w.
  assert (Hw : ceiling_ok (db w)).
  { intros k row H. subst w. simpl in H. apply lookup_singleton_Some in H as [_ <-]. simpl. lia. }
  split; [exact Hw|].
  exact (proj1 (activate_respects_ceiling
                  [activate_key; activate_key; activate_key] w Hw)).
Defined.

(** C1, as the specification words it, fails for a license issued with a
    negative ceiling: its count, 0, is above [max_activations] = -1 from
    the start, and stays so after an [/activate] call, which answers that
    the limit is reached. *)
Lemma negative_ceiling_exceeded :
  let issue := mkgenerate (Some PLACEHOLDER) (Some "buyer@example.com") None None
                          (Some (-1)) in
  let gen := generate_license issue fresh_world in
  let key := next_key fresh_world in
  let act := activate_license (mkactivate (Some key) None) gen.2 in
  field "success" gen.1 = Some (JBool true) ∧
  field "license_key" gen.1 = Some (JStr key) ∧
  field "success" act.1 = Some (JBool false) ∧
  field "message" act.1 = Some (JStr "Maximum activations (-1) reached") ∧
  (λ row, (activations row, max_activations row))
    <$> licenses (db act.2) !! key = Some (0, -1) ∧
  ¬ ceiling_ok (db act.2).
Proof.
  vm_compute. repeat split.
  intros H. specialize (H "NGC-ABCD-ABCE-ABCF-ABD0"%string
    (mklicense "buyer@example.com" "NGC_EA" "2030-01-08" "2031-01-08" "active"
               0 (-1) None None) eq_refl).
  vm_compute in H. by apply H.
Qed.

Example activate_twice :
  let w := sample_world (sample_license "active" 0 1) noon_jan8 zeros ∅ in
  let r1 := activate_license activate_key w in
  let r2 := activate_license activate_key r1.2 in
  field "success" r1.1 = Some (JBool true) ∧
  field "activations_used" r1.1 = Some (JInt 1) ∧
  field "activations_remaining" r1.1 = Some (JInt 0) ∧
  field "success" r2.1 = Some (JBool false) ∧
  field "message" r2.1 = Some (JStr "Maximum activations (1) reached") ∧
  activations <$> licenses (db r2.2) !! KEY = Some 1.
Proof. vm_compute. repeat split. Qed.

(* ===================================================================== *)
(** ** Further properties of [/activate] *)
(* ===================================================================== *)

(** X1.  A run of [n] calls to [/activate] for one active license that
    starts at or below its ceiling leaves the stored count at
    [min (activations + n) max_activations]; the next call succeeds exactly
    when that count is still below the ceiling.  So of any number of calls
    exactly [max_activations - activations] succeed. *)
Theorem activations_saturate (req : activate_request) (n : nat) :
  ∀ (w : world) (row : license),
  normalized (ar_license_key req) ≠ EmptyString →
  licenses (db w) !! normalized (ar_license_key req) = Some row →
  status row = "active"%string →
  activations row ≤ max_activations row →
  let w' := activate_all (replicate n req) w in
  licenses (db w') !! normalized (ar_license_key req)
    = Some (with_activations
              (Z.min (activations row + Z.of_nat n) (max_activations row)) row) ∧
  field "success" (activate_license req w').1
    = Some (JBool (activations row + Z.of_nat n <? max_activations row)).
Proof.
  induction n as [|n IH]; intros w row Hk Hrow Hst Hle w'; subst w'.
  - simpl. rewrite Z.add_0_r, Z.min_l by lia.
    split; [by destruct row|].
    destruct (Z.ltb_spec (activations row) (max_activations row)).
    + by rewrite (activate_below_ceiling req w row).
    + by rewrite (activate_at_ceiling req w row).
  - cbn [replicate activate_all].
    destruct (Z.lt_ge_cases (activations row) (max_activations row)) as [Hlt|Hge].
    + rewrite (activate_below_ceiling req w row) by done. cbn [snd].
      set (w1 := set_db _ w).
      destruct (IH w1 (with_activations (activations row + 1) row)) as [H1 H2];
        try done.
      { subst w1. simpl. by rewrite lookup_alter_eq, Hrow. }
      { simpl. lia. }
      simpl in H1, H2. rewrite H1, H2.
      replace (activations row + 1 + Z.of_nat n)
        with (activations row + Z.of_nat (S n)) by lia.
      done.
    + rewrite (activate_at_ceiling req w row) by done. cbn [snd].
      destruct (IH w row) as [H1 H2]; try done.
      simpl in H1, H2. rewrite H1, H2.
      rewrite !Z.min_r by lia.
      split; [done|]. f_equal. f_equal.
      destruct (Z.ltb_spec (activations row + Z.of_nat n) (max_activations row)),
        (Z.ltb_spec (activations row + Z.of_nat (S n)) (max_activations row));
        try done; lia.
Qed.

Lemma activations_saturate_witness :
  let w := sample_world (sample_license "active" 1 3) noon_jan8 zeros ∅ in
  let w' := activate_all (replicate 5 activate_key) w in
  activations <$> licenses (db w') !! KEY = Some 3 ∧
  field "success" (activate_license activate_key w').1 = Some (JBool false).
Proof.
  intros w w'.
  destruct (activations_saturate activate_key 5 w (sample_license "active" 1 3))
    as [H1 H2]; [vm_compute; congruence | reflexivity | reflexivity
                | simpl; lia |].
  split; [exact (f_equal (fmap activations) H1) | exact H2].
Defined.



(** X3.  [/activate] touches nothing but the activation count of the row
    it was asked for: every other row is as before, no key appears or
    disappears, the other columns of the row keep their values, and the
    clock and the random source are not read. *)
Theorem activate_frame (req : activate_request) (w : world) :
  let w' := (activate_license req w).2 in
  (∀ k, k ≠ normalized (ar_license_key req) →
        licenses (db w') !! k = licenses (db w) !! k) ∧
  (∀ k, is_Some (licenses (db w') !! k) ↔ is_Some (licenses (db w) !! k)) ∧
  (∀ k row, licenses (db w) !! k = Some row →
            ∃ row', licenses (db w') !! k = Some row' ∧
                    row' = with_activations (activations row') row) ∧
  ticks w' = ticks w ∧ draws w' = draws w ∧ environ w' = environ w.
Proof.
  intros w'. subst w'.
  destruct (activate_db req w) as [E|(row & Hk & Hrow & Hst & Hlt & E)].
  - assert (Hw : ticks (activate_license req w).2 = ticks w ∧
                 draws (activate_license req w).2 = draws w ∧
                 environ (activate_license req w).2 = environ w).
    { clear E. run_handler. branches; done. }
    rewrite E. split; [done|]. split; [done|]. split; [|done].
    intros k row Hrow. exists row. split; [done|]. by destruct row.
  - rewrite (activate_below_ceiling req w row) by done. cbn [snd].
    split; [|split; [|split]]; simpl.
    + intros k Hne. by rewrite lookup_alter_ne.
    + intros k. rewrite lookup_alter. case_decide as Hkk; [|done].
      subst k. rewrite Hrow. simpl. split; intros _; by eexists.
    + intros k row0 Hrow0. rewrite lookup_alter. case_decide as Hkk.
      * subst k. rewrite Hrow in *. simplify_eq/=. eexists. split; [done|].
        by destruct row0.
      * exists row0. split; [done|]. by destruct row0.
    + done.
Qed.

(** X4.  [/activate] does not look at the expiry date: a license that
    [/validate] turns down as expired is still activated, as long as it is
    active and below its ceiling. *)
Theorem expired_license_still_activates (areq : activate_request)
    (vreq : validate_request) (w : world) (row : license) (expiry : datetime) :
  normalized (ar_license_key areq) ≠ EmptyString →
  normalized (vr_license_key vreq) = normalized (ar_license_key areq) →
  licenses (db w) !! normalized (ar_license_key areq) = Some row →
  status row = "active"%string →
  activations row < max_activations row →
  strptime_Ymd (expiry_date row) = Some expiry →
  datetime_lt expiry (clock w (ticks w)) = true →
  field "message" (validate_license vreq w).1
    = Some (JStr "License has expired") ∧
  field "success" (activate_license areq w).1 = Some (JBool true) ∧
  licenses (db (activate_license areq w).2) !! normalized (ar_license_key areq)
    = Some (with_activations (activations row + 1) row).
Proof.
  intros Hk Hv Hrow Hst Hlt He Hexp.
  rewrite (validate_expired vreq w row expiry) by (rewrite ?Hv; done).
  rewrite (activate_below_ceiling areq w row) by done.
  split; [done|]. split; [done|]. simpl. by rewrite lookup_alter_eq, Hrow.
Qed.

Lemma expired_license_still_activates_witness :
  let w := sample_world (sample_license "active" 0 1) noon_jan20 zeros ∅ in
  field "message" (validate_license validate_key w).1
    = Some (JStr "License has expired") ∧
  field "success" (activate_license activate_key w).1 = Some (JBool true).
Proof.
  intros w.
  destruct (expired_license_still_activates activate_key validate_key w
              (sample_license "active" 0 1) (midnight 2030 1 10))
    as (Hv & Ha & _);
    [vm_compute; congruence | reflexivity | reflexivity | reflexivity
    | simpl; lia | reflexivity | reflexivity |].
  exact (conj Hv Ha).
Defined.

Lemma activate_frame_witness :
  let w := sample_world (sample_license "active" 0 1) noon_jan8 zeros ∅ in
  let w' := (activate_license activate_key w).2 in
  licenses (db w') !! "NGC-FFFF-FFFF-FFFF-FFFF"%string = None ∧
  (∃ row', licenses (db w') !! KEY = Some row' ∧
           row' = with_activations (activations row') (sample_license "active" 0 1)).
Proof.
  intros w w'.
  destruct (activate_frame activate_key w) as (Hother & _ & Hrow & _).
  split.
  - exact (Hother "NGC-FFFF-FFFF-FFFF-FFFF"%string ltac:(vm_compute; congruence)).
  - exact (Hrow KEY (sample_license "active" 0 1) eq_refl).
Defined.

(* ===================================================================== *)
(** ** Further properties of [/validate] *)
(* ===================================================================== *)

Lemma alter_as_insert (f : license → license) (k : string) (row : license)
    (m : gmap string license) :
  m !! k = Some row → alter f k m = <[k := f row]> m.
Proof.
  intros Hrow. apply map_eq. intros k'.
  rewrite lookup_alter, lookup_insert.
  case_decide as Hk; [subst k'; by rewrite Hrow|done].
Qed.

(** X5.  [/validate] writes to [licenses] only when it answers
    [valid: true], and then only the [last_validated] stamp of the
    validated row, set to the clock reading taken for it; a refused
    validation (missing key, not found, expired, inactive, server error)
    leaves every license as it was. *)
Theorem validate_stamps_only_success (req : validate_request) (w : world) :
  let k := normalized (vr_license_key req) in
  let r := (validate_license req w).1 in
  let w' := (validate_license req w).2 in
  (field "valid" r = Some (JBool false) ∧ licenses (db w') = licenses (db w)) ∨
  (field "valid" r = Some (JBool true) ∧
   ∃ row, licenses (db w) !! k = Some row ∧
          licenses (db w')
            = <[k := with_last_validated (isoformat (clock w (S (ticks w)))) row]>
                (licenses (db w))).
Proof.
  intros k r w'. subst r w'.
  destruct (decide (k = EmptyString)) as [Hk|Hk];
    [rewrite validate_missing_key by done; by left|].
  destruct (licenses (db w) !! k) as [row|] eqn:Hrow;
    [|rewrite validate_not_found by done; by left].
  destruct (strptime_Ymd (expiry_date row)) as [expiry|] eqn:He;
    [|rewrite (validate_bad_date req w row) by done; by left].
  destruct (datetime_lt expiry (clock w (ticks w))) eqn:Hlt;
    [rewrite (validate_expired req w row expiry) by done; by left|].
  destruct (decide (status row = "active"%string)) as [Hst|Hst];
    [|rewrite (validate_inactive req w row expiry) by done; by left].
  rewrite (validate_success req w row expiry) by done. right.
  split; [done|]. exists row. split; [done|]. simpl.
  by apply alter_as_insert.
Qed.

(** X6.  The stamp of a successful validation is what [/check] then shows
    as [last_validated]; the other fields that [/check] shows for the
    license are those of the row before the validation. *)
Theorem validation_visible_to_check (req : validate_request) (w : world)
    (row : license) (expiry : datetime) (license_key : string) :
  normalized (vr_license_key req) ≠ EmptyString →
  licenses (db w) !! normalized (vr_license_key req) = Some row →
  status row = "active"%string →
  strptime_Ymd (expiry_date row) = Some expiry →
  datetime_lt expiry (clock w (ticks w)) = false →
  upper (strip license_key) = normalized (vr_license_key req) →
  let val := validate_license req w in
  let chk := check_license license_key val.2 in
  field "valid" val.1 = Some (JBool true) ∧
  field "last_validated" chk.1
    = Some (JStr (isoformat (clock w (S (ticks w))))) ∧
  field "activations" chk.1 = Some (JInt (activations row)) ∧
  field "expires" chk.1 = field "expires" val.1 ∧
  field "product" chk.1 = field "product" val.1.
Proof.
  intros Hk Hrow Hst He Hlt Hkey val chk. subst val chk.
  rewrite (validate_success req w row expiry) by done. cbn [fst snd].
  rewrite (check_found license_key _
             (with_last_validated (isoformat (clock w (S (ticks w)))) row) expiry).
  - repeat split.
  - rewrite Hkey. simpl. by rewrite lookup_alter_eq, Hrow.
  - done.
Qed.

Lemma validation_visible_to_check_witness :
  let w := sample_world (sample_license "active" 0 1) noon_jan8 zeros ∅ in
  field "last_validated" (check_license KEY (validate_license validate_key w).2).1
    = Some (JStr "2030-01-08T12:00:00").
Proof.
  intros w.
  exact (proj1 (proj2 (validation_visible_to_check validate_key w
           (sample_license "active" 0 1) (midnight 2030 1 10) KEY
           ltac:(vm_compute; congruence) eq_refl eq_refl eq_refl eq_refl eq_refl))).
Defined.

(** X7.  [/validate] tests the expiry date before the status: a license
    that is both expired and not active is reported as expired and logged
    as [EXPIRED], never as [INACTIVE]. *)
Theorem expiry_reported_before_status (req : validate_request) (w : world)
    (row : license) (expiry : datetime) :
  normalized (vr_license_key req) ≠ EmptyString →
  licenses (db w) !! normalized (vr_license_key req) = Some row →
  status row ≠ "active"%string →
  strptime_Ymd (expiry_date row) = Some expiry →
  let r := (validate_license req w).1 in
  let w' := (validate_license req w).2 in
  (datetime_lt expiry (clock w (ticks w)) = true →
   field "message" r = Some (JStr "License has expired") ∧
   result <$> last (validation_logs (db w')) = Some "EXPIRED"%string) ∧
  (datetime_lt expiry (clock w (ticks w)) = false →
   field "message" r = Some (JStr ("License status: " +:+ status row)) ∧
   result <$> last (validation_logs (db w')) = Some "INACTIVE"%string).
Proof.
  intros Hk Hrow Hst He r w'. subst r w'. split; intros Hlt.
  - rewrite (validate_expired req w row expiry) by done. simpl.
    by rewrite last_snoc.
  - rewrite (validate_inactive req w row expiry) by done. simpl.
    by rewrite last_snoc.
Qed.

Lemma expiry_reported_before_status_witness :
  let w := sample_world (sample_license "revoked" 0 1) noon_jan20 zeros ∅ in
  let w0 := sample_world (sample_license "revoked" 0 1) noon_jan8 zeros ∅ in
  field "message" (validate_license validate_key w).1
    = Some (JStr "License has expired") ∧
  field "message" (validate_license validate_key w0).1
    = Some (JStr "License status: revoked").
Proof.
  intros w w0. split.
  - exact (proj1 (proj1 (expiry_reported_before_status validate_key w
             (sample_license "revoked" 0 1) (midnight 2030 1 10)
             ltac:(vm_compute; congruence) eq_refl
             ltac:(vm_compute; congruence) eq_refl) eq_refl)).
  - exact (proj1 (proj2 (expiry_reported_before_status validate_key w0
             (sample_license "revoked" 0 1) (midnight 2030 1 10)
             ltac:(vm_compute; congruence) eq_refl
             ltac:(vm_compute; congruence) eq_refl) eq_refl)).
Defined.

(** X8.  [/check] and [/validate] agree on expiry: read at the same clock
    reading, a license that [/validate] turns down as expired is shown by
    [/check] with status [expired], and one that [/check] shows under its
    stored status, other than [expired], is not turned down as expired. *)
Theorem check_agrees_with_validate (req : validate_request)
    (license_key : string) (w : world) (row : license) (expiry : datetime) :
  normalized (vr_license_key req) ≠ EmptyString →
  upper (strip license_key) = normalized (vr_license_key req) →
  licenses (db w) !! normalized (vr_license_key req) = Some row →
  strptime_Ymd (expiry_date row) = Some expiry →
  status row ≠ "expired"%string →
  field "message" (validate_license req w).1
    = Some (JStr "License has expired")
  ↔ field "status" (check_license license_key w).1 = Some (JStr "expired").
Proof.
  intros Hk Hkey Hrow He Hst.
  rewrite (check_found license_key w row expiry) by (rewrite ?Hkey; done).
  unfold field at 2; simpl.
  destruct (datetime_lt expiry (clock w (ticks w))) eqn:Hlt.
  - by rewrite (validate_expired req w row expiry).
  - destruct (decide (status row = "active"%string)) as [Hact|Hact].
    + rewrite (validate_success req w row expiry) by done.
      split; [intros H; discriminate H | intros H; congruence].
    + rewrite (validate_inactive req w row expiry) by done.
      split; [|intros H; congruence].
      unfold field; simpl. cbv beta iota fix delta [String.append].
      intros H; discriminate H.
Qed.

Lemma check_agrees_with_validate_witness :
  let w := sample_world (sample_license "active" 0 1) noon_jan20 zeros ∅ in
  field "status" (check_license KEY w).1 = Some (JStr "expired").
Proof.
  intros w.
  apply (proj1 (check_agrees_with_validate validate_key KEY w
           (sample_license "active" 0 1) (midnight 2030 1 10)
           ltac:(vm_compute; congruence) eq_refl eq_refl eq_refl
           ltac:(vm_compute; congruence))).
  reflexivity.
Defined.

(* ===================================================================== *)
(** ** Further properties of the administrative operations *)
(* ===================================================================== *)

(** With the right secret [/generate] answers 400, 500 or 200. *)
Lemma generate_authorized_status (req : generate_request) (w : world) :
  key_mismatch (gr_api_key req)
    (default PLACEHOLDER (environ w !! "ADMIN_API_KEY"%string)) = false →
  status_code (generate_license req w).1 = 400 ∨
  status_code (generate_license req w).1 = 500 ∨
  status_code (generate_license req w).1 = 200.
Proof.
  intros Hkey.
  destruct (decide (strip (default "" (gr_email req)) = EmptyString)) as [He|He];
    [rewrite generate_no_email by done; by left|].
  destruct (timedelta_days (default 365 (gr_duration_days req)))
    as [delta|] eqn:Hd;
    [|rewrite generate_bad_duration by done; right; by left].
  destruct (datetime_add (clock w (S (ticks w))) delta) as [expiry|] eqn:Ha;
    [|rewrite (generate_out_of_range req w delta) by done; right; by left].
  destruct (fits_int64 (default 1 (gr_max_activations req))) eqn:Hfit;
    [|rewrite (generate_int_too_large req w delta expiry) by done;
      right; by left].
  destruct (licenses (db w) !! next_key w) as [old|] eqn:Hold;
    [rewrite (generate_collision req w delta expiry) by (done || by eexists);
     right; by left|].
  rewrite (generate_inserted req w delta expiry) by done. right; by right.
Qed.

(** X9.  Whatever the environment holds, [/generate] and [/stats] answer
    401 exactly when the [X-API-Key] header is absent or differs from the
    configured secret, and a 401 leaves the whole world untouched: no key
    is drawn, the clock is not read, nothing is stored. *)
Theorem admin_gate (req : generate_request) (w : world) :
  let api_key := gr_api_key req in
  (status_code (get_stats api_key w).1 = 401 ↔ api_key ≠ Some (admin_secret w)) ∧
  (status_code (generate_license req w).1 = 401
   ↔ api_key ≠ Some (admin_secret w)) ∧
  (api_key ≠ Some (admin_secret w) →
   (get_stats api_key w).2 = w ∧ (generate_license req w).2 = w).
Proof.
  intros api_key. subst api_key. unfold admin_secret.
  destruct (key_mismatch (gr_api_key req)
              (default PLACEHOLDER (environ w !! "ADMIN_API_KEY"%string))) eqn:Hkey.
  - assert (Hne : gr_api_key req
                  ≠ Some (default PLACEHOLDER (environ w !! "ADMIN_API_KEY"%string))).
    { intros H. apply key_mismatch_false in H. congruence. }
    rewrite stats_unauthorized, generate_unauthorized by done. simpl.
    by repeat split.
  - pose proof Hkey as Heq. apply key_mismatch_false in Heq.
    destruct (stats_authorized (gr_api_key req) w Hkey) as (Hs & _ & _).
    split; [|split].
    + rewrite Hs. split; [intros H; discriminate H | intros H; by destruct H].
    + split; [|intros H; by destruct H]. intros H. exfalso.
      destruct (generate_authorized_status req w Hkey) as [E|[E|E]];
        rewrite E in H; discriminate H.
    + intros H. by destruct H.
Qed.

Lemma admin_gate_witness :
  let w := sample_world (sample_license "active" 0 1) noon_jan8 fresh
                        {[ "ADMIN_API_KEY"%string := "s3cret"%string ]} in
  (get_stats (Some PLACEHOLDER) w).2 = w ∧
  (generate_license (generate_with (Some PLACEHOLDER) 30) w).2 = w ∧
  status_code (get_stats None w).1 = 401.
Proof.
  intros w.
  destruct (admin_gate (generate_with (Some PLACEHOLDER) 30) w) as (_ & _ & H).
  destruct H as [Hs Hg]; [vm_compute; congruence|].
  split; [exact Hs|]. split; [exact Hg|].
  apply (proj2 (proj1 (admin_gate (mkgenerate None None None None None) w))).
  vm_compute. congruence.
Defined.

(** X10.  [/generate] is all or nothing: it answers [success: true]
    exactly when it has stored one new row, under a key that was free, and
    grown the table by one; on every other answer (401, 400, 500) the
    database is exactly as before. *)
Theorem generate_all_or_nothing (req : generate_request) (w : world) :
  let r := (generate_license req w).1 in
  let w' := (generate_license req w).2 in
  (field "success" r = Some (JBool false) ∧ db w' = db w) ∨
  (field "success" r = Some (JBool true) ∧ status_code r = 200 ∧
   field "license_key" r = Some (JStr (next_key w)) ∧
   licenses (db w) !! next_key w = None ∧
   is_Some (licenses (db w') !! next_key w) ∧
   size (licenses (db w')) = S (size (licenses (db w))) ∧
   ∀ k, k ≠ next_key w → licenses (db w') !! k = licenses (db w) !! k).
Proof.
  intros r w'. subst r w'.
  destruct (generate_cases req w)
    as [[Hf Hdb]|(delta & expiry & _ & _ & Hfree & Hgen)]; [by left|].
  right. rewrite Hgen. cbn [fst snd]. simpl.
  split; [done|]. split; [done|]. split; [done|]. split; [done|].
  split; [rewrite lookup_insert_eq; by eexists|].
  split; [by apply map_size_insert_None|].
  intros k Hne. by rewrite lookup_insert_ne.
Qed.

(** X11.  A request with no email, or one made of white space only, is
    refused with 400 [Email is required] before anything happens: no key
    is drawn, the clock is not read and no row is stored.  When the other
    fields are absent their defaults apply: product [NGC_EA], 365 days,
    one activation. *)
Theorem generate_needs_email (req : generate_request) (w : world) :
  gr_api_key req = Some (admin_secret w) →
  (strip (default "" (gr_email req)) = EmptyString →
   generate_license req w
     = (jsonify [("success", JBool false);
                 ("message", JStr "Email is required")] 400, w)) ∧
  (field "success" (generate_license req w).1 = Some (JBool true) →
   strip (default "" (gr_email req)) ≠ EmptyString ∧
   field "email" (generate_license req w).1
     = Some (JStr (strip (default "" (gr_email req)))) ∧
   (gr_product req = None →
    field "product" (generate_license req w).1 = Some (JStr "NGC_EA")) ∧
   (gr_max_activations req = None →
    field "max_activations" (generate_license req w).1 = Some (JInt 1)) ∧
   (gr_duration_days req = None →
    valid_time (hour (clock w (S (ticks w)))) (minute (clock w (S (ticks w))))
               (second (clock w (S (ticks w))))
               (microsecond (clock w (S (ticks w)))) = true →
    field "expires" (generate_license req w).1
      = Some (JStr (strftime_Ymd (plus_days (clock w (S (ticks w))) 365))))).
Proof.
  unfold admin_secret. intros Hkey. apply key_mismatch_false in Hkey. split.
  - intros He. by apply generate_no_email.
  - intros Hok.
    destruct (generate_cases req w)
      as [[Hf _]|(delta & expiry & Hd & Hadd & _ & Hgen)];
      [rewrite Hf in Hok; discriminate Hok|].
    split.
    { intros He. rewrite generate_no_email in Hok by done. discriminate Hok. }
    rewrite Hgen. cbn [fst]. split; [done|].
    split; [by intros ->|]. split; [by intros ->|].
    intros Hnone Hvt. rewrite Hnone in Hd. simpl in Hd.
    rewrite (datetime_add_days _ 365 delta Hvt Hd) in Hadd.
    destruct (_ && _); [|discriminate Hadd]. injection Hadd as <-. done.
Qed.

Lemma generate_needs_email_witness :
  let w := sample_world (sample_license "active" 0 1) noon_jan8 fresh ∅ in
  let blank := mkgenerate (Some PLACEHOLDER) (Some "    ") None None None in
  let plain := mkgenerate (Some PLACEHOLDER) (Some " a@b.c ") None None None in
  (generate_license blank w).2 = w ∧
  field "email" (generate_license plain w).1 = Some (JStr "a@b.c") ∧
  field "expires" (generate_license plain w).1 = Some (JStr "2031-01-08").
Proof.
  intros w blank plain.
  destruct (generate_needs_email blank w eq_refl) as [Hblank _].
  destruct (generate_needs_email plain w eq_refl) as [_ Hplain].
  destruct (Hplain eq_refl) as (_ & Hemail & _ & _ & Hexp).
  split; [exact (f_equal snd (Hblank eq_refl))|].
  split; [exact Hemail|].
  exact (Hexp eq_refl eq_refl).
Defined.

(* ===================================================================== *)
(** ** The key generator and the normal form of a key *)
(* ===================================================================== *)

Lemma upper_hex_char (n : Z) : is_upper_hex (upper_char (hex_char n)) = true.
Proof.
  unfold hex_char.
  assert (H : 0 ≤ n mod 16 < 16) by (apply Z.mod_pos_bound; lia).
  assert (Hc : n mod 16 = 0 ∨ n mod 16 = 1 ∨ n mod 16 = 2 ∨ n mod 16 = 3 ∨
               n mod 16 = 4 ∨ n mod 16 = 5 ∨ n mod 16 = 6 ∨ n mod 16 = 7 ∨
               n mod 16 = 8 ∨ n mod 16 = 9 ∨ n mod 16 = 10 ∨ n mod 16 = 11 ∨
               n mod 16 = 12 ∨ n mod 16 = 13 ∨ n mod 16 = 14 ∨ n mod 16 = 15)
    by lia.
  destruct Hc as [->|[->|[->|[->|[->|[->|[->|[->|[->|[->|[->|[->|[->|[->|[->| ->]]]]]]]]]]]]]]];
    reflexivity.
Qed.

Lemma next_key_format (w : world) : key_format_ok (next_key w) = true.
Proof.
  unfold next_key, key_of_draws, hex2.
  cbv beta iota fix delta [String.append upper key_format_ok
                           hex_group_dash hex_group].
  repeat (progress (rewrite ?upper_hex_char; cbv beta iota delta [andb])).
  reflexivity.
Qed.

(** X12.  [generate_license_key] always returns a key of the shape
    [NGC-XXXX-XXXX-XXXX-XXXX], 23 characters with four groups of four
    uppercase hexadecimal digits, whatever the random source yields; it
    takes four draws and touches nothing else. *)
Theorem generated_key_format (w : world) :
  ∃ key, generate_license_key w
           = (inr key, draw (draw (draw (draw w)))) ∧
         key = next_key w ∧
         key_format_ok key = true ∧
         String.length key = 23%nat.
Proof.
  exists (next_key w). split; [reflexivity|]. split; [reflexivity|].
  split; [apply next_key_format|].
  unfold next_key, key_of_draws, hex2.
  cbv beta iota fix delta [String.append upper String.length]. reflexivity.
Qed.

Lemma hex_val_char (n : Z) : hex_val (upper_char (hex_char n)) = n mod 16.
Proof.
  unfold hex_char.
  assert (H : 0 ≤ n mod 16 < 16) by (apply Z.mod_pos_bound; lia).
  assert (Hc : n mod 16 = 0 ∨ n mod 16 = 1 ∨ n mod 16 = 2 ∨ n mod 16 = 3 ∨
               n mod 16 = 4 ∨ n mod 16 = 5 ∨ n mod 16 = 6 ∨ n mod 16 = 7 ∨
               n mod 16 = 8 ∨ n mod 16 = 9 ∨ n mod 16 = 10 ∨ n mod 16 = 11 ∨
               n mod 16 = 12 ∨ n mod 16 = 13 ∨ n mod 16 = 14 ∨ n mod 16 = 15)
    by lia.
  destruct Hc as [->|[->|[->|[->|[->|[->|[->|[->|[->|[->|[->|[->|[->|[->|[->| ->]]]]]]]]]]]]]]];
    reflexivity.
Qed.

Lemma hex2_inj (u v : Z) :
  upper (hex2 u) = upper (hex2 v) → u mod 65536 = v mod 65536.
Proof.
  unfold hex2. cbv beta iota fix delta [upper]. intros H.
  injection H as H3 H2 H1 H0.
  apply (f_equal hex_val) in H3, H2, H1, H0.
  rewrite !hex_val_char in *.
  Z.div_mod_to_equations. lia.
Qed.

Lemma append_upper_hex2_inj (u v : Z) (r s : string) :
  upper (hex2 u) +:+ r = upper (hex2 v) +:+ s →
  upper (hex2 u) = upper (hex2 v) ∧ r = s.
Proof.
  unfold hex2. cbv beta iota fix delta [upper String.append]. intros H.
  injection H as -> -> -> -> ->. done.
Qed.

Lemma append_cancel (p a b : string) : p +:+ a = p +:+ b → a = b.
Proof.
  induction p as [|c p IH]; [done|].
  cbv beta iota fix delta [String.append]. intros H. injection H as H.
  by apply IH.
Qed.

(** X13.  The key spells out its four draws: two runs of the generator
    return the same key only if their draws agree, 16 bits each, so keys
    collide no more often than the random source repeats itself. *)
Theorem key_of_draws_injective (u0 u1 u2 u3 v0 v1 v2 v3 : Z) :
  key_of_draws u0 u1 u2 u3 = key_of_draws v0 v1 v2 v3 →
  u0 mod 65536 = v0 mod 65536 ∧ u1 mod 65536 = v1 mod 65536 ∧
  u2 mod 65536 = v2 mod 65536 ∧ u3 mod 65536 = v3 mod 65536.
Proof.
  unfold key_of_draws. intros H.
  apply append_cancel, append_upper_hex2_inj in H as [H0 H].
  apply append_cancel, append_upper_hex2_inj in H as [H1 H].
  apply append_cancel, append_upper_hex2_inj in H as [H2 H].
  apply append_cancel in H.
  auto using hex2_inj.
Qed.

Lemma key_of_draws_injective_witness :
  key_of_draws 1 2 3 4 = key_of_draws 65537 2 3 4 ∧
  1 mod 65536 = 65537 mod 65536.
Proof.
  split; [reflexivity|].
  exact (proj1 (key_of_draws_injective 1 2 3 4 65537 2 3 4 eq_refl)).
Defined.

Lemma is_space_upper (c : ascii) : is_space (upper_char c) = is_space c.
Proof. destruct c as [[] [] [] [] [] [] [] []]; reflexivity. Qed.

Lemma upper_char_idem (c : ascii) : upper_char (upper_char c) = upper_char c.
Proof. destruct c as [[] [] [] [] [] [] [] []]; reflexivity. Qed.

Lemma upper_idem (s : string) : upper (upper s) = upper s.
Proof. induction s as [|c s IH]; [done|]. simpl. by rewrite upper_char_idem, IH. Qed.

Lemma lstrip_upper (s : string) : lstrip (upper s) = upper (lstrip s).
Proof.
  induction s as [|c s IH]; [done|]. simpl. rewrite is_space_upper.
  by destruct (is_space c).
Qed.

Lemma rstrip_upper (s : string) : rstrip (upper s) = upper (rstrip s).
Proof.
  induction s as [|c s IH]; [done|]. simpl. rewrite IH, is_space_upper.
  destruct (rstrip s); simpl; [by destruct (is_space c)|done].
Qed.

Lemma rstrip_idem (s : string) : rstrip (rstrip s) = rstrip s.
Proof.
  induction s as [|c s IH]; [done|]. simpl.
  destruct (rstrip s) as [|c' r] eqn:Hr.
  - destruct (is_space c) eqn:Hc; [done|]. simpl. by rewrite Hc.
  - cbn [rstrip]. fold rstrip. simpl in IH. by rewrite IH.
Qed.

Lemma lstrip_clean (s : string) : starts_clean (lstrip s) = true.
Proof.
  induction s as [|c s IH]; [done|]. simpl.
  destruct (is_space c) eqn:Hc; [done|]. simpl. by rewrite Hc.
Qed.

Lemma rstrip_clean (s : string) :
  starts_clean s = true → starts_clean (rstrip s) = true.
Proof.
  destruct s as [|c s]; [done|]. simpl. intros Hc.
  apply negb_true_iff in Hc. rewrite Hc.
  destruct (rstrip s); simpl; by rewrite Hc.
Qed.

Lemma lstrip_of_clean (s : string) : starts_clean s = true → lstrip s = s.
Proof.
  destruct s as [|c s]; [done|]. simpl. intros Hc.
  apply negb_true_iff in Hc. by rewrite Hc.
Qed.

Lemma strip_idem (s : string) : strip (strip s) = strip s.
Proof.
  unfold strip.
  rewrite (lstrip_of_clean (rstrip (lstrip s)))
    by apply rstrip_clean, lstrip_clean.
  apply rstrip_idem.
Qed.

Lemma strip_upper (s : string) : strip (upper s) = upper (strip s).
Proof. unfold strip. by rewrite lstrip_upper, rstrip_upper. Qed.

(** X14.  The handlers see a key only through its normal form, the text
    trimmed and uppercased: normalizing twice changes nothing, and two
    requests whose keys have the same normal form get the same answer and
    leave the same world, for [/validate], [/activate] and [/check]
    alike. *)
Theorem key_normal_form (w : world) :
  (∀ raw, normalized (Some (normalized raw)) = normalized raw) ∧
  (∀ k1 k2 acct ip,
     normalized k1 = normalized k2 →
     validate_license (mkvalidate k1 acct ip) w
       = validate_license (mkvalidate k2 acct ip) w) ∧
  (∀ k1 k2 acct,
     normalized k1 = normalized k2 →
     activate_license (mkactivate k1 acct) w
       = activate_license (mkactivate k2 acct) w) ∧
  (∀ k1 k2,
     normalized (Some k1) = normalized (Some k2) →
     check_license k1 w = check_license k2 w).
Proof.
  split; [|split; [|split]].
  - intros raw. unfold normalized. simpl default.
    by rewrite strip_upper, strip_idem, upper_idem.
  - intros k1 k2 acct ip H. unfold normalized in H.
    unfold validate_license, validate_body.
    cbn [vr_license_key vr_account_number vr_remote_addr]. by rewrite H.
  - intros k1 k2 acct H. unfold normalized in H.
    unfold activate_license, activate_body.
    cbn [ar_license_key ar_account_number]. by rewrite H.
  - intros k1 k2 H. unfold normalized in H. simpl default in H.
    unfold check_license, check_body. by rewrite H.
Qed.

Lemma key_normal_form_witness :
  let w := sample_world (sample_license "active" 0 1) noon_jan8 zeros ∅ in
  validate_license (mkvalidate (Some " ngc-0000-0000-0000-0000 ") None None) w
    = validate_license (mkvalidate (Some KEY) None None) w ∧
  check_license "ngc-0000-0000-0000-0000  " w = check_license KEY w.
Proof.
  intros w.
  destruct (key_normal_form w) as (_ & Hv & _ & Hc).
  split; [apply Hv | apply Hc]; reflexivity.
Defined.

(* ===================================================================== *)
(** ** Issued licenses, as the other endpoints see them *)
(* ===================================================================== *)

(** X15.  A license that [/generate] has issued with an expiry date of
    ten characters, that is in a year of four digits, is found by
    [/check] under the key returned, with the email, product, dates and
    ceiling of the issuing response, no activation and no validation
    stamp.  One issued with a shorter expiry date, in a year below 1000 as
    a large negative [duration_days] gives, is stored all the same, and
    [/check] answers 500 for it. *)
Theorem issued_license_is_found (req : generate_request) (w : world)
    (key expires : string) :
  let gen := generate_license req w in
  let chk := check_license key gen.2 in
  field "success" gen.1 = Some (JBool true) →
  field "license_key" gen.1 = Some (JStr key) →
  field "expires" gen.1 = Some (JStr expires) →
  (String.length expires = 10%nat →
   status_code chk.1 = 200 ∧
   field "found" chk.1 = Some (JBool true) ∧
   field "license_key" chk.1 = Some (JStr key) ∧
   field "email" chk.1 = field "email" gen.1 ∧
   field "product" chk.1 = field "product" gen.1 ∧
   field "created" chk.1 = field "created" gen.1 ∧
   field "expires" chk.1 = field "expires" gen.1 ∧
   field "max_activations" chk.1 = field "max_activations" gen.1 ∧
   field "activations" chk.1 = Some (JInt 0) ∧
   field "last_validated" chk.1 = Some JNull) ∧
  (String.length expires ≠ 10%nat →
   status_code chk.1 = 500 ∧ field "found" chk.1 = Some (JBool false) ∧
   is_Some (licenses (db gen.2) !! key)).
Proof.
  intros gen chk Hok Hkey Hexp. subst gen chk.
  destruct (generate_cases req w)
    as [[Hf _]|(delta & expiry & _ & Hadd & _ & Hgen)];
    [rewrite Hf in Hok; discriminate Hok|].
  rewrite Hgen in Hkey, Hexp |- *. clear Hgen Hok. cbn [fst snd] in *.
  assert (Ek : key = next_key w) by (injection Hkey as <-; reflexivity).
  assert (Ee : expires = strftime_Ymd expiry)
    by (injection Hexp as <-; reflexivity).
  clear Hkey Hexp. subst key expires.
  assert (Hnorm : upper (strip (next_key w)) = next_key w)
    by apply (normalized_generated _ _ _ _).
  pose proof (datetime_add_valid _ _ _ Hadd) as Hvd.
  pose proof (strftime_length expiry) as Hlen.
  match goal with |- context [check_license _ ?w1] => set (w1' := w1) end.
  assert (Hrow : licenses (db w1') !! upper (strip (next_key w))
                 = Some (mklicense (strip (default "" (gr_email req)))
                           (default "NGC_EA"%string (gr_product req))
                           (strftime_Ymd (clock w (ticks w)))
                           (strftime_Ymd expiry) "active" 0
                           (default 1 (gr_max_activations req)) None None)).
  { rewrite Hnorm. subst w1'. cbn [db set_db licenses set_licenses].
    apply lookup_insert_eq. }
  split.
  - intros H10. apply Hlen in H10.
    rewrite (check_found (next_key w) w1' _
               (midnight (year expiry) (month expiry) (day expiry)) Hrow)
      by (cbn [expiry_date]; by apply strptime_strftime).
    rewrite Hnorm. repeat split.
  - intros H10.
    assert (Hshort : year expiry < 1000)
      by (destruct (Z.lt_ge_cases (year expiry) 1000) as [|Hge];
          [done|by destruct H10; apply Hlen]).
    rewrite (check_bad_date (next_key w) w1' _ Hrow)
      by (cbn [expiry_date]; by apply strptime_short_year).
    split; [reflexivity|]. split; [reflexivity|].
    rewrite Hnorm in Hrow. cbn [snd]. by eexists.
Qed.

Lemma issued_license_is_found_witness :
  let gen := generate_license (generate_with (Some PLACEHOLDER) 30) fresh_world in
  let old :=
    generate_license (generate_with (Some PLACEHOLDER) (-400000)) fresh_world in
  field "found" (check_license "NGC-ABCD-ABCE-ABCF-ABD0" gen.2).1
    = Some (JBool true) ∧
  field "expires" (check_license "NGC-ABCD-ABCE-ABCF-ABD0" gen.2).1
    = Some (JStr "2030-02-07") ∧
  field "expires" old.1 = Some (JStr "934-11-10") ∧
  status_code (check_license "NGC-ABCD-ABCE-ABCF-ABD0" old.2).1 = 500.
Proof.
  intros gen old.
  destruct (proj1 (issued_license_is_found (generate_with (Some PLACEHOLDER) 30)
                     fresh_world "NGC-ABCD-ABCE-ABCF-ABD0" "2030-02-07"
                     eq_refl eq_refl eq_refl) eq_refl)
    as (_ & Hfound & _ & _ & _ & _ & Hexp & _).
  split; [exact Hfound|]. split; [exact (eq_trans Hexp eq_refl)|].
  split; [reflexivity|].
  apply (proj2 (issued_license_is_found
                  (generate_with (Some PLACEHOLDER) (-400000))
                  fresh_world "NGC-ABCD-ABCE-ABCF-ABD0" "934-11-10"
                  eq_refl eq_refl eq_refl)).
  vm_compute. congruence.
Defined.

(* ===================================================================== *)
(** ** What no endpoint ever does *)
(* ===================================================================== *)

Lemma same_license_refl (a : license) : same_license a a.
Proof. unfold same_license. repeat split; lia. Qed.

Lemma same_license_trans (a b c : license) :
  same_license a b → same_license b c → same_license a c.
Proof.
  unfold same_license.
  intros (? & ? & ? & ? & ? & ? & ? & ?) (? & ? & ? & ? & ? & ? & ? & ?).
  repeat split; try congruence; lia.
Qed.

Lemma handle_keeps_license (r : request) (w : world) (k : string) (row : license) :
  licenses (db w) !! k = Some row →
  ∃ row', licenses (db (handle r w).2) !! k = Some row' ∧ same_license row row'.
Proof.
  intros Hrow.
  assert (Hsame : db (handle r w).2 = db w →
    ∃ row', licenses (db (handle r w).2) !! k = Some row' ∧ same_license row row').
  { intros ->. exists row. split; [done|apply same_license_refl]. }
  destruct r as [req|req|req|key|api_key]; simpl in *.
  - set (kv := normalized (vr_license_key req)).
    destruct (decide (kv = EmptyString)) as [Hk|Hk];
      [apply Hsame; by rewrite validate_missing_key|].
    destruct (licenses (db w) !! kv) as [rowv|] eqn:Hrowv.
    2: { rewrite validate_not_found by done. simpl. exists row.
         split; [done|apply same_license_refl]. }
    destruct (strptime_Ymd (expiry_date rowv)) as [expiry|] eqn:He;
      [|apply Hsame; by rewrite (validate_bad_date req w rowv)].
    destruct (datetime_lt expiry (clock w (ticks w))) eqn:Hlt.
    { rewrite (validate_expired req w rowv expiry) by done. simpl. exists row.
      split; [done|apply same_license_refl]. }
    destruct (decide (status rowv = "active"%string)) as [Hst|Hst].
    2: { rewrite (validate_inactive req w rowv expiry) by done. simpl.
         exists row. split; [done|apply same_license_refl]. }
    rewrite (validate_success req w rowv expiry) by done. simpl.
    fold kv. rewrite lookup_alter. case_decide as Hkk.
    + subst k. rewrite Hrowv in *. simplify_eq/=.
      eexists. split; [done|]. unfold same_license. simpl. repeat split; lia.
    + exists row. split; [done|apply same_license_refl].
  - destruct (activate_row req w k row Hrow) as [H|[Hlt H]]; rewrite H.
    + exists row. split; [done|apply same_license_refl].
    + eexists. split; [done|]. unfold same_license. simpl. repeat split; lia.
  - destruct (generate_cases req w)
      as [[_ Hdb]|(delta & expiry & _ & _ & Hfree & ->)]; [by apply Hsame|].
    simpl. exists row. split; [|apply same_license_refl].
    rewrite lookup_insert_ne; [done|]. intros Heq.
    rewrite Heq in Hfree. congruence.
  - apply Hsame. apply check_db_frame.
  - apply Hsame.
    destruct (key_mismatch api_key
                (default PLACEHOLDER (environ w !! "ADMIN_API_KEY"%string))) eqn:Hkey.
    + by rewrite stats_unauthorized.
    + by rewrite (proj1 (proj2 (stats_authorized api_key w Hkey))).
Qed.

(** X17.  No run of requests deletes a license or rewrites it: a row, once
    stored, stays under its key with the same email, product, dates,
    status and ceiling, and its activation count never goes down.  Only
    the count and the validation stamp ever change. *)
Theorem licenses_are_kept (rs : list request) :
  ∀ (w : world) (k : string) (row : license),
  licenses (db w) !! k = Some row →
  ∃ row', licenses (db (serve rs w)) !! k = Some row' ∧ same_license row row'.
Proof.
  induction rs as [|r rs IH]; intros w k row Hrow.
  - exists row. split; [done|apply same_license_refl].
  - simpl. destruct (handle_keeps_license r w k row Hrow) as (row1 & H1 & S1).
    destruct (IH _ k row1 H1) as (row2 & H2 & S2).
    exists row2. split; [done|]. by eapply same_license_trans.
Qed.

Lemma licenses_are_kept_witness :
  let w := sample_world (sample_license "active" 0 1) noon_jan8 fresh ∅ in
  let rs := [Activate activate_key; Validate validate_key;
             Generate (generate_with (Some PLACEHOLDER) 30); Activate activate_key] in
  ∃ row', licenses (db (serve rs w)) !! KEY = Some row' ∧
          same_license (sample_license "active" 0 1) row'.
Proof.
  intros w rs.
  exact (licenses_are_kept rs w KEY (sample_license "active" 0 1) eq_refl).
Defined.

Lemma ids_from_app (first : Z) (n m : nat) :
  ids_from first (n + m) = ids_from first n ++ ids_from (first + Z.of_nat n) m.
Proof.
  revert first. induction n as [|n IH]; intros first.
  - simpl. by rewrite Z.add_0_r.
  - cbn [Nat.add ids_from app]. rewrite IH. do 3 f_equal. lia.
Qed.

Lemma log_extends_same (d d' : database) :
  validation_logs d' = validation_logs d → log_seq d' = log_seq d →
  log_extends d d' [].
Proof.
  intros Hl Hs. unfold log_extends. rewrite app_nil_r. simpl.
  split; [done|]. split; [lia|done].
Qed.

Lemma log_extends_insert (d d0 : database) (k ts : string) (ip : option string)
    (res : string) :
  validation_logs d0 = validation_logs d → log_seq d0 = log_seq d →
  log_extends d (insert_log d0 k ts ip res)
              [mklog (log_seq d + 1) k ts ip None res].
Proof.
  intros Hl Hs. unfold log_extends. simpl. rewrite Hl, Hs.
  split; [done|]. split; [lia|done].
Qed.

Lemma log_extends_trans (d1 d2 d3 : database) (n1 n2 : list log_entry) :
  log_extends d1 d2 n1 → log_extends d2 d3 n2 → log_extends d1 d3 (n1 ++ n2).
Proof.
  unfold log_extends. intros (L1 & S1 & I1) (L2 & S2 & I2).
  rewrite L2, L1, S2, S1, fmap_app, I1, I2, S1, length_app, app_assoc.
  split; [done|]. split; [lia|].
  rewrite ids_from_app. do 2 f_equal. lia.
Qed.

(** One request appends at most one row, and only [/validate] appends. *)
Lemma handle_appends (r : request) (w : world) :
  ∃ new, log_extends (db w) (db (handle r w).2) new ∧
         (List.length new ≤ 1)%nat ∧
         ((∀ req, r ≠ Validate req) → new = []).
Proof.
  destruct r as [req|req|req|key|api_key]; simpl.
  - set (kv := normalized (vr_license_key req)).
    assert (Hnone : db (validate_license req w).2 = db w →
      ∃ new, log_extends (db w) (db (validate_license req w).2) new ∧
             (List.length new ≤ 1)%nat ∧
             ((∀ req', Validate req ≠ Validate req') → new = [])).
    { intros ->. exists []. split; [by apply log_extends_same|].
      split; [simpl; lia|done]. }
    destruct (decide (kv = EmptyString)) as [Hk|Hk];
      [apply Hnone; by rewrite validate_missing_key|].
    destruct (licenses (db w) !! kv) as [rowv|] eqn:Hrowv.
    2: { rewrite validate_not_found by done. simpl. eexists.
         split; [by apply log_extends_insert|].
         split; [simpl; lia|]. intros H. by destruct (H req). }
    destruct (strptime_Ymd (expiry_date rowv)) as [expiry|] eqn:He;
      [|apply Hnone; by rewrite (validate_bad_date req w rowv)].
    destruct (datetime_lt expiry (clock w (ticks w))) eqn:Hlt.
    { rewrite (validate_expired req w rowv expiry) by done. simpl. eexists.
      split; [by apply log_extends_insert|].
      split; [simpl; lia|]. intros H. by destruct (H req). }
    destruct (decide (status rowv = "active"%string)) as [Hst|Hst].
    2: { rewrite (validate_inactive req w rowv expiry) by done. simpl. eexists.
         split; [by apply log_extends_insert|].
         split; [simpl; lia|]. intros H. by destruct (H req). }
    rewrite (validate_success req w rowv expiry) by done. simpl. eexists.
    split; [by apply log_extends_insert|].
    split; [simpl; lia|]. intros H. by destruct (H req).
  - exists []. split; [|split; [simpl; lia|done]].
    destruct (activate_db req w) as [->|(? & _ & _ & _ & _ & ->)];
      by apply log_extends_same.
  - exists []. split; [|split; [simpl; lia|done]].
    destruct (generate_cases req w) as [[_ ->]|(? & ? & _ & _ & _ & ->)];
      by apply log_extends_same.
  - exists []. split; [|split; [simpl; lia|done]].
    rewrite check_db_frame. by apply log_extends_same.
  - exists []. split; [|split; [simpl; lia|done]].
    destruct (key_mismatch api_key
                (default PLACEHOLDER (environ w !! "ADMIN_API_KEY"%string))) eqn:Hkey.
    + rewrite stats_unauthorized by done. by apply log_extends_same.
    + rewrite (proj1 (proj2 (stats_authorized api_key w Hkey))).
      by apply log_extends_same.
Qed.

(** X18.  The validation log is append-only: a run of requests leaves the
    rows already logged in place and in order, adds at most one row per
    [/validate] request and none for any other request, and numbers the
    new rows consecutively from the next free id. *)
Theorem log_is_append_only (rs : list request) :
  ∀ w : world,
  ∃ new, log_extends (db w) (db (serve rs w)) new ∧
         (List.length new ≤ validations rs)%nat.
Proof.
  induction rs as [|r rs IH]; intros w.
  - exists []. split; [by apply log_extends_same|]. simpl. lia.
  - simpl. destruct (handle_appends r w) as (n1 & E1 & L1 & V1).
    destruct (IH (handle r w).2) as (n2 & E2 & L2).
    exists (n1 ++ n2). split; [by eapply log_extends_trans|].
    rewrite length_app.
    destruct r as [req|req|req|key|api_key]; cbn [validations];
      try (rewrite V1 by done; simpl); lia.
Qed.

(* ===================================================================== *)
(** ** Statistics *)
(* ===================================================================== *)

Lemma stats_report (api_key : option string) (w : world) :
  api_key = Some (admin_secret w) →
  get_stats api_key w =
    (jsonify
       [("total_licenses", JInt (count_licenses (fun _ => true) (db w)));
        ("active_licenses",
         JInt (count_licenses (fun l => String.eqb (status l) "active") (db w)));
        ("expired_licenses",
         JInt (count_licenses
                 (fun l => String.ltb (expiry_date l)
                             (iso_date (year (utc_clock w (ticks w)))
                                       (month (utc_clock w (ticks w)))
                                       (day (utc_clock w (ticks w))))) (db w)));
        ("validations_today",
         JInt (count_logs
                 (fun e => String.prefix (strftime_Ymd (clock w (S (ticks w))))
                             (timestamp e)) (db w)))] 200,
     tick (tick w)).
Proof.
  unfold admin_secret, PLACEHOLDER. intros Hkey. apply key_mismatch_false in Hkey.
  run_handler. by rewrite Hkey.
Qed.

Lemma count_licenses_total (d : database) :
  count_licenses (fun _ => true) d = Z.of_nat (size (licenses d)).
Proof.
  unfold count_licenses. f_equal. rewrite <- length_map_to_list.
  f_equal. induction (map_to_list (licenses d)) as [|x l IH]; [done|].
  rewrite filter_cons_True by done. by rewrite IH.
Qed.

Lemma count_licenses_bounds (P : license → bool) (d : database) :
  0 ≤ count_licenses P d ≤ count_licenses (fun _ => true) d.
Proof.
  rewrite count_licenses_total. unfold count_licenses.
  rewrite <- length_map_to_list.
  pose proof (length_filter (fun kv : string * license => P kv.2 = true)
                (map_to_list (licenses d))).
  lia.
Qed.

Lemma count_licenses_insert (P : license → bool) (d : database) (k : string)
    (row : license) :
  licenses d !! k = None →
  count_licenses P (set_licenses (insert k row) d)
    = count_licenses P d + (if P row then 1 else 0).
Proof.
  intros Hfree. unfold count_licenses. cbn [licenses set_licenses].
  rewrite (map_to_list_insert _ _ _ Hfree).
  destruct (P row) eqn:HP.
  - rewrite filter_cons_True by done. rewrite length_cons. lia.
  - rewrite filter_cons_False by (simpl; congruence). lia.
Qed.

Lemma count_logs_bounds (P : log_entry → bool) (d : database) :
  0 ≤ count_logs P d ≤ Z.of_nat (List.length (validation_logs d)).
Proof.
  unfold count_logs.
  pose proof (length_filter (fun e => P e = true) (validation_logs d)). lia.
Qed.

(** X19.  An authorized [/stats] call only reads: the database is left as
    it was, [total_licenses] is the number of stored licenses, the active
    and the expired counts lie between 0 and that total, and
    [validations_today] between 0 and the length of the log. *)
Theorem stats_only_reads (api_key : option string) (w : world) :
  api_key = Some (admin_secret w) →
  let r := (get_stats api_key w).1 in
  status_code r = 200 ∧
  db (get_stats api_key w).2 = db w ∧
  ∃ total active expired today,
    field "total_licenses" r = Some (JInt total) ∧
    field "active_licenses" r = Some (JInt active) ∧
    field "expired_licenses" r = Some (JInt expired) ∧
    field "validations_today" r = Some (JInt today) ∧
    total = Z.of_nat (size (licenses (db w))) ∧
    0 ≤ active ≤ total ∧ 0 ≤ expired ≤ total ∧
    0 ≤ today ≤ Z.of_nat (List.length (validation_logs (db w))).
Proof.
  intros Hkey r. subst r. rewrite stats_report by done. cbn [fst snd].
  split; [done|]. split; [done|].
  do 4 eexists. do 4 (split; [reflexivity|]).
  split; [apply count_licenses_total|].
  split; [apply count_licenses_bounds|].
  split; [apply count_licenses_bounds | apply count_logs_bounds].
Qed.

Lemma stats_only_reads_witness :
  let w := sample_world (sample_license "active" 0 1) noon_jan20 zeros ∅ in
  db (get_stats (Some PLACEHOLDER) w).2 = db w ∧
  field "total_licenses" (get_stats (Some PLACEHOLDER) w).1 = Some (JInt 1) ∧
  field "expired_licenses" (get_stats (Some PLACEHOLDER) w).1 = Some (JInt 1).
Proof.
  intros w.
  destruct (stats_only_reads (Some PLACEHOLDER) w eq_refl) as (_ & Hdb & _).
  split; [exact Hdb|]. split; reflexivity.
Defined.

(** X20.  A license just issued shows in the next [/stats]: the total and
    the active count are each one higher than they would have been
    without the [/generate] call. *)
Theorem issue_is_counted (req : generate_request) (api_key : option string)
    (w : world) :
  let gen := generate_license req w in
  field "success" gen.1 = Some (JBool true) →
  api_key = Some (admin_secret w) →
  ∃ total active,
    field "total_licenses" (get_stats api_key w).1 = Some (JInt total) ∧
    field "active_licenses" (get_stats api_key w).1 = Some (JInt active) ∧
    field "total_licenses" (get_stats api_key gen.2).1 = Some (JInt (total + 1)) ∧
    field "active_licenses" (get_stats api_key gen.2).1
      = Some (JInt (active + 1)).
Proof.
  intros gen Hok Hkey. subst gen.
  destruct (generate_cases req w)
    as [[Hf _]|(delta & expiry & _ & _ & Hfree & Hgen)];
    [rewrite Hf in Hok; discriminate Hok|].
  rewrite Hgen. cbn [snd].
  rewrite (stats_report api_key w Hkey).
  rewrite (stats_report api_key (set_db _ _)) by (rewrite Hkey; reflexivity).
  cbn [fst db set_db].
  do 2 eexists. do 2 (split; [reflexivity|]).
  unfold field; simpl.
  rewrite !(count_licenses_insert _ _ _ _ Hfree). simpl.
  split; reflexivity.
Qed.

Lemma issue_is_counted_witness :
  let w := sample_world (sample_license "revoked" 0 1) noon_jan8 fresh ∅ in
  let gen := generate_license (generate_with (Some PLACEHOLDER) 30) w in
  field "total_licenses" (get_stats (Some PLACEHOLDER) gen.2).1 = Some (JInt 2) ∧
  field "active_licenses" (get_stats (Some PLACEHOLDER) gen.2).1 = Some (JInt 1).
Proof.
  intros w gen.
  destruct (issue_is_counted (generate_with (Some PLACEHOLDER) 30)
              (Some PLACEHOLDER) w eq_refl eq_refl)
    as (total & active & Ht & Ha & Ht' & Ha').
  vm_compute in Ht, Ha. injection Ht as <-. injection Ha as <-.
  split; [exact Ht' | exact Ha'].
Defined.

Lemma prefix_append (s r : string) : String.prefix s (s +:+ r) = true.
Proof.
  induction s as [|c s IH]; [by destruct r|].
  cbn [String.append]. cbv beta iota fix delta [String.append]. simpl.
  destruct (ascii_dec c c); [|done]. exact IH.
Qed.

(** From the year 1000 on, the date that [strftime] prints starts the
    time stamp that [isoformat] prints. *)
Lemma isoformat_prefix (t : datetime) :
  1000 ≤ year t → String.prefix (strftime_Ymd t) (isoformat t) = true.
Proof.
  intros Hy. rewrite strftime_iso_date by done.
  unfold isoformat. apply prefix_append.
Qed.

Lemma count_logs_insert (P : log_entry → bool) (d : database) (k ts : string)
    (ip : option string) (res : string) :
  count_logs P (insert_log d k ts ip res)
    = count_logs P d
      + (if P (mklog (log_seq d + 1) k ts ip None res) then 1 else 0).
Proof.
  unfold count_logs. cbn [validation_logs insert_log].
  rewrite filter_app, length_app.
  destruct (P _) eqn:HP.
  - rewrite filter_cons_True by done. simpl. lia.
  - rewrite filter_cons_False by congruence. simpl. lia.
Qed.

(** X21.  A validation is counted by [/stats]: when the clock stays on
    one calendar day, of a year of four digits, through a [/validate] call
    on a non-empty key and the [/stats] call that follows,
    [validations_today] is one more than the number of entries that the
    log already held for that day. *)
Theorem validation_is_counted (req : validate_request) (api_key : option string)
    (w : world) (day : string) :
  normalized (vr_license_key req) ≠ EmptyString →
  dates_ok (db w) →
  api_key = Some (admin_secret w) →
  (∀ i, (i ≤ 5)%nat → strftime_Ymd (clock w (ticks w + i)%nat) = day) →
  String.length day = 10%nat →
  field "validations_today" (get_stats api_key (validate_license req w).2).1
    = Some (JInt (count_logs (fun e => String.prefix day (timestamp e)) (db w) + 1)).
Proof.
  intros Hk Hdates Hkey Hday Hlen.
  assert (Hyear : ∀ t, strftime_Ymd t = day → 1000 ≤ year t)
    by (intros t Ht; apply strftime_length; by rewrite Ht).
  assert (H0 := Hday 0%nat ltac:(lia)). assert (H1 := Hday 1%nat ltac:(lia)).
  assert (H2 := Hday 2%nat ltac:(lia)). assert (H3 := Hday 3%nat ltac:(lia)).
  assert (H4 := Hday 4%nat ltac:(lia)). assert (H5 := Hday 5%nat ltac:(lia)).
  rewrite ?Nat.add_0_r in *.
  replace (ticks w + 1)%nat with (S (ticks w)) in * by lia.
  replace (ticks w + 2)%nat with (S (S (ticks w))) in * by lia.
  replace (ticks w + 3)%nat with (S (S (S (ticks w)))) in * by lia.
  replace (ticks w + 4)%nat with (S (S (S (S (ticks w))))) in * by lia.
  replace (ticks w + 5)%nat with (S (S (S (S (S (ticks w)))))) in * by lia.
  set (k := normalized (vr_license_key req)) in *.
  destruct (licenses (db w) !! k) as [row|] eqn:Hrow.
  - destruct (Hdates k row Hrow) as [expiry He].
    destruct (datetime_lt expiry (clock w (ticks w))) eqn:Hlt;
      [|destruct (decide (status row = "active"%string)) as [Hst|Hst]].
    + rewrite (validate_expired req w row expiry) by done. cbn [snd].
      rewrite stats_report by (rewrite Hkey; reflexivity).
      unfold field; simpl. rewrite H3, count_logs_insert.
      cbn [timestamp]. by rewrite <- H1, isoformat_prefix, H1 by auto.
    + rewrite (validate_success req w row expiry) by done. cbn [snd].
      rewrite stats_report by (rewrite Hkey; reflexivity).
      unfold field; simpl. rewrite H5, count_logs_insert.
      cbn [timestamp]. rewrite <- H2, isoformat_prefix, H2 by auto.
      reflexivity.
    + rewrite (validate_inactive req w row expiry) by done. cbn [snd].
      rewrite stats_report by (rewrite Hkey; reflexivity).
      unfold field; simpl. rewrite H3, count_logs_insert.
      cbn [timestamp]. by rewrite <- H1, isoformat_prefix, H1 by auto.
  - rewrite validate_not_found by done. cbn [snd].
    rewrite stats_report by (rewrite Hkey; reflexivity).
    unfold field; simpl. rewrite H2, count_logs_insert.
    cbn [timestamp]. by rewrite <- H0, isoformat_prefix, H0 by auto.
Qed.

Lemma validation_is_counted_witness :
  let w := sample_world (sample_license "active" 0 1) noon_jan8 zeros ∅ in
  field "validations_today"
        (get_stats (Some PLACEHOLDER) (validate_license validate_key w).2).1
    = Some (JInt 1).
Proof.
  intros w.
  exact (validation_is_counted validate_key (Some PLACEHOLDER) w "2030-01-08"
           ltac:(vm_compute; congruence)
           ltac:(intros k row H; subst w; simpl in H;
                 apply lookup_singleton_Some in H as [_ <-]; vm_compute; eauto)
           eq_refl ltac:(intros i _; reflexivity) eq_refl).
Defined.

(* ===================================================================== *)
(** ** Days remaining *)
(* ===================================================================== *)

(** From a midnight back to a moment [t], the whole days are the calendar
    days between, less one unless [t] is itself a midnight. *)
Lemma days_until_midnight (e t : datetime) :
  seconds_of_day e = 0 → microsecond e = 0 → valid_datetime t = true →
  td_days (datetime_sub e t)
    = toordinal e - toordinal t - (if at_midnight t then 0 else 1).
Proof.
  intros Hs Hus Ht. destruct (time_of_day_bounds t Ht) as [Bs Bus].
  unfold datetime_sub, normalize_td, at_midnight. cbn [td_days].
  rewrite Hs, Hus.
  destruct (Z.eqb_spec (seconds_of_day t) 0), (Z.eqb_spec (microsecond t) 0);
    cbn [andb]; Z.div_mod_to_equations; lia.
Qed.

(** X22.  On a successful validation [days_remaining] is the number of
    calendar days from the day of the answer to the expiry date, less one
    unless the answer is made exactly at midnight: the last day of a
    license shows 0 days remaining. *)
Theorem days_remaining_counts_days (req : validate_request) (w : world)
    (row : license) (expiry : datetime) :
  normalized (vr_license_key req) ≠ EmptyString →
  licenses (db w) !! normalized (vr_license_key req) = Some row →
  status row = "active"%string →
  strptime_Ymd (expiry_date row) = Some expiry →
  datetime_lt expiry (clock w (ticks w)) = false →
  let answered := clock w (S (S (S (ticks w)))) in
  valid_datetime answered = true →
  field "days_remaining" (validate_license req w).1
    = Some (JInt (toordinal expiry - toordinal answered
                  - (if at_midnight answered then 0 else 1))).
Proof.
  intros Hk Hrow Hst He Hlt answered Hv. subst answered.
  rewrite (validate_success req w row expiry) by done.
  destruct (strptime_valid _ _ He) as (_ & Hs & Hus).
  by rewrite <- days_until_midnight.
Qed.

Lemma days_remaining_counts_days_witness :
  let w := sample_world (sample_license "active" 0 1)
                        (mkdt 2030 1 9 23 59 59 0) zeros ∅ in
  field "days_remaining" (validate_license validate_key w).1 = Some (JInt 0).
Proof.
  intros w.
  exact (days_remaining_counts_days validate_key w (sample_license "active" 0 1)
           (midnight 2030 1 10) ltac:(vm_compute; congruence)
           eq_refl eq_refl eq_refl eq_refl eq_refl).
Defined.

(** The midnight on which a license of [n] days falls due is [n] calendar
    days after the day it was issued. *)
Lemma plus_days_ordinal (t : datetime) (n : Z) :
  1 ≤ toordinal t + n ≤ MAXORDINAL →
  ymd2ord (year (plus_days t n)) (month (plus_days t n)) (day (plus_days t n))
    = toordinal t + n.
Proof.
  intros Hn. unfold plus_days.
  pose proof (ymd2ord_ord2ymd (toordinal t + n) Hn) as H.
  destruct (ord2ymd _) as [[y m] d]. exact H.
Qed.

(** A midnight is not before any moment of an earlier day. *)
Lemma midnight_not_before (e t : datetime) :
  valid_datetime e = true → seconds_of_day e = 0 → microsecond e = 0 →
  valid_datetime t = true → toordinal t < toordinal e →
  datetime_lt e t = false.
Proof.
  intros Hve Hs Hus Hvt Hle. apply not_true_is_false. intros Hlt.
  apply datetime_lt_spec in Hlt; [|done..].
  destruct (time_of_day_bounds _ Hvt) as [Bs Bus].
  unfold to_microseconds in Hlt. rewrite Hs, Hus in Hlt. lia.
Qed.

(** Adding days does not take the year back. *)
Lemma plus_days_year (t : datetime) (n : Z) :
  valid_date (year t) (month t) (day t) = true →
  0 ≤ n → 1 ≤ toordinal t + n ≤ MAXORDINAL →
  year t ≤ year (plus_days t n).
Proof.
  intros Hv Hn Hrange. unfold plus_days.
  pose proof (ord2ymd_valid (toordinal t + n) Hrange) as Hv'.
  pose proof (ymd2ord_ord2ymd (toordinal t + n) Hrange) as Hord.
  destruct (ord2ymd _) as [[y' m'] d']. cbn [year].
  unfold valid_date in Hv, Hv'.
  repeat (apply andb_true_iff in Hv as [Hv ?]).
  repeat (apply andb_true_iff in Hv' as [Hv' ?]).
  repeat match goal with
         | H : (_ <=? _) = true |- _ => apply Z.leb_le in H
         end.
  destruct (Z.le_gt_cases (year t) y') as [|Hlt]; [done|].
  pose proof (ymd2ord_lt y' m' d' (year t) (month t) (day t)
                ltac:(lia) ltac:(lia) ltac:(lia) ltac:(lia)
                ltac:(left; lia)) as H'.
  unfold toordinal in Hord. lia.
Qed.

(** An active license whose expiry date is the date of [due], in a year of
    four digits, validates on every day before that date. *)
Lemma validate_until_due (req : validate_request) (w : world) (row : license)
    (due : datetime) :
  normalized (vr_license_key req) ≠ EmptyString →
  licenses (db w) !! normalized (vr_license_key req) = Some row →
  status row = "active"%string →
  expiry_date row = strftime_Ymd due →
  valid_date (year due) (month due) (day due) = true → 1000 ≤ year due →
  valid_datetime (clock w (ticks w)) = true →
  valid_datetime (clock w (S (S (S (ticks w))))) = true →
  toordinal (clock w (ticks w)) < ymd2ord (year due) (month due) (day due) →
  field "valid" (validate_license req w).1 = Some (JBool true) ∧
  field "days_remaining" (validate_license req w).1
    = Some (JInt (ymd2ord (year due) (month due) (day due)
                  - toordinal (clock w (S (S (S (ticks w)))))
                  - (if at_midnight (clock w (S (S (S (ticks w))))) then 0
                     else 1))).
Proof.
  intros Hk Hrow Hst Hdate Hvd Hyear Hv0 Hv3 Hle.
  pose (expiry := midnight (year due) (month due) (day due)).
  assert (Hparse : strptime_Ymd (expiry_date row) = Some expiry)
    by (rewrite Hdate; by apply strptime_strftime).
  assert (Hlt : datetime_lt expiry (clock w (ticks w)) = false)
    by (apply midnight_not_before; [by apply valid_midnight|done..]).
  rewrite (validate_success req w row expiry Hk Hrow Hparse Hlt Hst).
  split; [reflexivity|].
  rewrite <- (days_until_midnight expiry) by done. reflexivity.
Qed.

(** X23.  A license issued for [n] days, [n] at least 1, in a year of four
    digits, validates when it is presented later the same day, and the
    answer then says [n - 1] days remaining ([n] at the stroke of
    midnight). *)
Theorem fresh_license_validates (greq : generate_request)
    (vreq : validate_request) (w : world) (key : string) (n : Z) :
  let gen := generate_license greq w in
  let issued := clock w (S (ticks w)) in
  let tested := clock w (S (S (ticks w))) in
  let answered := clock w (S (S (S (S (S (ticks w)))))) in
  gr_duration_days greq = Some n → 1 ≤ n →
  field "success" gen.1 = Some (JBool true) →
  field "license_key" gen.1 = Some (JStr key) →
  vr_license_key vreq = Some key →
  valid_datetime issued = true → 1000 ≤ year issued →
  valid_datetime tested = true → valid_datetime answered = true →
  toordinal tested = toordinal issued →
  toordinal answered = toordinal issued →
  field "valid" (validate_license vreq gen.2).1 = Some (JBool true) ∧
  field "days_remaining" (validate_license vreq gen.2).1
    = Some (JInt (n - (if at_midnight answered then 0 else 1))).
Proof.
  intros gen issued tested answered Hn Hpos Hok Hkey Hreq Hvi Hyear Hvt Hva
         Ht Ha.
  subst gen issued tested answered.
  destruct (generate_cases greq w)
    as [[Hf _]|(delta & expiry & Hdelta & Hadd & Hfree & Hgen)];
    [rewrite Hf in Hok; discriminate Hok|].
  rewrite Hgen in Hkey |- *. clear Hgen Hok. cbn [fst snd] in *.
  rewrite Hn in Hdelta. cbn [default] in Hdelta.
  pose proof Hvi as Hvi'. unfold valid_datetime in Hvi'.
  apply andb_true_iff in Hvi' as [Hvd Hvtime].
  pose proof (datetime_add_valid _ _ _ Hadd) as Hve.
  rewrite (datetime_add_days _ n delta Hvtime Hdelta) in Hadd.
  destruct (_ && _) eqn:Hrange; [|discriminate Hadd]. injection Hadd as <-.
  apply andb_true_iff in Hrange as [Hlo Hhi].
  apply Z.ltb_lt in Hlo. apply Z.leb_le in Hhi.
  assert (Ek : key = next_key w) by (injection Hkey as <-; reflexivity).
  clear Hkey. subst key.
  assert (Hnorm : normalized (vr_license_key vreq) = next_key w)
    by (rewrite Hreq; apply normalized_generated).
  pose proof (plus_days_ordinal (clock w (S (ticks w))) n ltac:(lia)) as Hord.
  match goal with
  | |- context [validate_license vreq ?w1] =>
      destruct (validate_until_due vreq w1
                  (mklicense (strip (default "" (gr_email greq)))
                     (default "NGC_EA"%string (gr_product greq))
                     (strftime_Ymd (clock w (ticks w)))
                     (strftime_Ymd (plus_days (clock w (S (ticks w))) n))
                     "active" 0 (default 1 (gr_max_activations greq)) None None)
                  (plus_days (clock w (S (ticks w))) n)) as [Hvalid Hdays]
  end.
  - rewrite Hnorm. apply key_of_draws_nonempty.
  - rewrite Hnorm. cbn [db set_db licenses set_licenses]. apply lookup_insert_eq.
  - reflexivity.
  - reflexivity.
  - exact Hve.
  - pose proof (plus_days_year (clock w (S (ticks w))) n Hvd ltac:(lia)
                  ltac:(lia)). lia.
  - exact Hvt.
  - exact Hva.
  - rewrite Hord. change (toordinal (clock w (S (S (ticks w))))
                          < toordinal (clock w (S (ticks w))) + n). lia.
  - split; [exact Hvalid|]. rewrite Hdays, Hord.
    change (Some (JInt (toordinal (clock w (S (ticks w))) + n
                        - toordinal (clock w (S (S (S (S (S (ticks w)))))))
                        - (if at_midnight (clock w (S (S (S (S (S (ticks w)))))))
                           then 0 else 1)))
            = Some (JInt (n - (if at_midnight
                                     (clock w (S (S (S (S (S (ticks w)))))))
                               then 0 else 1)))).
    rewrite Ha. do 2 f_equal. lia.
Qed.

Lemma fresh_license_validates_witness :
  let gen := generate_license (generate_with (Some PLACEHOLDER) 30) fresh_world in
  let req := mkvalidate (Some "NGC-ABCD-ABCE-ABCF-ABD0") None None in
  field "valid" (validate_license req gen.2).1 = Some (JBool true) ∧
  field "days_remaining" (validate_license req gen.2).1 = Some (JInt 29).
Proof.
  intros gen req.
  exact (fresh_license_validates (generate_with (Some PLACEHOLDER) 30) req
           fresh_world "NGC-ABCD-ABCE-ABCF-ABD0" 30 eq_refl ltac:(lia)
           eq_refl eq_refl eq_refl eq_refl ltac:(vm_compute; congruence)
           eq_refl eq_refl eq_refl eq_refl).
Defined.

(** X24.  [/check] never shows an expired license with days left: when
    the clock does not run backwards between its two readings, a license
    shown with status [expired] because its date has passed is shown with
    [days_remaining] = 0, and one shown with days remaining keeps its
    stored status. *)
Theorem expired_has_no_days_left (license_key : string) (w : world)
    (row : license) (expiry : datetime) :
  licenses (db w) !! upper (strip license_key) = Some row →
  strptime_Ymd (expiry_date row) = Some expiry →
  let first := clock w (ticks w) in
  let second := clock w (S (ticks w)) in
  valid_datetime first = true → valid_datetime second = true →
  datetime_lt second first = false →
  let r := (check_license license_key w).1 in
  (datetime_lt expiry first = true →
   field "status" r = Some (JStr "expired") ∧
   field "days_remaining" r = Some (JInt 0)) ∧
  (∀ n, field "days_remaining" r = Some (JInt n) → 0 < n →
        field "status" r = Some (JStr (status row))).
Proof.
  intros Hrow He first second Hv1 Hv2 Hmono r. subst first second r.
  rewrite (check_found license_key w row expiry) by done.
  destruct (strptime_valid _ _ He) as (Hve & Hs & Hus).
  assert (Hdays : datetime_lt expiry (clock w (ticks w)) = true →
                  td_days (datetime_sub expiry (clock w (S (ticks w)))) < 0).
  { intros Hlt. apply datetime_lt_spec in Hlt; [|done..].
    assert (Hle : ¬ to_microseconds (clock w (S (ticks w)))
                    < to_microseconds (clock w (ticks w))).
    { intros H. apply datetime_lt_spec in H; [|done..]. congruence. }
    rewrite datetime_sub_days. unfold floor_days, US_PER_DAY.
    Z.div_mod_to_equations. lia. }
  split.
  - intros Hlt. rewrite Hlt. specialize (Hdays Hlt).
    split; [reflexivity|].
    change (Some (JInt (Z.max 0 (td_days (datetime_sub expiry
                                            (clock w (S (ticks w)))))))
            = Some (JInt 0)).
    do 2 f_equal. lia.
  - intros n Hn Hpos.
    destruct (datetime_lt expiry (clock w (ticks w))); [|reflexivity].
    specialize (Hdays eq_refl). exfalso.
    change (Some (JInt (Z.max 0 (td_days (datetime_sub expiry
                                            (clock w (S (ticks w)))))))
            = Some (JInt n)) in Hn.
    rewrite Z.max_l in Hn by lia. injection Hn as <-. lia.
Qed.

Lemma expired_has_no_days_left_witness :
  let w := sample_world (sample_license "active" 0 1) noon_jan20 zeros ∅ in
  field "status" (check_license KEY w).1 = Some (JStr "expired") ∧
  field "days_remaining" (check_license KEY w).1 = Some (JInt 0).
Proof.
  intros w.
  exact (proj1 (expired_has_no_days_left KEY w (sample_license "active" 0 1)
                  (midnight 2030 1 10) eq_refl eq_refl eq_refl eq_refl eq_refl)
               eq_refl).
Defined.

(* ===================================================================== *)
(** ** The shape of a store built by the endpoints *)
(* ===================================================================== *)

Lemma handle_issued_rows (r : request) (w : world) :
  (∀ k row, licenses (db w) !! k = Some row → issued_row k row) →
  ∀ k row, licenses (db (handle r w).2) !! k = Some row → issued_row k row.
Proof.
  intros Hw.
  assert (Hsame : db (handle r w).2 = db w →
    ∀ k row, licenses (db (handle r w).2) !! k = Some row → issued_row k row)
    by (intros ->; exact Hw).
  destruct r as [req|req|req|key|api_key]; simpl in *.
  - set (kv := normalized (vr_license_key req)).
    destruct (decide (kv = EmptyString)) as [Hk|Hk];
      [apply Hsame; by rewrite validate_missing_key|].
    destruct (licenses (db w) !! kv) as [rowv|] eqn:Hrowv;
      [|by rewrite validate_not_found].
    destruct (strptime_Ymd (expiry_date rowv)) as [expiry|] eqn:He;
      [|apply Hsame; by rewrite (validate_bad_date req w rowv)].
    destruct (datetime_lt expiry (clock w (ticks w))) eqn:Hlt;
      [by rewrite (validate_expired req w rowv expiry)|].
    destruct (decide (status rowv = "active"%string)) as [Hst|Hst];
      [|by rewrite (validate_inactive req w rowv expiry)].
    rewrite (validate_success req w rowv expiry) by done. simpl. fold kv.
    intros k row H. rewrite lookup_alter in H. case_decide as Hkk; [|by apply Hw].
    subst k. rewrite Hrowv in H. simplify_eq/=.
    destruct (Hw kv rowv Hrowv) as (? & ? & ? & ?). by repeat split.
  - intros k row H.
    destruct (licenses (db w) !! k) as [row0|] eqn:Hrow0;
      [|by rewrite activate_row_none in H].
    destruct (Hw k row0 Hrow0) as (? & ? & ? & ?).
    destruct (activate_row req w k row0 Hrow0) as [E|[_ E]];
      rewrite E in H; injection H as <-; unfold issued_row; simpl;
      repeat split; try done; lia.
  - destruct (generate_cases req w)
      as [[_ Hdb]|(delta & expiry & _ & _ & Hfree & ->)]; [by apply Hsame|].
    simpl. intros k row H. apply lookup_insert_Some in H as [[<- <-]|[_ H]];
      [|by apply Hw].
    split; [apply next_key_format|]. by repeat split.
  - apply Hsame. apply check_db_frame.
  - apply Hsame.
    destruct (key_mismatch api_key
                (default PLACEHOLDER (environ w !! "ADMIN_API_KEY"%string))) eqn:Hkey.
    + by rewrite stats_unauthorized.
    + by rewrite (proj1 (proj2 (stats_authorized api_key w Hkey))).
Qed.

(** X25.  In a store that the endpoints have built from the empty
    database every license sits under a key of the shape
    [NGC-XXXX-XXXX-XXXX-XXXX], has status [active], a count that is not
    negative and no account number: no endpoint changes a status or
    stores the account number it is sent. *)
Theorem built_store_rows (rs : list request) (w0 : world) :
  db w0 = init_db →
  ∀ k row, licenses (db (serve rs w0)) !! k = Some row → issued_row k row.
Proof.
  intros Hinit.
  assert (H0 : ∀ k row, licenses (db w0) !! k = Some row → issued_row k row).
  { rewrite Hinit. intros k row H. simpl in H. by rewrite lookup_empty in H. }
  clear Hinit. revert w0 H0.
  induction rs as [|r rs IH]; intros w0 H0; [done|].
  simpl. apply IH. by apply handle_issued_rows.
Qed.

Lemma built_store_rows_witness :
  let rs := [Generate (generate_with (Some PLACEHOLDER) 30);
             Activate (mkactivate (Some "NGC-ABCD-ABCE-ABCF-ABD0") (Some "77"))] in
  ∃ row, licenses (db (serve rs fresh_world)) !! "NGC-ABCD-ABCE-ABCF-ABD0"%string
           = Some row ∧
         issued_row "NGC-ABCD-ABCE-ABCF-ABD0" row ∧ activations row = 1.
Proof.
  intros rs.
  exists (mklicense "buyer@example.com" "NGC_EA" "2030-01-08" "2030-02-07"
                    "active" 1 1 None None).
  split; [reflexivity|]. split; [|reflexivity].
  exact (built_store_rows rs fresh_world eq_refl
           "NGC-ABCD-ABCE-ABCF-ABD0"
           (mklicense "buyer@example.com" "NGC_EA" "2030-01-08" "2030-02-07"
                      "active" 1 1 None None) eq_refl).
Defined.

Lemma handle_plain_entries (r : request) (w : world) :
  (∀ k row, licenses (db w) !! k = Some row → issued_row k row) →
  Forall plain_entry (validation_logs (db w)) →
  Forall plain_entry (validation_logs (db (handle r w).2)).
Proof.
  intros Hrows Hw.
  assert (Hsame : validation_logs (db (handle r w).2) = validation_logs (db w) →
                  Forall plain_entry (validation_logs (db (handle r w).2)))
    by (intros ->; exact Hw).
  destruct r as [req|req|req|key|api_key]; simpl in *.
  - set (kv := normalized (vr_license_key req)).
    destruct (decide (kv = EmptyString)) as [Hk|Hk];
      [apply Hsame; by rewrite validate_missing_key|].
    destruct (licenses (db w) !! kv) as [rowv|] eqn:Hrowv.
    2: { rewrite validate_not_found by done. simpl.
         apply Forall_app. split; [done|]. apply Forall_singleton.
         unfold plain_entry; simpl. auto. }
    destruct (strptime_Ymd (expiry_date rowv)) as [expiry|] eqn:He;
      [|apply Hsame; by rewrite (validate_bad_date req w rowv)].
    destruct (datetime_lt expiry (clock w (ticks w))) eqn:Hlt.
    { rewrite (validate_expired req w rowv expiry) by done. simpl.
      apply Forall_app. split; [done|]. apply Forall_singleton.
      unfold plain_entry; simpl. auto. }
    destruct (Hrows kv rowv Hrowv) as (_ & Hst & _).
    rewrite (validate_success req w rowv expiry) by done. simpl.
    apply Forall_app. split; [done|]. apply Forall_singleton.
    unfold plain_entry; simpl. auto 6.
  - apply Hsame.
    by destruct (activate_db req w) as [->|(? & _ & _ & _ & _ & ->)].
  - apply Hsame.
    by destruct (generate_cases req w) as [[_ ->]|(? & ? & _ & _ & _ & ->)].
  - apply Hsame. by rewrite check_db_frame.
  - apply Hsame. apply stats_logs_frame.
Qed.

(** X26.  In a log that the endpoints have built from the empty database
    every entry carries a non-empty key, no account number, and one of the
    results [NOT_FOUND], [EXPIRED] and [SUCCESS]: [INACTIVE] is never
    logged, since no endpoint makes a license inactive. *)
Theorem built_store_log (rs : list request) (w0 : world) :
  db w0 = init_db →
  Forall plain_entry (validation_logs (db (serve rs w0))).
Proof.
  intros Hinit.
  assert (H0 : (∀ k row, licenses (db w0) !! k = Some row → issued_row k row) ∧
               Forall plain_entry (validation_logs (db w0))).
  { rewrite Hinit. split; [|constructor].
    intros k row H. simpl in H. by rewrite lookup_empty in H. }
  clear Hinit. revert w0 H0.
  induction rs as [|r rs IH]; intros w0 [Hrows Hlog]; [done|].
  simpl. apply IH. split.
  - by apply handle_issued_rows.
  - by apply handle_plain_entries.
Qed.

Lemma built_store_log_witness :
  let rs := [Generate (generate_with (Some PLACEHOLDER) 0);
             Validate (mkvalidate (Some "NGC-ABCD-ABCE-ABCF-ABD0") None None);
             Validate (mkvalidate (Some "nope") (Some "77") None)] in
  result <$> validation_logs (db (serve rs fresh_world))
    = ["EXPIRED"; "NOT_FOUND"]%string ∧
  Forall plain_entry (validation_logs (db (serve rs fresh_world))).
Proof.
  intros rs. split; [reflexivity|].
  exact (built_store_log rs fresh_world eq_refl).
Defined.

(** X27.  Asking [/check] twice in a row gives the same license data:
    the second answer has the key, email, product, dates, count, ceiling
    and validation stamp of the first; only the status shown and
    [days_remaining] can differ, as the clock moves on. *)
Theorem check_twice (license_key : string) (w : world) (f : string) :
  let first := check_license license_key w in
  let second := check_license license_key first.2 in
  f ≠ "status"%string → f ≠ "days_remaining"%string →
  status_code first.1 = 200 →
  field f second.1 = field f first.1 ∧ status_code second.1 = 200.
Proof.
  intros first second Hf1 Hf2 Hcode. subst first second.
  destruct (licenses (db w) !! upper (strip license_key)) as [row|] eqn:Hrow.
  - destruct (strptime_Ymd (expiry_date row)) as [expiry|] eqn:He.
    + rewrite (check_found license_key w row expiry) by done. cbn [fst snd].
      rewrite (check_found license_key (tick (tick w)) row expiry) by done.
      split; [|reflexivity]. unfold field. cbn [fst snd body jsonify assoc].
      apply String.eqb_neq in Hf1, Hf2. rewrite Hf1, Hf2. cbv iota.
      reflexivity.
    + rewrite (check_bad_date license_key w row) in Hcode by done.
      discriminate Hcode.
  - rewrite (check_not_found license_key w) by done. cbn [fst snd].
    by rewrite (check_not_found license_key w).
Qed.

Lemma check_twice_witness :
  let w := sample_world (sample_license "active" 0 1) noon_jan8 zeros ∅ in
  field "expires" (check_license KEY (check_license KEY w).2).1
    = Some (JStr "2030-01-10").
Proof.
  intros w.
  exact (eq_trans
           (proj1 (check_twice KEY w "expires" ltac:(vm_compute; congruence)
                     ltac:(vm_compute; congruence) eq_refl))
           eq_refl).
Defined.
